(** * The asynchronous playback pipeline of sxplayer / nope.media

    A shallow embedding of [async.c] (reader, decoder worker, controller)
    and of the VideoToolbox decoder (buffer-count governor, reorder
    buffer, packet submission), with the properties the design document
    states about them.

    Conventions.
    - C integers ([int], [int64_t]) are read in [Z]; the code performs no
      arithmetic on timestamps besides the library rescaling. The
      counters of the governor are ints that the code adds to: their
      sums are written in [Z] and are those of the machine as long as
      they stay in the range of int, which the statements about the
      arithmetic of the governor require.
    - A call that may sleep in a condition wait or in a join returns an
      [outcome]: [Ret] when the call returns, [Park] when the calling
      thread is suspended inside the wait (the state is the one visible
      to the other threads at that point, the mutex being released),
      [Fault] when the code dereferences a NULL pointer or uses a freed
      object.
    - What the environment answers (allocations, thread creation, the
      frames queue taking or refusing a frame, the reader thread having
      ended) is an argument of the function that asks.
    - Effects on the outside world (frames released, callbacks invoked,
      mutex operations) are recorded in event traces kept next to the
      state they belong to. *)

From Stdlib Require Import ZArith List Bool Lia Sorted Permutation.
Import ListNotations.
Open Scope Z_scope.

Set Implicit Arguments.

(** ** Error codes and constants of libavutil *)

Definition AVERROR (e : Z) : Z := - e.
Definition ENOMEM : Z := 12.
Definition EAGAIN : Z := 11.

Definition MKTAG (a b c d : Z) : Z :=
  Z.lor a (Z.lor (Z.shiftl b 8) (Z.lor (Z.shiftl c 16) (Z.shiftl d 24))).
Definition FFERRTAG (a b c d : Z) : Z := - MKTAG a b c d.

(* 'E' = 69, 'O' = 79, 'F' = 70, 'X' = 88, 'T' = 84, ' ' = 32 *)
Definition AVERROR_EOF : Z := FFERRTAG 69 79 70 32.
Definition AVERROR_EXTERNAL : Z := FFERRTAG 69 88 84 32.

Definition AV_NOPTS_VALUE : Z := - 2 ^ 63.

Record AVRational := { num : Z; den : Z }.
Definition AV_TIME_BASE_Q : AVRational := {| num := 1; den := 1000000 |}.

(** ** Outcome of a call that may block *)

Inductive outcome (S A : Type) : Type :=
| Ret (a : A) (s : S)
| Park (s : S)
| Fault.
Arguments Ret {S A} a s.
Arguments Park {S A} s.
Arguments Fault {S A}.

Definition bind {S A B} (m : outcome S A) (k : A -> S -> outcome S B)
  : outcome S B :=
  match m with
  | Ret a s => k a s
  | Park s => Park s
  | Fault => Fault
  end.

Notation "'call' ( r , s ) <- m ; k" :=
  (bind m (fun r s => k))
    (at level 10, r name, s name, m at level 100, k at level 200).

(** The state reached by a call, whether it returned or is parked. *)
Definition reached {S A} (o : outcome S A) : option S :=
  match o with
  | Ret _ s => Some s
  | Park s => Some s
  | Fault => None
  end.

(** ** Bounded message queue *)

Module MQ.

(** Modelled from the spec: the bounded message queue of section 4.1
    (libavutil's AVThreadMessageQueue, whose code is not part of the
    sources): a FIFO of fixed capacity with a send-side and a
    receive-side error latch. A latch equal to 0 is unset. *)
Record t (A : Type) : Type := mk {
  fifo : list A;
  nb_elems : nat;
  err_send : Z;
  err_recv : Z
}.
Arguments mk {A}.

Section Ops.
Context {A : Type}.

Definition alloc (n : nat) : t A :=
  mk [] n 0 0.

Inductive send_result :=
| SendOk (q : t A)
| SendErr (e : Z)
| SendWait.

(** Blocking send: waits while there is neither an error latch nor
    space; an installed latch wins over available space. *)
Definition send (q : t A) (m : A) : send_result :=
  if negb (err_send q =? 0) then SendErr (err_send q)
  else if (length (fifo q) <? nb_elems q)%nat
       then SendOk (mk (fifo q ++ [m]) (nb_elems q) (err_send q) (err_recv q))
       else SendWait.

Inductive recv_result :=
| RecvOk (m : A) (q : t A)
| RecvErr (e : Z)
| RecvWait.

(** Blocking receive: pending items are delivered first; on an empty
    queue the receive-side latch is returned, or the caller waits. *)
Definition recv (q : t A) : recv_result :=
  match fifo q with
  | m :: rest => RecvOk m (mk rest (nb_elems q) (err_send q) (err_recv q))
  | [] => if negb (err_recv q =? 0) then RecvErr (err_recv q) else RecvWait
  end.

Definition set_err_send (q : t A) (e : Z) : t A :=
  mk (fifo q) (nb_elems q) e (err_recv q).

Definition set_err_recv (q : t A) (e : Z) : t A :=
  mk (fifo q) (nb_elems q) (err_send q) e.

(** Drops every pending item (each is handed to the release hook). *)
Definition flush (q : t A) : t A :=
  mk [] (nb_elems q) (err_send q) (err_recv q).

End Ops.

End MQ.

(** ** Frames *)

Record AVFrame := {
  best_effort_timestamp : Z;
  pts : Z;
  buf : nat                    (* identity of the payload *)
}.

Definition set_pts (f : AVFrame) (t : Z) : AVFrame :=
  {| best_effort_timestamp := best_effort_timestamp f;
     pts := t;
     buf := buf f |}.

Definition get_best_effort_ts (f : AVFrame) : Z :=
  let t := best_effort_timestamp f in
  if negb (t =? AV_NOPTS_VALUE) then t else pts f.

(** ** Packets *)

Record AVPacket := {
  data : nat;                  (* identity of the payload *)
  size : Z;
  pkt_pts : Z
}.

(** ** The decoder worker's frame entry point ([async.c]) *)

Module Decoder.

Inductive event :=
| Sent (f : AVFrame)           (* accepted by the frames queue *)
| Freed (f : AVFrame).         (* av_frame_free on a non-NULL frame *)

Record async_decoder := {
  st_timebase : AVRational;
  tmp_frame : option AVFrame;
  seek_request : Z;
  frames_queue : MQ.t AVFrame;
  trace : list event
}.

Definition with_tmp_frame (d : async_decoder) (t : option AVFrame) :=
  {| st_timebase := st_timebase d; tmp_frame := t;
     seek_request := seek_request d; frames_queue := frames_queue d;
     trace := trace d |}.

Definition with_seek_request (d : async_decoder) (s : Z) :=
  {| st_timebase := st_timebase d; tmp_frame := tmp_frame d;
     seek_request := s; frames_queue := frames_queue d;
     trace := trace d |}.

Definition with_frames_queue (d : async_decoder) (q : MQ.t AVFrame) :=
  {| st_timebase := st_timebase d; tmp_frame := tmp_frame d;
     seek_request := seek_request d; frames_queue := q;
     trace := trace d |}.

Definition log (d : async_decoder) (e : event) :=
  {| st_timebase := st_timebase d; tmp_frame := tmp_frame d;
     seek_request := seek_request d; frames_queue := frames_queue d;
     trace := trace d ++ [e] |}.

(** av_frame_free(&d->tmp_frame) *)
Definition free_tmp_frame (d : async_decoder) : async_decoder :=
  match tmp_frame d with
  | Some old => with_tmp_frame (log d (Freed old)) None
  | None => d
  end.

Fixpoint sent_frames (tr : list event) : list AVFrame :=
  match tr with
  | [] => []
  | Sent f :: tr' => f :: sent_frames tr'
  | Freed _ :: tr' => sent_frames tr'
  end.

Fixpoint freed_frames (tr : list event) : list AVFrame :=
  match tr with
  | [] => []
  | Freed f :: tr' => f :: freed_frames tr'
  | Sent _ :: tr' => freed_frames tr'
  end.

Definition cached_list (d : async_decoder) : list AVFrame :=
  match tmp_frame d with Some old => [old] | None => [] end.

Section WithRescale.

(** libavutil's av_rescale_q_rnd(a, bq, cq, rnd). *)
Variable av_rescale_q_rnd : Z -> AVRational -> AVRational -> Z -> Z.

(** The canonical timestamp of a frame as the decoder computes it. *)
Definition canonical_ts (d : async_decoder) (f : AVFrame) : Z :=
  av_rescale_q_rnd (get_best_effort_ts f) (st_timebase d) AV_TIME_BASE_Q 0.

Definition queue_frame (d : async_decoder) (frame : AVFrame)
  : outcome async_decoder Z :=
  match MQ.send (frames_queue d) frame with
  | MQ.SendOk q' => Ret 0 (log (with_frames_queue d q') (Sent frame))
  | MQ.SendErr ret =>
      if ret <? 0
      then Ret ret (with_frames_queue d (MQ.set_err_recv (frames_queue d) ret))
      else Ret ret d
  | MQ.SendWait => Park d
  end.

Definition queue_cached_frame (d : async_decoder) : outcome async_decoder Z :=
  match tmp_frame d with
  | None => Fault
  | Some prev_frame =>
      let cached_ts := canonical_ts d prev_frame in
      let d := with_tmp_frame d None in
      queue_frame d (set_pts prev_frame cached_ts)
  end.

Definition armed (d : async_decoder) : bool :=
  negb (seek_request d =? AV_NOPTS_VALUE).

Definition async_queue_frame (d : async_decoder) (frame : option AVFrame)
  : outcome async_decoder Z :=
  match frame with
  | None =>
      match tmp_frame d with
      | Some _ =>
          call (ret, d) <- queue_cached_frame d;
          if ret <? 0 then Ret ret d else Ret AVERROR_EOF d
      | None => Ret AVERROR_EOF d
      end
  | Some frame =>
      let ts := canonical_ts d frame in
      if armed d && (ts <? seek_request d) then
        let d := free_tmp_frame d in
        Ret 0 (with_tmp_frame d (Some frame))
      else
        let frame := set_pts frame ts in
        match tmp_frame d with
        | Some _ =>
            call (ret, d) <- queue_cached_frame d;
            if ret <? 0 then Ret ret d
            else queue_frame (with_seek_request d AV_NOPTS_VALUE) frame
        | None =>
            let frame :=
              if armed d && (0 <? seek_request d)
                 && (seek_request d <? pts frame)
              then set_pts frame (seek_request d)
              else frame in
            queue_frame (with_seek_request d AV_NOPTS_VALUE) frame
        end
  end.

(** *** Driving the decoder: callbacks of the codec and receives of the
    filter worker, in any interleaving. *)

Inductive action :=
| Callback (f : option AVFrame)   (* the codec calls async_queue_frame *)
| FilterRecv.                     (* the filter worker takes a frame *)

Definition filter_recv (d : async_decoder) : async_decoder :=
  match MQ.recv (frames_queue d) with
  | MQ.RecvOk _ q' => with_frames_queue d q'
  | _ => d
  end.

Definition exec (d : async_decoder) (a : action) : outcome async_decoder Z :=
  match a with
  | Callback f => async_queue_frame d f
  | FilterRecv => Ret 0 (filter_recv d)
  end.

(** Runs the actions in order; the return values are those the codec
    ignores or acts upon, the run stops where a call parks. *)
Fixpoint run (d : async_decoder) (acts : list action)
  : outcome async_decoder Z :=
  match acts with
  | [] => Ret 0 d
  | a :: rest =>
      match exec d a with
      | Ret _ d' => run d' rest
      | Park d' => Park d'
      | Fault => Fault
      end
  end.

(** The same state with an earlier history put in front of its trace. *)
Definition prepend (tr0 : list event) (d : async_decoder) : async_decoder :=
  {| st_timebase := st_timebase d; tmp_frame := tmp_frame d;
     seek_request := seek_request d; frames_queue := frames_queue d;
     trace := tr0 ++ trace d |}.

Definition clear_trace (d : async_decoder) : async_decoder :=
  {| st_timebase := st_timebase d; tmp_frame := tmp_frame d;
     seek_request := seek_request d; frames_queue := frames_queue d;
     trace := [] |}.

Definition map_state {S A} (g : S -> S) (o : outcome S A) : outcome S A :=
  match o with
  | Ret a s => Ret a (g s)
  | Park s => Park (g s)
  | Fault => Fault
  end.

(** *** What the first frame sent after a seek is

    [s] is the armed seek target and [tb] the stream time base. *)

Definition canon_tb (tb : AVRational) (f : AVFrame) : Z :=
  av_rescale_q_rnd (get_best_effort_ts f) tb AV_TIME_BASE_Q 0.

(** The frame kept its canonical timestamp, at or after the target. *)
Definition kept_ts (s : Z) (tb : AVRational) (f h : AVFrame) : Prop :=
  s <= canon_tb tb f /\ (s <= 0 \/ canon_tb tb f = s) /\
  h = set_pts f (canon_tb tb f).

(** The frame lay beyond a positive target and was retimed to it. *)
Definition clamped_ts (s : Z) (tb : AVRational) (f h : AVFrame) : Prop :=
  0 < s /\ s < canon_tb tb f /\ h = set_pts f s.

(** The frame lay before the target: it is a promoted skipped frame. *)
Definition promoted_ts (s : Z) (tb : AVRational) (f h : AVFrame) : Prop :=
  canon_tb tb f < s /\ h = set_pts f (canon_tb tb f).

(** The frames handed to [async_queue_frame] by a sequence of actions,
    and the number of receives it holds. *)
Fixpoint delivered (acts : list action) : list AVFrame :=
  match acts with
  | [] => []
  | Callback (Some f) :: rest => f :: delivered rest
  | _ :: rest => delivered rest
  end.

Fixpoint receives (acts : list action) : nat :=
  match acts with
  | [] => O
  | FilterRecv :: rest => S (receives rest)
  | _ :: rest => receives rest
  end.

(** [h] is the frame sent first when, since the seek, the frames
    [skipped] were delivered and the call [trig] follows. The frames of
    [skipped] all lie before the target. When there is none, [trig]
    brings a frame at or after the target and this frame is sent, retimed
    to the target when it lies beyond a positive one. Otherwise the last
    frame of [skipped], the cached one, is promoted, [trig] being a frame
    at or after the target or the NULL frame of a flush. *)
Definition first_sent_is (s : Z) (tb : AVRational) (skipped : list AVFrame)
  (trig : option AVFrame) (h : AVFrame) : Prop :=
  Forall (fun g => canon_tb tb g < s) skipped
  /\ match trig with
     | Some f => s <= canon_tb tb f
     | None => skipped <> []
     end
  /\ ((skipped = []
       /\ exists f, trig = Some f /\ (kept_ts s tb f h \/ clamped_ts s tb f h))
      \/ (exists earlier c,
            skipped = earlier ++ [c] /\ promoted_ts s tb c h)).

(** The worker holds the last of the frames [skipped], if any. *)
Definition holds_last (d : async_decoder) (skipped : list AVFrame) : Prop :=
  (skipped = [] /\ tmp_frame d = None)
  \/ exists earlier c, skipped = earlier ++ [c] /\ tmp_frame d = Some c.

(** The worker between two calls, armed at [s] and having sent nothing
    since: it was handed the frames [skipped], all before the target. *)
Definition awaiting (s : Z) (tb : AVRational) (skipped : list AVFrame)
  (d : async_decoder) : Prop :=
  st_timebase d = tb /\ seek_request d = s /\ s <> AV_NOPTS_VALUE
  /\ Forall (fun g => canon_tb tb g < s) skipped
  /\ holds_last d skipped.

(** *** The worker's handling of a Seek message ([decoder_thread])

    [decoder_flush] is the codec's: it calls back with the frames it still
    holds and, as [vtdec_flush] does, ends with a NULL frame. The filter
    worker is running meanwhile: [sched] lists the callbacks made by the
    codec and the receives made by the filter worker in the order they
    take place, and [late] is the number of receives made between the
    return of the flush and the emptying of the frames queue. The queue
    is then emptied (its frames released) and the target armed. *)

Definition flush_frames_queue (d : async_decoder) : async_decoder :=
  {| st_timebase := st_timebase d; tmp_frame := tmp_frame d;
     seek_request := seek_request d;
     frames_queue := MQ.flush (frames_queue d);
     trace := trace d ++ map Freed (MQ.fifo (frames_queue d)) |}.

Definition decoder_flush (d : async_decoder) (sched : list action)
  : outcome async_decoder Z :=
  run d (sched ++ [Callback None]).

Definition filter_recvs (n : nat) : list action := repeat FilterRecv n.

Definition decoder_thread_seek (d : async_decoder) (sched : list action)
  (late : nat) (seek_ts : Z) : outcome async_decoder Z :=
  call (_r, d) <- decoder_flush d sched;
  call (_s, d) <- run d (filter_recvs late);
  Ret 0 (with_seek_request (flush_frames_queue d) seek_ts).

Definition frame_callbacks (fs : list AVFrame) : list action :=
  map (fun f => Callback (Some f)) fs.

End WithRescale.

End Decoder.

(** ** Concrete data used to exercise the decoder model *)

Module DecoderExamples.

Import Decoder.

(** av_rescale_q_rnd with AV_ROUND_ZERO (rnd = 0), on in-range values:
    a * bq / cq rounded toward zero. *)
Definition rescale_zero (a : Z) (bq cq : AVRational) (_rnd : Z) : Z :=
  Z.quot (a * (num bq * den cq)) (den bq * num cq).

(** A frame stamped [t] microseconds. *)
Definition frame_at (t : Z) (id : nat) : AVFrame :=
  {| best_effort_timestamp := t; pts := t; buf := id |}.

(** A worker in its main loop: microsecond stream, nothing cached, no
    seek armed, an empty frames queue of the default capacity. *)
Definition idle : async_decoder :=
  {| st_timebase := AV_TIME_BASE_Q;
     tmp_frame := None;
     seek_request := AV_NOPTS_VALUE;
     frames_queue := MQ.alloc 3;
     trace := [] |}.

(** The same worker once a Seek to 5.0 s has been handled. *)
Definition armed_5s : async_decoder :=
  {| st_timebase := AV_TIME_BASE_Q;
     tmp_frame := None;
     seek_request := 5000000;
     frames_queue := MQ.alloc 3;
     trace := [] |}.

(** The same, the filter worker having closed the frames queue. *)
Definition armed_5s_closed : async_decoder :=
  {| st_timebase := AV_TIME_BASE_Q;
     tmp_frame := None;
     seek_request := 5000000;
     frames_queue := MQ.mk [] 3 AVERROR_EOF 0;
     trace := [] |}.

(** The same, holding a skipped frame of 3.0 s. *)
Definition armed_5s_cached : async_decoder :=
  {| st_timebase := AV_TIME_BASE_Q;
     tmp_frame := Some (frame_at 3000000 3);
     seek_request := 5000000;
     frames_queue := MQ.alloc 3;
     trace := [] |}.

(** A stream whose only keyframe is at t = 0, one frame every 2 s:
    after a seek the codec restarts from the keyframe. *)
Definition keyframe_at_zero : list action :=
  [ Callback (Some (frame_at 0 0));
    Callback (Some (frame_at 2000000 1));
    Callback (Some (frame_at 4000000 2));
    Callback (Some (frame_at 6000000 3));
    Callback None ].

(** A stream whose first decodable frame after the seek is at 6.0 s. *)
Definition keyframe_at_six : list action :=
  [ Callback (Some (frame_at 6000000 3));
    Callback (Some (frame_at 8000000 4)) ].

End DecoderExamples.

(** ** The VideoToolbox decoder: governor, reorder buffer, submission *)

Module VT.

(** *** Buffer-count governor *)

Record bufcount_context := {
  refcount : Z;   (* nb CVPixelBufferRef + 1 (the context owns a ref) *)
  refmax : Z      (* current maximum number of CVPixelBufferRef in the air *)
}.

(** The counters are C ints. [int_add] is the sum the machine stores, in
    two's complement; it is the mathematical sum as long as that sum is
    an int (signed overflow is undefined in C). *)
Definition INT_MIN : Z := - 2 ^ 31.
Definition INT_MAX : Z := 2 ^ 31 - 1.
Definition is_int (z : Z) : Prop := INT_MIN <= z <= INT_MAX.
Definition int_add (a b : Z) : Z := (a + b + 2 ^ 31) mod 2 ^ 32 - 2 ^ 31.

Definition bufcount_create : bufcount_context :=
  {| refcount := 1; refmax := 3 + 1 |}.

(** [b->refmax += n], the sum being written in [Z]: it is the int the
    code stores whenever it is in the range of int, where the addition
    of the code is defined; the same holds of [b->refcount += n]
    below. *)
Definition bufcount_update_max (b : bufcount_context) (n : Z)
  : bufcount_context :=
  {| refcount := refcount b; refmax := refmax b + n |}.

(** The end of [bufcount_update_ref], past the wait: the governor is
    destroyed (state [None]) when the count is zero. *)
Definition bufcount_settle (b : bufcount_context)
  : outcome (option bufcount_context) unit :=
  if refcount b =? 0 then Ret tt None else Ret tt (Some b).

(** For a non-NULL governor. [Park] is the caller inside
    pthread_cond_wait: the count is already updated and the mutex
    released. *)
Definition bufcount_update_ref (b : bufcount_context) (n : Z)
  : outcome (option bufcount_context) unit :=
  let b := {| refcount := refcount b + n; refmax := refmax b |} in
  if (0 <? n) && (refmax b <=? refcount b) then Park (Some b)
  else bufcount_settle b.

(** A parked caller woken by a signal: the loop condition is tested
    again on the counters as they are then. *)
Definition bufcount_update_ref_wake (b : bufcount_context)
  : outcome (option bufcount_context) unit :=
  if refmax b <=? refcount b then Park (Some b) else bufcount_settle b.

(** The governor and the callers parked in it, under any interleaving of
    operations issued by any thread. *)
Record governor := {
  counters : bufcount_context;
  parked : nat;          (* callers inside the wait of update_ref *)
  destroyed : bool
}.

Inductive gov_op :=
| UpdateMax (n : Z)
| UpdateRef (n : Z)
| Wake.                  (* one parked caller re-tests the condition *)

Definition gov_settled (g : governor)
  (o : outcome (option bufcount_context) unit) (was_parked : bool) : governor :=
  match o with
  | Ret _ (Some b) =>
      {| counters := b;
         parked := if was_parked then pred (parked g) else parked g;
         destroyed := false |}
  | Ret _ None =>
      {| counters := {| refcount := 0; refmax := refmax (counters g) |};
         parked := if was_parked then pred (parked g) else parked g;
         destroyed := true |}
  | Park (Some b) =>
      {| counters := b;
         parked := if was_parked then parked g else S (parked g);
         destroyed := false |}
  | _ => g
  end.

Definition gov_step (g : governor) (op : gov_op) : governor :=
  if destroyed g then g else
  match op with
  | UpdateMax n =>
      {| counters := bufcount_update_max (counters g) n;
         parked := parked g; destroyed := false |}
  | UpdateRef n => gov_settled g (bufcount_update_ref (counters g) n) false
  | Wake =>
      match parked g with
      | O => g
      | S _ => gov_settled g (bufcount_update_ref_wake (counters g)) true
      end
  end.

Definition gov_run (g : governor) (ops : list gov_op) : governor :=
  fold_left gov_step ops g.

Fixpoint sum_ref (ops : list gov_op) : Z :=
  match ops with
  | [] => 0
  | UpdateRef n :: ops' => n + sum_ref ops'
  | _ :: ops' => sum_ref ops'
  end.

Fixpoint sum_max (ops : list gov_op) : Z :=
  match ops with
  | [] => 0
  | UpdateMax n :: ops' => n + sum_max ops'
  | _ :: ops' => sum_max ops'
  end.

Definition gov_init : governor :=
  {| counters := bufcount_create; parked := 0; destroyed := false |}.

Definition delta (op : gov_op) : Z :=
  match op with
  | UpdateMax n | UpdateRef n => n
  | Wake => 0
  end.

(** A run in which every delta requested and every value taken by a
    counter is an int. *)
Fixpoint ints_only (g : governor) (ops : list gov_op) : Prop :=
  is_int (refcount (counters g)) /\ is_int (refmax (counters g)) /\
  match ops with
  | [] => True
  | op :: ops' => is_int (delta op) /\ ints_only (gov_step g op) ops'
  end.

(** *** Reorder buffer and decode callback *)

Record async_frame := {
  pts : Z;
  cv_buffer : nat
}.

(** What the environment answers to one [push_async_frame]. *)
Record push_env := {
  frame_alloc_ok : bool;         (* av_frame_alloc returned a frame *)
  buffer_create_ok : bool;       (* av_buffer_create returned a buffer *)
  queue_frame_ret : Z            (* what decoding_queue_frame returns *)
}.

Inductive event :=
| EvPush (f : async_frame)       (* decoding_queue_frame took the frame *)
| EvRefused (f : async_frame)    (* decoding_queue_frame refused the frame:
                                    it is freed, its pixel buffer released *)
| EvNoMem (f : async_frame)      (* no AVFrame or no AVBufferRef: the frame
                                    is not handed over *)
| EvUpdateMax (n : Z)            (* bufcount_update_max *)
| EvUpdateRef (n : Z)            (* bufcount_update_ref *)
| EvLock                         (* pthread_mutex_lock(&vt->lock) *)
| EvUnlock
| EvSignal                       (* pthread_cond_signal(&vt->cond) *)
| EvWait                         (* pthread_cond_wait(&vt->cond, &vt->lock) *)
| EvSetQueued (n : Z)            (* a store to vt->nb_queued *)
| EvDecodeFrame (pkt_pts : Z)    (* VTDecompressionSessionDecodeFrame *)
| EvFinishDelayedFrames
| EvWaitForAsynchronousFrames
| EvPushNull.                    (* decoding_queue_frame(ctx, NULL) *)

Record vtdec_context := {
  queue : list async_frame;      (* the linked list, head first *)
  nb_frames : Z;
  nb_queued : Z;
  bufcount : bufcount_context;
  events : list event
}.

Definition emit (vt : vtdec_context) (es : list event) : vtdec_context :=
  {| queue := queue vt; nb_frames := nb_frames vt; nb_queued := nb_queued vt;
     bufcount := bufcount vt; events := events vt ++ es |}.

Definition with_queue (vt : vtdec_context) (q : list async_frame) (nb : Z) :=
  {| queue := q; nb_frames := nb; nb_queued := nb_queued vt;
     bufcount := bufcount vt; events := events vt |}.

Definition with_bufcount (vt : vtdec_context) (b : bufcount_context) :=
  {| queue := queue vt; nb_frames := nb_frames vt; nb_queued := nb_queued vt;
     bufcount := b; events := events vt |}.

Definition update_max (vt : vtdec_context) (n : Z) : vtdec_context :=
  emit {| queue := queue vt; nb_frames := nb_frames vt;
          nb_queued := nb_queued vt;
          bufcount := bufcount_update_max (bufcount vt) n;
          events := events vt |} [EvUpdateMax n].

(** The frame is wrapped in an AVFrame whose buffer carries
    [buffer_release] as its release hook, and handed to the decoding
    queue. Without memory for the wrapper nothing is handed over and the
    pixel buffer stays retained. A frame the decoding queue refuses is
    freed on the spot, which runs [buffer_release]: the pixel buffer is
    released and the governor loses one reference; should that be the last
    one the governor is destroyed under the decoder, which goes on using
    it ([Fault]). The callers ignore the result. *)
Definition push_async_frame (vt : vtdec_context) (f : async_frame)
  (e : push_env) : outcome vtdec_context Z :=
  if negb (frame_alloc_ok e) then Ret (AVERROR ENOMEM) (emit vt [EvNoMem f])
  else if negb (buffer_create_ok e) then
    Ret (AVERROR ENOMEM) (emit vt [EvNoMem f])
  else
    let ret := queue_frame_ret e in
    if ret <? 0 then
      let vt := emit vt [EvRefused f; EvUpdateRef (-1)] in
      match bufcount_update_ref (bufcount vt) (-1) with
      | Ret _ (Some b) => Ret ret (with_bufcount vt b)
      | Park (Some b) => Park (with_bufcount vt b)
      | _ => Fault
      end
    else Ret ret (emit vt [EvPush f]).

Definition update_nb_queue (vt : vtdec_context) (diff : Z) : vtdec_context :=
  emit {| queue := queue vt; nb_frames := nb_frames vt;
          nb_queued := nb_queued vt + diff;
          bufcount := bufcount vt; events := events vt |}
       [EvLock; EvSetQueued (nb_queued vt + diff); EvSignal; EvUnlock].

(** The loop of [decode_callback]: [queue_walker] is the head of the
    list, [next] what follows it; [ans i] is the environment's answer to
    the push number [i] of this callback. *)
Fixpoint walk (vt : vtdec_context) (new_frame queue_walker : async_frame)
  (next : list async_frame) (ans : nat -> push_env) (i : nat)
  : outcome vtdec_context unit :=
  match next with
  | [] =>
      Ret tt
        (update_max
           (with_queue vt [queue_walker; new_frame] (nb_frames vt + 1)) 1)
  | next_frame :: after =>
      if pts new_frame <? pts next_frame then
        Ret tt
          (update_max
             (with_queue vt (queue_walker :: new_frame :: next_frame :: after)
                         (nb_frames vt + 1)) 1)
      else
        (* We passed a frame, which as a result becomes a valid frame to push *)
        call (_r, vt) <- push_async_frame vt queue_walker (ans i);
        let vt := with_queue vt (next_frame :: after) (nb_frames vt - 1) in
        let vt := update_max vt (-1) in
        walk vt new_frame next_frame after ans (S i)
  end.

(** The insertion part of [decode_callback] for a non-NULL image. *)
Definition reorder_insert (vt : vtdec_context) (new_frame : async_frame)
  (ans : nat -> push_env) : outcome vtdec_context unit :=
  match queue vt with
  | [] =>
      Ret tt (update_max (with_queue vt [new_frame] (nb_frames vt + 1)) 1)
  | queue_walker :: next =>
      if pts new_frame <? pts queue_walker then
        Ret tt
          (update_max
             (with_queue vt (new_frame :: queue_walker :: next)
                         (nb_frames vt + 1)) 1)
      else walk vt new_frame queue_walker next ans 0
  end.

(** [image] is [None] for a NULL image buffer. A count reaching zero in
    the final [bufcount_update_ref] would release the governor under the
    decoder, which still points to it ([Fault]); the context's own
    reference keeps the count positive until [vtdec_uninit]. *)
Definition decode_callback (vt : vtdec_context) (image : option nat) (ts : Z)
  (ans : nat -> push_env) : outcome vtdec_context unit :=
  match image with
  | None => Ret tt (update_nb_queue vt (-1))
  | Some buffer =>
      let new_frame := {| pts := ts; cv_buffer := buffer |} in
      call (_r, vt) <- reorder_insert vt new_frame ans;
      let vt := update_nb_queue vt (-1) in
      let vt := emit vt [EvUpdateRef 1] in
      match bufcount_update_ref (bufcount vt) 1 with
      | Ret _ (Some b) => Ret tt (with_bufcount vt b)
      | Park (Some b) => Park (with_bufcount vt b)
      | _ => Fault
      end
  end.

(** The loop of [process_queued_frames]. *)
Fixpoint drain (vt : vtdec_context) (q : list async_frame) (push : bool)
  (ans : nat -> push_env) (i : nat) : outcome vtdec_context unit :=
  match q with
  | [] => Ret tt vt
  | top_frame :: rest =>
      let vt := with_queue vt rest (nb_frames vt) in
      if push then
        call (_r, vt) <- push_async_frame vt top_frame (ans i);
        drain vt rest push ans (S i)
      else drain vt rest push ans i
  end.

(** [process_queued_frames], called with [push = 1] by [vtdec_flush] and
    with [push = 0] by [vtdec_uninit]. *)
Definition process_queued_frames (vt : vtdec_context) (push : bool)
  (ans : nat -> push_env) : outcome vtdec_context unit :=
  call (_r, vt) <- drain vt (queue vt) push ans 0;
  let vt := update_max vt (- nb_frames vt) in
  Ret tt (with_queue vt (queue vt) 0).

(** *** Packet submission *)

(** [sample_ok]: sample_buffer_create returned a buffer; [status]: what
    VTDecompressionSessionDecodeFrame returned. *)
Definition vtdec_push_packet (vt : vtdec_context) (pkt : AVPacket)
  (sample_ok : bool) (status : Z) : outcome vtdec_context Z :=
  if 3 <=? nb_queued vt then Park (emit vt [EvLock; EvWait])
  else
    let vt := emit vt [EvLock; EvUnlock] in
    if size pkt =? 0 then
      Ret AVERROR_EOF (emit vt [EvFinishDelayedFrames])
    else if negb sample_ok then Ret AVERROR_EXTERNAL vt
    else
      let vt := update_nb_queue vt 1 in
      let vt := emit vt [EvDecodeFrame (pkt_pts pkt)] in
      if negb (status =? 0) then
        let vt :=
          emit {| queue := queue vt; nb_frames := nb_frames vt;
                  nb_queued := 0;
                  bufcount := bufcount vt; events := events vt |}
               [EvLock; EvSetQueued 0; EvSignal; EvUnlock] in
        Ret AVERROR_EXTERNAL vt
      else Ret (size pkt) vt.

(** [vtdec_flush], for an open session. The result of the final
    decoding_queue_frame(ctx, NULL) is ignored. *)
Definition vtdec_flush (vt : vtdec_context) (ans : nat -> push_env)
  : outcome vtdec_context unit :=
  let vt := emit vt [EvFinishDelayedFrames; EvWaitForAsynchronousFrames] in
  if 0 <? nb_queued vt then Park (emit vt [EvLock; EvWait])
  else
    let vt := emit vt [EvLock; EvUnlock] in
    call (_r, vt) <- process_queued_frames vt true ans;
    Ret tt (emit vt [EvPushNull]).

(** *** Vocabulary of the reorder properties *)

Definition le_pts (a b : async_frame) : Prop := pts a <= pts b.

Definition not_after (x f : async_frame) : bool := pts f <=? pts x.
Definition after (x f : async_frame) : bool := pts x <? pts f.

(** The nodes not after the new frame, in a sorted list headed by one
    of them. *)
Definition passed (new walker : async_frame) (next : list async_frame) :=
  walker :: filter (not_after new) next.

(** The three fates of a frame handed to [push_async_frame]. *)
Definition dropped (e : push_env) : bool :=
  negb (frame_alloc_ok e && buffer_create_ok e).
Definition refused (e : push_env) : bool :=
  frame_alloc_ok e && buffer_create_ok e && (queue_frame_ret e <? 0).
Definition taken (e : push_env) : bool :=
  frame_alloc_ok e && buffer_create_ok e && (0 <=? queue_frame_ret e).

(** What pushing [f] under the answer [e] leaves in the trace. *)
Definition push_events (f : async_frame) (e : push_env) : list event :=
  if dropped e then [EvNoMem f]
  else if refused e then [EvRefused f; EvUpdateRef (-1)]
  else [EvPush f].

(** What pushing the frames [fs] in order leaves in the trace, the first
    of them under the answer number [i], each push being followed by the
    events [each]. *)
Fixpoint pushes (each : list event) (fs : list async_frame)
  (ans : nat -> push_env) (i : nat) : list event :=
  match fs with
  | [] => []
  | f :: fs' => push_events f (ans i) ++ each ++ pushes each fs' ans (S i)
  end.

(** The trace of frames flushed by the walk of [decode_callback]. *)
Definition flush_events := pushes [EvUpdateMax (-1)].

(** The number of refusals among the answers [i], ..., [i + n - 1]. *)
Fixpoint refusals (n : nat) (ans : nat -> push_env) (i : nat) : Z :=
  match n with
  | O => 0
  | S n' => (if refused (ans i) then 1 else 0) + refusals n' ans (S i)
  end.

(** The frames handed to [push_async_frame], and those of them the
    decoding queue took. *)
Definition submitted (es : list event) : list async_frame :=
  flat_map (fun e => match e with
                     | EvPush f | EvRefused f | EvNoMem f => [f]
                     | _ => []
                     end) es.

Definition pushed (es : list event) : list async_frame :=
  flat_map (fun e => match e with EvPush f => [f] | _ => [] end) es.

(** The pushes that failed: refused downstream, or without memory. *)
Fixpoint push_failures (es : list event) : nat :=
  match es with
  | [] => O
  | (EvRefused _ | EvNoMem _) :: es' => S (push_failures es')
  | _ :: es' => push_failures es'
  end.

Fixpoint count_decode (es : list event) : nat :=
  match es with
  | [] => O
  | EvDecodeFrame _ :: es' => S (count_decode es')
  | _ :: es' => count_decode es'
  end.

End VT.


(** ** Concrete data used to exercise the VideoToolbox model *)

Module VTExamples.

Import VT.

Definition fr (t : Z) : async_frame := {| pts := t; cv_buffer := Z.to_nat t |}.

(** A session with the given reorder buffer, no packet in flight and no
    buffer held downstream. *)
Definition session (q : list async_frame) : vtdec_context :=
  {| queue := q;
     nb_frames := Z.of_nat (length q);
     nb_queued := 0;
     bufcount := {| refcount := 1; refmax := 3 + 1 + Z.of_nat (length q) |};
     events := [] |}.


(** A decoding queue that takes every frame, one that refuses every
    frame (its send side is closed), and one that refuses the second
    frame only. *)
Definition take : push_env :=
  {| frame_alloc_ok := true; buffer_create_ok := true; queue_frame_ret := 0 |}.

Definition refuse : push_env :=
  {| frame_alloc_ok := true; buffer_create_ok := true;
     queue_frame_ret := AVERROR_EOF |}.

Definition all_taken (_ : nat) : push_env := take.

Definition all_refused (_ : nat) : push_env := refuse.

Definition second_refused (i : nat) : push_env :=
  match i with
  | 1%nat => refuse
  | _ => take
  end.

Definition packet (t : Z) : AVPacket :=
  {| data := Z.to_nat t; size := 1024; pkt_pts := t |}.

(** One packet submitted with success and its image delivered. *)
Definition decode_one (vt : vtdec_context) (t : Z)
  : outcome vtdec_context unit :=
  call (_r, vt) <- vtdec_push_packet vt (packet t) true 0;
  decode_callback vt (Some (Z.to_nat t)) t all_taken.

(** Four packets stamped 1, 2, 3, 4 decoded in order, then a flush; the
    decoding queue takes every frame and none of the frames pushed
    downstream is released meanwhile. *)
Definition four_frames_then_flush (vt : vtdec_context)
  : outcome vtdec_context unit :=
  call (_a, vt) <- decode_one vt 1;
  call (_b, vt) <- decode_one vt 2;
  call (_c, vt) <- decode_one vt 3;
  call (_d, vt) <- decode_one vt 4;
  vtdec_flush vt all_taken.

End VTExamples.


(** ** The reader worker and the packet queue ([async.c]) *)

Module Reader.

Inductive message :=
| MsgPacket (pkt : AVPacket)
| MsgSeek (ts : Z).

Definition is_seek (m : message) : bool :=
  match m with MsgSeek _ => true | MsgPacket _ => false end.

Definition is_packet (m : message) : Prop :=
  match m with MsgPacket _ => True | MsgSeek _ => False end.

Definition count_seeks (l : list message) : nat :=
  length (filter is_seek l).

(** [alloc_ok]: av_malloc returned a block for the target. *)
Definition push_seek_message (q : MQ.t message) (ts : Z) (alloc_ok : bool)
  : outcome (MQ.t message) Z :=
  if negb alloc_ok then Ret (AVERROR ENOMEM) q
  else
    (* flush the queue so the seek message is processed ASAP *)
    let q := MQ.flush q in
    match MQ.send q (MsgSeek ts) with
    | MQ.SendOk q' => Ret 0 q'
    | MQ.SendErr ret =>
        if ret <? 0 then Ret ret (MQ.set_err_recv q ret) else Ret ret q
    | MQ.SendWait => Park q
    end.

(** *** The packet queue between its two users

    The reader is its only producer: it flushes and sends a Seek (the two
    critical sections of [push_seek_message], with the decoder free to
    run in between), sends packets, and sets the receive latch. The
    decoder worker receives and sets the send latch. *)

Record pq_state := {
  pq : MQ.t message;
  in_push_seek : option Z   (* the reader is between the flush and the send *)
}.

Inductive pq_step : pq_state -> pq_state -> Prop :=
| reader_flush q ts :
    pq_step {| pq := q; in_push_seek := None |}
            {| pq := MQ.flush q; in_push_seek := Some ts |}
| reader_send_seek q ts q' :
    MQ.send q (MsgSeek ts) = MQ.SendOk q' ->
    pq_step {| pq := q; in_push_seek := Some ts |}
            {| pq := q'; in_push_seek := None |}
| reader_send_seek_failed q ts e :
    MQ.send q (MsgSeek ts) = MQ.SendErr e ->
    pq_step {| pq := q; in_push_seek := Some ts |}
            {| pq := if e <? 0 then MQ.set_err_recv q e else q;
               in_push_seek := None |}
| reader_send_packet q pkt q' :
    MQ.send q (MsgPacket pkt) = MQ.SendOk q' ->
    pq_step {| pq := q; in_push_seek := None |}
            {| pq := q'; in_push_seek := None |}
| reader_set_err_recv q e :
    pq_step {| pq := q; in_push_seek := None |}
            {| pq := MQ.set_err_recv q e; in_push_seek := None |}
| decoder_recv q m q' st :
    MQ.recv q = MQ.RecvOk m q' ->
    pq_step {| pq := q; in_push_seek := st |}
            {| pq := q'; in_push_seek := st |}
| decoder_set_err_send q e st :
    pq_step {| pq := q; in_push_seek := st |}
            {| pq := MQ.set_err_send q e; in_push_seek := st |}.

Inductive pq_reachable (n : nat) : pq_state -> Prop :=
| pq_start : pq_reachable n {| pq := MQ.alloc n; in_push_seek := None |}
| pq_next s s' : pq_reachable n s -> pq_step s s' -> pq_reachable n s'.

(** Only the head of the queue may be a Seek. *)
Definition seek_only_at_head (l : list message) : Prop :=
  match l with
  | [] => True
  | _ :: rest => Forall is_packet rest
  end.

Definition pq_inv (s : pq_state) : Prop :=
  seek_only_at_head (MQ.fifo (pq s))
  /\ (in_push_seek s <> None -> MQ.fifo (pq s) = []).

(** *** The reader loop *)

Inductive event :=
| EvSent (m : message)      (* accepted by the packet queue *)
| EvSeekCb (ts : Z)         (* r->seek_cb invoked *)
| EvPull                    (* r->pull_packet_cb invoked *)
| EvSleep.                  (* av_usleep after EAGAIN *)

Inductive ctl :=
| Continue
| Break (ret : Z).

(** What the platform answers during one iteration. *)
Record env := {
  lock_ret : Z;               (* pthread_mutex_lock *)
  unlock_ret : Z;             (* pthread_mutex_unlock *)
  seek_alloc_ok : bool;       (* av_malloc in push_seek_message *)
  pkt_alloc_ok : bool         (* av_memdup of the packet *)
}.

Section WithSource.

Variable Src : Type.
Variable seek_cb : Src -> Z -> Z * Src.
Variable pull_packet_cb : Src -> Z * AVPacket * Src.

Record async_reader := {
  request_seek : Z;
  pkt_queue : MQ.t message;
  priv_data : Src;
  rtrace : list event
}.

Definition with_request_seek (r : async_reader) (ts : Z) :=
  {| request_seek := ts; pkt_queue := pkt_queue r;
     priv_data := priv_data r; rtrace := rtrace r |}.

Definition with_pkt_queue (r : async_reader) (q : MQ.t message) :=
  {| request_seek := request_seek r; pkt_queue := q;
     priv_data := priv_data r; rtrace := rtrace r |}.

Definition with_priv_data (r : async_reader) (s : Src) :=
  {| request_seek := request_seek r; pkt_queue := pkt_queue r;
     priv_data := s; rtrace := rtrace r |}.

Definition log (r : async_reader) (e : event) :=
  {| request_seek := request_seek r; pkt_queue := pkt_queue r;
     priv_data := priv_data r; rtrace := rtrace r ++ [e] |}.

(** push_seek_message(d->pkt_queue, seek_to), the Seek being recorded
    when the queue took it (the call returns 0 in that case only). *)
Definition forward_seek (r : async_reader) (seek_to : Z) (alloc_ok : bool)
  : outcome async_reader Z :=
  match push_seek_message (pkt_queue r) seek_to alloc_ok with
  | Ret ret q' =>
      let r := with_pkt_queue r q' in
      Ret ret (if ret =? 0 then log r (EvSent (MsgSeek seek_to)) else r)
  | Park q' => Park (with_pkt_queue r q')
  | Fault => Fault
  end.

(** The part of an iteration run when a seek is pending. *)
Definition seek_phase (r : async_reader) (seek_to : Z) (alloc_ok : bool)
  : outcome async_reader ctl :=
  call (ret, r) <- forward_seek r seek_to alloc_ok;
  if ret <? 0 then Ret (Break ret) r
  else
    let (ret, s) := seek_cb (priv_data r) seek_to in
    let r := log (with_priv_data r s) (EvSeekCb seek_to) in
    if ret <? 0 then Ret (Break ret) r else Ret Continue r.

(** The rest of the iteration: pull a packet and send it. *)
Definition pull_phase (r : async_reader) (alloc_ok : bool)
  : outcome async_reader ctl :=
  let '(ret, pkt, s) := pull_packet_cb (priv_data r) in
  let r := log (with_priv_data r s) EvPull in
  if ret =? AVERROR EAGAIN then Ret Continue (log r EvSleep)
  else if ret <? 0 then Ret (Break ret) r
  else if negb alloc_ok then Ret (Break ret) r
  else
    match MQ.send (pkt_queue r) (MsgPacket pkt) with
    | MQ.SendOk q' =>
        Ret Continue (log (with_pkt_queue r q') (EvSent (MsgPacket pkt)))
    | MQ.SendErr ret =>
        if ret <? 0
        then Ret (Break ret)
                 (with_pkt_queue r (MQ.set_err_recv (pkt_queue r) ret))
        else Ret Continue r
    | MQ.SendWait => Park r
    end.

(** One turn of the [while (1)] loop of [reader_thread]. *)
Definition reader_iteration (r : async_reader) (e : env)
  : outcome async_reader ctl :=
  (* get seek value and reset request *)
  let ret := AVERROR (lock_ret e) in
  if ret <? 0 then Ret (Break ret) r
  else
    let seek_to := request_seek r in
    let r := with_request_seek r (-1) in
    let ret := AVERROR (unlock_ret e) in
    if ret <? 0 then Ret (Break ret) r
    else
      call (c, r) <-
        (if 0 <=? seek_to then seek_phase r seek_to (seek_alloc_ok e)
         else Ret Continue r);
      match c with
      | Break ret => Ret (Break ret) r
      | Continue => pull_phase r (pkt_alloc_ok e)
      end.

(** [a] occurs in [l] strictly before [b]. *)
Definition occurs_before (a b : event) (l : list event) : Prop :=
  exists l1 l2 l3, l = l1 ++ a :: l2 ++ b :: l3.

Definition seek_or_pull (e : event) : bool :=
  match e with
  | EvSeekCb _ | EvPull | EvSent (MsgSeek _) => true
  | _ => false
  end.

End WithSource.

End Reader.

(** ** The controller ([async.c]) *)

Module Controller.

Record async_context := {
  started : Z;                        (* reader.started *)
  request_seek : Z;                   (* reader.request_seek *)
  reader_thread : bool;               (* a reader thread is to be joined *)
  sink_queue : option (MQ.t AVFrame)  (* None: NULL *)
}.

(** What the platform answers to [async_start]. *)
Record env := {
  queue_alloc_ret : Z;      (* av_thread_message_queue_alloc *)
  create_ret : Z;           (* pthread_create *)
  lock_ret : Z;             (* pthread_mutex_lock *)
  unlock_ret : Z            (* pthread_mutex_unlock *)
}.

Definition with_sink_queue (a : async_context) (q : option (MQ.t AVFrame)) :=
  {| started := started a; request_seek := request_seek a;
     reader_thread := reader_thread a; sink_queue := q |}.

Definition async_reader_seek (a : async_context) (ts : Z) (e : env)
  : Z * async_context :=
  let ret := AVERROR (lock_ret e) in
  if ret <? 0 then (ret, a)
  else
    let a := {| started := started a; request_seek := ts;
                reader_thread := reader_thread a;
                sink_queue := sink_queue a |} in
    let ret := AVERROR (unlock_ret e) in
    if ret <? 0 then (ret, a) else (0, a).

Definition reset_reader (a : async_context) : async_context :=
  {| started := 0; request_seek := -1;
     reader_thread := reader_thread a; sink_queue := sink_queue a |}.

(** The state of the result is [None] once the context itself has been
    released (av_freep(&actx) on the allocation failure). *)
Definition async_start (a : async_context) (skip : Z) (e : env)
  : outcome (option async_context) Z :=
  if negb (started a =? 0) then Ret 0 (Some a)
  else
    let ret := queue_alloc_ret e in
    if ret <? 0 then Ret ret None
    else
      let a := with_sink_queue a (Some (MQ.alloc 3)) in
      let a := if negb (skip =? 0) then snd (async_reader_seek a skip e) else a in
      let ret := create_ret e in
      if negb (ret =? 0) then Ret (AVERROR ret) (Some a)
      else
        Ret 0 (Some {| started := 1; request_seek := request_seek a;
                       reader_thread := true; sink_queue := sink_queue a |}).

(** [joined]: the reader thread has come to its end, so that
    pthread_join returns. Until it has, the caller is suspended in the
    join ([Park]), the context being as the call found it. *)
Definition async_wait (a : async_context) (joined : bool)
  : outcome (option async_context) Z :=
  if negb (started a =? 0) then
    if joined then
      let a :=
        reset_reader {| started := 0; request_seek := request_seek a;
                        reader_thread := false; sink_queue := sink_queue a |} in
      Ret 0 (Some (with_sink_queue a None))
    else Park (Some a)
  else Ret 0 (Some (with_sink_queue a None)).

Definition async_stop (actx : option async_context) (joined : bool)
  : outcome (option async_context) Z :=
  match actx with
  | None => Ret 0 None
  | Some a =>
      if started a =? 0 then Ret 0 (Some a)
      else
        match sink_queue a with
        | None => Fault
        | Some q =>
            (* tell the filtering to stop queuing frames *)
            let q := MQ.set_err_send q AVERROR_EOF in
            (* empty the remaining frames *)
            let q := MQ.flush q in
            (* We now wait for everything to stop *)
            async_wait (with_sink_queue a (Some q)) joined
        end
  end.

(** A non-negative error from the receive leaves [frame] unset: the
    pointer returned is indeterminate ([Fault]). *)
Definition async_pop_frame (a : async_context)
  : outcome async_context (option AVFrame) :=
  match sink_queue a with
  | None => Fault
  | Some q =>
      match MQ.recv q with
      | MQ.RecvOk frame q' => Ret (Some frame) (with_sink_queue a (Some q'))
      | MQ.RecvErr ret =>
          if ret <? 0
          then Ret None (with_sink_queue a (Some (MQ.set_err_send q ret)))
          else Fault
      | MQ.RecvWait => Park a
      end
  end.

(** What the users of the sink queue may do to it afterwards, short of
    installing another send latch. *)
Inductive qop :=
| QSend (f : AVFrame)
| QRecv
| QFlush
| QSetErrRecv (e : Z).

Definition apply_qop (q : MQ.t AVFrame) (op : qop) : MQ.t AVFrame :=
  match op with
  | QSend f => match MQ.send q f with MQ.SendOk q' => q' | _ => q end
  | QRecv => match MQ.recv q with MQ.RecvOk _ q' => q' | _ => q end
  | QFlush => MQ.flush q
  | QSetErrRecv e => MQ.set_err_recv q e
  end.

Definition apply_qops (q : MQ.t AVFrame) (ops : list qop) : MQ.t AVFrame :=
  fold_left apply_qop ops q.

End Controller.


(** ** Concrete data used to exercise the reader and controller models *)

Module ReaderExamples.

Import Reader.

(** A source that is a position in microseconds: a seek moves to the
    target, a pull yields a packet stamped with the position and
    advances by one frame of 40 ms. *)
Definition seek_to_target (pos : Z) (ts : Z) : Z * Z := (0, ts).

Definition pull_at (pos : Z) : Z * AVPacket * Z :=
  (0, {| data := Z.to_nat pos; size := 1024; pkt_pts := pos |}, pos + 40000).

(** A reader with a seek to 5.0 s pending and an empty packet queue of
    the default capacity. *)
Definition seek_pending : async_reader Z :=
  {| request_seek := 5000000;
     pkt_queue := MQ.alloc 5;
     priv_data := 0;
     rtrace := [] |}.

Definition calm : env :=
  {| lock_ret := 0; unlock_ret := 0;
     seek_alloc_ok := true; pkt_alloc_ok := true |}.

(** The packet queue after a successful [push_seek_message] to 7.0 s. *)
Definition seek_queued : pq_state :=
  {| pq := MQ.mk [MsgSeek 7000000] 5 0 0; in_push_seek := None |}.

End ReaderExamples.

Module ControllerExamples.

Import Controller.

Definition fresh : async_context :=
  {| started := 0; request_seek := -1;
     reader_thread := false; sink_queue := None |}.


Definition fine : env :=
  {| queue_alloc_ret := 0; create_ret := 0; lock_ret := 0; unlock_ret := 0 |}.

(** A running context whose sink was closed by the filter worker: empty,
    with the receive latch at EOF. *)
Definition drained : async_context :=
  {| started := 1; request_seek := -1;
     reader_thread := true;
     sink_queue := Some (MQ.mk [] 3 0 AVERROR_EOF) |}.

End ControllerExamples.


(** ** The client's get-frame adapter *)

Module Client.

Import Controller.



Section WithWorkers.

(** Modelled from the spec: what stands behind the sink (sections 4.5 to
    4.7; the demuxer, the codec and the filter graph are not part of the
    sources). [output s] lists the frames that the reader, decoder and
    filter workers deliver to the sink, in order, once a seek to [s] has
    been requested; the filter worker then closes the sink at EOF. *)
Variable output : Z -> list AVFrame.

(** Modelled from the spec: the option dist_time_seek_trigger of section
    6, in microseconds. *)
Variable dist_time_seek_trigger : Z.







End WithWorkers.




End Client.


(** ** Further vocabulary and data for the decoder worker *)

Module DecoderMore.

Import Decoder.

(** From [d] to [d'] the frames queue only grew, by the frames recorded
    as sent in between. *)
Definition grows (d d' : async_decoder) : Prop :=
  exists new,
    sent_frames (trace d') = sent_frames (trace d) ++ new
    /\ MQ.fifo (frames_queue d') = MQ.fifo (frames_queue d) ++ new.

(** A worker armed at 5.0 s that holds a skipped frame of 3.0 s, the
    filter worker having closed the frames queue. *)
Definition armed_5s_cached_closed : async_decoder :=
  {| st_timebase := AV_TIME_BASE_Q;
     tmp_frame := Some (DecoderExamples.frame_at 3000000 3);
     seek_request := 5000000;
     frames_queue := MQ.mk [] 3 AVERROR_EOF 0;
     trace := [] |}.

(** A worker in its main loop with one frame waiting in the frames
    queue. *)
Definition idle_one_pending : async_decoder :=
  {| st_timebase := AV_TIME_BASE_Q;
     tmp_frame := None;
     seek_request := AV_NOPTS_VALUE;
     frames_queue := MQ.mk [DecoderExamples.frame_at 1000000 1] 3 0 0;
     trace := [] |}.

(** From [d] to [d'], frames were sent and the filter worker took at
    most [n] frames from the head of the frames queue: [new] is what was
    sent, [taken] what was received. *)
Definition flows (n : nat) (d d' : async_decoder) : Prop :=
  exists new taken,
    sent_frames (trace d') = sent_frames (trace d) ++ new
    /\ MQ.fifo (frames_queue d) ++ new = taken ++ MQ.fifo (frames_queue d')
    /\ (length taken <= n)%nat.

(** A worker in its main loop whose frames queue is full. *)
Definition idle_full : async_decoder :=
  {| st_timebase := AV_TIME_BASE_Q;
     tmp_frame := None;
     seek_request := AV_NOPTS_VALUE;
     frames_queue :=
       MQ.mk [DecoderExamples.frame_at 1000000 1;
              DecoderExamples.frame_at 1040000 2;
              DecoderExamples.frame_at 1080000 3] 3 0 0;
     trace := [] |}.

(** The codec flushes one frame out while the filter worker receives
    one. *)
Definition flush_one_while_filtering : list action :=
  [FilterRecv; Callback (Some (DecoderExamples.frame_at 1120000 4))].

(** The worker armed at 5.0 s by the seek handled in [idle_full] under
    that schedule. *)
Definition armed_5s_after_flush : async_decoder :=
  {| st_timebase := AV_TIME_BASE_Q;
     tmp_frame := None;
     seek_request := 5000000;
     frames_queue := MQ.alloc 3;
     trace := [Sent (DecoderExamples.frame_at 1120000 4);
               Freed (DecoderExamples.frame_at 1040000 2);
               Freed (DecoderExamples.frame_at 1080000 3);
               Freed (DecoderExamples.frame_at 1120000 4)] |}.

End DecoderMore.


(** ** Further functions of the VideoToolbox decoder *)

Module VTMore.

Import VT.



Definition send_queued_frames (vt : vtdec_context) (ans : nat -> push_env)
  : outcome vtdec_context unit :=
  process_queued_frames vt true ans.


(** Decode callbacks fired one after the other, each with its image
    (None for a NULL buffer), its timestamp and the answers the
    environment gives to the pushes it makes. *)
Fixpoint deliver (vt : vtdec_context)
  (imgs : list (option nat * Z * (nat -> push_env)))
  : outcome vtdec_context unit :=
  match imgs with
  | [] => Ret tt vt
  | (image, ts, ans) :: rest =>
      call (_r, vt) <- decode_callback vt image ts ans;
      deliver vt rest
  end.

(** The frames the callbacks wrap for the images they are given. *)
Fixpoint frames_of (imgs : list (option nat * Z * (nat -> push_env)))
  : list async_frame :=
  match imgs with
  | [] => []
  | (Some buffer, ts, _) :: rest =>
      {| pts := ts; cv_buffer := buffer |} :: frames_of rest
  | (None, _, _) :: rest => frames_of rest
  end.

(** What the decoder worker and the platform do to a session. *)
Inductive vt_op :=
| OpPush (pkt : AVPacket) (sample_ok : bool) (status : Z)
| OpCallback (image : option nat) (ts : Z) (ans : nat -> push_env)
| OpFlush (ans : nat -> push_env).

Definition vt_exec (vt : vtdec_context) (op : vt_op)
  : outcome vtdec_context unit :=
  match op with
  | OpPush pkt sample_ok status =>
      call (_r, vt) <- vtdec_push_packet vt pkt sample_ok status; Ret tt vt
  | OpCallback image ts ans => decode_callback vt image ts ans
  | OpFlush ans => vtdec_flush vt ans
  end.

Fixpoint vt_run (vt : vtdec_context) (ops : list vt_op)
  : outcome vtdec_context unit :=
  match ops with
  | [] => Ret tt vt
  | op :: rest => call (_r, vt) <- vt_exec vt op; vt_run vt rest
  end.

(** The counters follow the reorder buffer: [nb_frames] is its length and
    [refmax] stands [base] above it. *)
Definition counters_in_step (base : Z) (vt : vtdec_context) : Prop :=
  nb_frames vt = Z.of_nat (length (queue vt))
  /\ refmax (bufcount vt) = base + nb_frames vt.

(** A session whose context holds the only reference left, [k] buffers
    apart. *)
Definition holding (k : nat) : governor :=
  {| counters := {| refcount := 1 + Z.of_nat k; refmax := 3 + 1 |};
     parked := 0; destroyed := false |}.

Definition releases (j : nat) : list gov_op := repeat (UpdateRef (-1)) j.

End VTMore.


(** ** Counting what a session was asked to do *)

Module VTCount.

Import VT VTMore.

(** A push that reaches the platform decoder: non-empty packet, sample
    buffer created. *)
Definition submits (op : vt_op) : bool :=
  match op with
  | OpPush pkt sample_ok _ => negb (size pkt =? 0) && sample_ok
  | _ => false
  end.

Definition is_callback (op : vt_op) : bool :=
  match op with OpCallback _ _ _ => true | _ => false end.

(** No submission is refused by the platform. *)
Definition accepted (op : vt_op) : Prop :=
  match op with
  | OpPush _ _ status => status = 0
  | _ => True
  end.

Definition submissions (ops : list vt_op) : nat := length (filter submits ops).
Definition callbacks (ops : list vt_op) : nat := length (filter is_callback ops).

(** The buffer after images stamped 3, 1, 2 were decoded in that order. *)
Definition delivered_312 : vtdec_context :=
  Eval vm_compute in
    match deliver (VTExamples.session [])
            [(Some 3%nat, 3, VTExamples.all_taken);
             (Some 1%nat, 1, VTExamples.all_taken);
             (Some 2%nat, 2, VTExamples.all_taken)] with
    | Ret _ vt => vt
    | _ => VTExamples.session []
    end.

(** Images stamped 3, 1, 2, 4 decoded in that order; the second frame
    pushed downstream is refused. *)
Definition images_3124 : list (option nat * Z * (nat -> push_env)) :=
  [ (Some 3%nat, 3, VTExamples.all_taken);
    (Some 1%nat, 1, VTExamples.all_taken);
    (Some 2%nat, 2, VTExamples.all_taken);
    (Some 4%nat, 4, VTExamples.second_refused) ].

Definition delivered_3124 : vtdec_context :=
  Eval vm_compute in
    match deliver (VTExamples.session []) images_3124 with
    | Ret _ vt => vt
    | _ => VTExamples.session []
    end.

Definition flushed_3124 : vtdec_context :=
  Eval vm_compute in
    match vtdec_flush delivered_3124 VTExamples.second_refused with
    | Ret _ vt => vt
    | _ => delivered_3124
    end.

(** Two packets submitted, one image delivered, a third packet. *)
Definition busy_session : list vt_op :=
  [ OpPush (VTExamples.packet 1) true 0;
    OpPush (VTExamples.packet 2) true 0;
    OpCallback (Some 1%nat) 1 VTExamples.all_taken;
    OpPush (VTExamples.packet 3) true 0 ].

Definition busy_session_end : vtdec_context :=
  Eval vm_compute in
    match vt_run (VTExamples.session []) busy_session with
    | Ret _ vt => vt
    | _ => VTExamples.session []
    end.

End VTCount.


(** ** Further functions of the reader worker *)

Module ReaderMore.

Import Reader.

(** An event of the seek protocol: the Seek message or the source seek. *)
Definition about_seek (e : event) : bool :=
  match e with
  | EvSeekCb _ | EvSent (MsgSeek _) => true
  | _ => false
  end.

Definition is_sent (e : event) : bool :=
  match e with EvSent _ => true | _ => false end.

(** The end of [reader_thread], reached with the last [ret] of the loop:
    the decoder is notified through the receive latch of the packet
    queue. *)
Definition reader_end {Src : Type} (r : async_reader Src) (ret : Z)
  : async_reader Src :=
  with_pkt_queue r
    (MQ.set_err_recv (pkt_queue r) (if ret <? 0 then ret else AVERROR_EOF)).

(** A packet queue holding two packets, the decoder still receiving. *)
Definition two_packets : MQ.t message :=
  MQ.mk [MsgPacket {| data := 1; size := 10; pkt_pts := 0 |};
         MsgPacket {| data := 2; size := 10; pkt_pts := 40000 |}] 5 0 0.

(** A reader with a seek pending whose decoder has gone, leaving its
    error on the send side of the packet queue. *)
Definition seek_pending_decoder_gone : async_reader Z :=
  {| request_seek := 5000000;
     pkt_queue := MQ.mk [] 5 AVERROR_EXTERNAL 0;
     priv_data := 0;
     rtrace := [] |}.

(** [n] turns of the [while (1)] loop of [reader_thread]: [Some ret] when
    a turn left the loop with [ret], [None] when the loop is still
    turning. *)
Fixpoint reader_turns {Src : Type} (seek_cb : Src -> Z -> Z * Src)
    (pull_packet_cb : Src -> Z * AVPacket * Src)
    (n : nat) (r : async_reader Src) (e : env)
  : outcome (async_reader Src) (option Z) :=
  match n with
  | O => Ret None r
  | S n' =>
      call (c, r) <- reader_iteration seek_cb pull_packet_cb r e;
      match c with
      | Break ret => Ret (Some ret) r
      | Continue => reader_turns seek_cb pull_packet_cb n' r e
      end
  end.

(** A source that has nothing to give yet. *)
Definition pull_again (pos : Z) : Z * AVPacket * Z :=
  (AVERROR EAGAIN, {| data := 0; size := 0; pkt_pts := 0 |}, pos).

(** A reader with no seek pending whose packet queue is closed both
    ways. *)
Definition reader_cut_off : async_reader Z :=
  {| request_seek := -1;
     pkt_queue := MQ.mk [] 5 AVERROR_EOF AVERROR_EOF;
     priv_data := 0;
     rtrace := [] |}.

End ReaderMore.


(** ** Two iterations of the example reader *)

Module ReaderRuns.

Import Reader ReaderExamples.

(** A source that yields one packet per pull, stamped with its position,
    and advances by one frame of 40 ms. *)
Definition pull_next (pos : Z) : Z * AVPacket * Z :=
  (0, {| data := 0; size := 1024; pkt_pts := pos |}, pos + 40000).

Definition after_one : async_reader Z :=
  Eval vm_compute in
    match reached (reader_iteration seek_to_target pull_next seek_pending calm) with
    | Some r => r
    | None => seek_pending
    end.

Definition after_two : async_reader Z :=
  Eval vm_compute in
    match reached (reader_iteration seek_to_target pull_next after_one calm) with
    | Some r => r
    | None => after_one
    end.

End ReaderRuns.


(** * Properties *)

Unset Implicit Arguments.

(** The outcome of an integer test that arithmetic decides. *)
Ltac holds t :=
  replace t with true
    by (symmetry; first [apply Z.ltb_lt | apply Z.leb_le | apply Z.eqb_eq]; lia).
Ltac fails t :=
  replace t with false
    by (symmetry; first [apply Z.ltb_ge | apply Z.leb_gt | apply Z.eqb_neq]; lia).


(** ** The message queue *)

Section QueueFacts.

Lemma send_ok_fifo {A} (q q' : MQ.t A) m :
  MQ.send q m = MQ.SendOk q' -> MQ.fifo q' = MQ.fifo q ++ [m].
Proof.
  unfold MQ.send.
  destruct (negb (MQ.err_send q =? 0)); [discriminate|].
  destruct (length (MQ.fifo q) <? MQ.nb_elems q)%nat; [|discriminate].
  intros [= <-]. reflexivity.
Qed.

Lemma recv_ok_fifo {A} (q q' : MQ.t A) m :
  MQ.recv q = MQ.RecvOk m q' -> MQ.fifo q = m :: MQ.fifo q'.
Proof.
  unfold MQ.recv. destruct (MQ.fifo q) as [|x rest] eqn:E.
  - destruct (negb (MQ.err_recv q =? 0)); discriminate.
  - intros [= <- <-]. reflexivity.
Qed.

End QueueFacts.


Import Decoder.

Section DecoderFacts.

Variable rescale : Z -> AVRational -> AVRational -> Z -> Z.

Local Notation "'canon'" := (canonical_ts rescale).
Local Notation "'aqf'" := (async_queue_frame rescale).

Lemma armed_true d : armed d = true <-> seek_request d <> AV_NOPTS_VALUE.
Proof.
  unfold armed. rewrite negb_true_iff, Z.eqb_neq. tauto.
Qed.

Lemma skip_call d f :
  seek_request d <> AV_NOPTS_VALUE ->
  canon d f < seek_request d ->
  aqf d (Some f) =
  Ret 0 {| st_timebase := st_timebase d;
           tmp_frame := Some f;
           seek_request := seek_request d;
           frames_queue := frames_queue d;
           trace := trace d ++ map Freed (cached_list d) |}.
Proof.
  intros Harm Hlt.
  unfold async_queue_frame.
  apply armed_true in Harm. rewrite Harm.
  apply Z.ltb_lt in Hlt. rewrite Hlt. simpl.
  unfold free_tmp_frame, cached_list.
  destruct d as [tb [old|] sr fq tr]; simpl.
  - reflexivity.
  - rewrite app_nil_r. reflexivity.
Qed.

Lemma skip_run fs : forall d f,
  seek_request d <> AV_NOPTS_VALUE ->
  Forall (fun g => canon d g < seek_request d) (fs ++ [f]) ->
  run rescale d (frame_callbacks (fs ++ [f])) =
  Ret 0 {| st_timebase := st_timebase d;
           tmp_frame := Some f;
           seek_request := seek_request d;
           frames_queue := frames_queue d;
           trace := trace d ++ map Freed (cached_list d ++ fs) |}.
Proof.
  induction fs as [|g fs IH]; intros d f Harm Hall.
  - inversion Hall; subst.
    cbn [frame_callbacks app map run exec].
    rewrite skip_call by assumption. rewrite app_nil_r. reflexivity.
  - simpl in Hall. inversion Hall as [|? ? Hg Hrest]; subst.
    cbn [frame_callbacks app map run exec].
    rewrite skip_call by assumption.
    fold (frame_callbacks (fs ++ [f])).
    rewrite IH; simpl; try assumption.
    rewrite map_app, app_assoc. reflexivity.
Qed.

Lemma sent_frames_app tr1 tr2 :
  sent_frames (tr1 ++ tr2) = sent_frames tr1 ++ sent_frames tr2.
Proof.
  induction tr1 as [|[f|f] tr1 IH]; simpl; [reflexivity | f_equal; exact IH | exact IH].
Qed.

Lemma canonical_ts_tb d f : canon d f = canon_tb rescale (st_timebase d) f.
Proof. reflexivity. Qed.

Local Notation "'sent' d" := (sent_frames (trace d)) (at level 9, d at level 9).

(** Sending never alters the time base, and appends to the trace. *)
Lemma queue_frame_cases d fr :
  (exists q', queue_frame d fr = Ret 0 (log (with_frames_queue d q') (Sent fr))
              /\ MQ.err_send (frames_queue d) = 0)
  \/ (exists e q', queue_frame d fr = Ret e (with_frames_queue d q')
                   /\ e = MQ.err_send (frames_queue d) /\ e <> 0
                   /\ MQ.err_send q' = e)
  \/ queue_frame d fr = Park d.
Proof.
  unfold queue_frame, MQ.send.
  destruct (Z.eqb_spec (MQ.err_send (frames_queue d)) 0) as [E|E]; simpl.
  - destruct (length (MQ.fifo (frames_queue d)) <? MQ.nb_elems (frames_queue d))%nat.
    + left. eexists. split; [reflexivity | exact E].
    + right. right. reflexivity.
  - right. left.
    destruct (MQ.err_send (frames_queue d) <? 0).
    + do 2 eexists. split; [reflexivity|]. simpl. auto.
    + exists (MQ.err_send (frames_queue d)), (frames_queue d).
      split; [|auto]. destruct d; reflexivity.
Qed.

Lemma sent_free_tmp_frame d : sent (free_tmp_frame d) = sent d.
Proof.
  unfold free_tmp_frame. destruct (tmp_frame d); [|reflexivity].
  simpl. rewrite sent_frames_app. simpl. apply app_nil_r.
Qed.

(** The trace is a history only: what the code does is independent of it. *)

Lemma queue_frame_prepend tr0 d h :
  queue_frame (prepend tr0 d) h = map_state (prepend tr0) (queue_frame d h).
Proof.
  unfold queue_frame. cbn [prepend frames_queue].
  destruct (MQ.send (frames_queue d) h) as [q'|e|]; simpl.
  - unfold prepend, log, with_frames_queue; simpl. rewrite app_assoc. reflexivity.
  - destruct (e <? 0); reflexivity.
  - reflexivity.
Qed.

Lemma queue_cached_frame_prepend tr0 d :
  queue_cached_frame rescale (prepend tr0 d) =
  map_state (prepend tr0) (queue_cached_frame rescale d).
Proof.
  unfold queue_cached_frame. cbn [prepend tmp_frame].
  destruct (tmp_frame d); [|reflexivity].
  apply (queue_frame_prepend tr0 (with_tmp_frame d None)).
Qed.

Lemma async_queue_frame_prepend tr0 d fr :
  aqf (prepend tr0 d) fr = map_state (prepend tr0) (aqf d fr).
Proof.
  unfold async_queue_frame.
  change (armed (prepend tr0 d)) with (armed d).
  change (seek_request (prepend tr0 d)) with (seek_request d).
  change (tmp_frame (prepend tr0 d)) with (tmp_frame d).
  destruct fr as [f|].
  - change (canon (prepend tr0 d) f) with (canon d f).
    destruct (armed d && (canon d f <? seek_request d)).
    + unfold free_tmp_frame. cbn [prepend tmp_frame].
      destruct (tmp_frame d); simpl; [|reflexivity].
      unfold prepend; simpl. rewrite app_assoc. reflexivity.
    + destruct (tmp_frame d).
      * rewrite queue_cached_frame_prepend.
        destruct (queue_cached_frame rescale d) as [ret d1|d1|]; simpl;
          try reflexivity.
        destruct (ret <? 0); [reflexivity|].
        apply (queue_frame_prepend tr0 (with_seek_request d1 AV_NOPTS_VALUE)).
      * apply (queue_frame_prepend tr0 (with_seek_request d AV_NOPTS_VALUE)).
  - destruct (tmp_frame d); [|reflexivity].
    rewrite queue_cached_frame_prepend.
    destruct (queue_cached_frame rescale d) as [ret d1|d1|]; simpl;
      try reflexivity.
    destruct (ret <? 0); reflexivity.
Qed.

Lemma run_prepend tr0 acts : forall d,
  run rescale (prepend tr0 d) acts = map_state (prepend tr0) (run rescale d acts).
Proof.
  induction acts as [|a acts IH]; intros d; simpl; [reflexivity|].
  destruct a as [fr|]; simpl.
  - rewrite async_queue_frame_prepend.
    destruct (aqf d fr) as [r d1|d1|]; simpl; [apply IH | reflexivity | reflexivity].
  - rewrite <- IH. f_equal.
    unfold filter_recv. cbn [prepend frames_queue].
    destruct (MQ.recv (frames_queue d)); reflexivity.
Qed.

Lemma prepend_clear d : prepend (trace d) (clear_trace d) = d.
Proof.
  destruct d; unfold prepend, clear_trace; simpl. rewrite app_nil_r. reflexivity.
Qed.

Lemma run_app acts1 : forall d acts2,
  run rescale d (acts1 ++ acts2) =
  match run rescale d acts1 with
  | Ret _ d1 => run rescale d1 acts2
  | Park d1 => Park d1
  | Fault => Fault
  end.
Proof.
  induction acts1 as [|a acts1 IH]; intros d acts2; simpl; [reflexivity|].
  destruct (exec rescale d a); [apply IH | reflexivity | reflexivity].
Qed.

Lemma queue_frame_fields d h r d' :
  queue_frame d h = Ret r d' ->
  tmp_frame d' = tmp_frame d /\ seek_request d' = seek_request d.
Proof.
  unfold queue_frame.
  destruct (MQ.send (frames_queue d) h) as [q'|e|]; [| |discriminate].
  - intros [= <- <-]. split; reflexivity.
  - destruct (e <? 0); intros [= <- <-]; split; reflexivity.
Qed.

Lemma flush_call_clears d r d' :
  aqf d None = Ret r d' -> tmp_frame d' = None.
Proof.
  unfold async_queue_frame, queue_cached_frame.
  destruct (tmp_frame d) as [c|] eqn:Htmp.
  - destruct (queue_frame (with_tmp_frame d None) (set_pts c (canon d c)))
      as [ret d1| |] eqn:Hq; simpl; try discriminate.
    apply queue_frame_fields in Hq. destruct Hq as [Ht _].
    destruct (ret <? 0); intros [= <- <-]; exact Ht.
  - intros [= <- <-]. exact Htmp.
Qed.

Lemma filter_recv_fields d :
  st_timebase (filter_recv d) = st_timebase d
  /\ tmp_frame (filter_recv d) = tmp_frame d
  /\ seek_request (filter_recv d) = seek_request d
  /\ trace (filter_recv d) = trace d
  /\ MQ.err_send (frames_queue (filter_recv d)) = MQ.err_send (frames_queue d).
Proof.
  unfold filter_recv, MQ.recv.
  destruct (MQ.fifo (frames_queue d)); [|repeat split].
  destruct (negb (MQ.err_recv (frames_queue d) =? 0)); repeat split.
Qed.

Lemma run_filter_recvs n : forall d,
  exists d', run rescale d (filter_recvs n) = Ret 0 d'
    /\ st_timebase d' = st_timebase d
    /\ tmp_frame d' = tmp_frame d
    /\ seek_request d' = seek_request d
    /\ trace d' = trace d.
Proof.
  induction n as [|n IH]; intros d.
  - exists d. repeat split.
  - cbn [filter_recvs repeat run exec]. fold (filter_recvs n).
    destruct (IH (filter_recv d)) as (d' & Hr & Htb & Ht & Hs & Htr).
    destruct (filter_recv_fields d) as (Etb & Et & Es & Etr & _).
    exists d'. rewrite Hr, Htb, Ht, Hs, Htr. auto.
Qed.

(** Once a Seek message is handled the target is armed, no skipped frame
    is cached and the frames queue is empty. *)
Lemma decoder_thread_seek_arms d sched late seek_ts r d1 :
  decoder_thread_seek rescale d sched late seek_ts = Ret r d1 ->
  r = 0 /\ seek_request d1 = seek_ts /\ tmp_frame d1 = None
  /\ MQ.fifo (frames_queue d1) = [].
Proof.
  unfold decoder_thread_seek, decoder_flush. rewrite run_app.
  destruct (run rescale d sched) as [r0 d0| |]; cbn [bind]; try discriminate.
  cbn [run exec].
  destruct (aqf d0 None) as [r1 d2| |] eqn:Hnull; cbn [bind]; try discriminate.
  apply flush_call_clears in Hnull.
  destruct (run_filter_recvs late d2) as (d3 & -> & _ & Ht & _ & _).
  cbn [bind]. intros [= <- <-].
  repeat split; simpl; congruence.
Qed.

Lemma queue_frame_no_fault d h : queue_frame d h <> Fault.
Proof.
  unfold queue_frame.
  destruct (MQ.send (frames_queue d) h) as [q'|e|]; try discriminate.
  destruct (e <? 0); discriminate.
Qed.

Lemma queue_cached_frame_no_fault d c :
  tmp_frame d = Some c -> queue_cached_frame rescale d <> Fault.
Proof.
  intros Htmp. unfold queue_cached_frame. rewrite Htmp.
  apply queue_frame_no_fault.
Qed.

Lemma async_queue_frame_no_fault d fr : aqf d fr <> Fault.
Proof.
  unfold async_queue_frame.
  destruct fr as [f|].
  - destruct (armed d && (canon d f <? seek_request d)); [discriminate|].
    destruct (tmp_frame d) as [c|] eqn:Htmp.
    + pose proof (queue_cached_frame_no_fault d c Htmp) as Hnf.
      destruct (queue_cached_frame rescale d) as [ret d1|d1|]; cbn [bind];
        [| discriminate | exact Hnf].
      destruct (ret <? 0); [discriminate | apply queue_frame_no_fault].
    + apply queue_frame_no_fault.
  - destruct (tmp_frame d) as [c|] eqn:Htmp; [|discriminate].
    pose proof (queue_cached_frame_no_fault d c Htmp) as Hnf.
    destruct (queue_cached_frame rescale d) as [ret d1|d1|]; cbn [bind];
      [| discriminate | exact Hnf].
    destruct (ret <? 0); discriminate.
Qed.

Lemma run_reaches acts : forall d,
  exists d' new, reached (run rescale d acts) = Some d'
                 /\ trace d' = trace d ++ new.
Proof.
  induction acts as [|a acts IH]; intros d.
  - exists d, []. split; [reflexivity | symmetry; apply app_nil_r].
  - replace (run rescale d (a :: acts))
      with (run rescale (prepend (trace d) (clear_trace d)) (a :: acts))
      by (rewrite prepend_clear; reflexivity).
    rewrite run_prepend.
    destruct (run rescale (clear_trace d) (a :: acts)) as [r d1|d1|] eqn:Hrun.
    + exists (prepend (trace d) d1), (trace d1). split; reflexivity.
    + exists (prepend (trace d) d1), (trace d1). split; reflexivity.
    + exfalso. simpl in Hrun.
      destruct a as [fr|]; simpl in Hrun.
      * pose proof (async_queue_frame_no_fault (clear_trace d) fr) as Hnf.
        destruct (aqf (clear_trace d) fr) as [r d1|d1|];
          [| discriminate | contradiction].
        destruct (IH d1) as (d' & new & Hr & _). rewrite Hrun in Hr. discriminate.
      * destruct (IH (filter_recv (clear_trace d))) as (d' & new & Hr & _).
        rewrite Hrun in Hr. discriminate.
Qed.

(** C2. A non-null frame arriving while a seek is armed, with a canonical
    timestamp strictly below the target: the call returns 0, the frame
    cached before (if any) is released, the new frame is the cached one,
    the frames queue and the list of frames sent are untouched. Hence
    after any number of such frames the worker holds the last one only,
    all the earlier ones having been released. *)
Theorem skipped_frame_replaces_cached d fs f :
  seek_request d <> AV_NOPTS_VALUE ->
  Forall (fun g => canon d g < seek_request d) (fs ++ [f]) ->
  aqf d (Some f) =
    Ret 0 {| st_timebase := st_timebase d;
             tmp_frame := Some f;
             seek_request := seek_request d;
             frames_queue := frames_queue d;
             trace := trace d ++ map Freed (cached_list d) |}
  /\ sent_frames (trace d ++ map Freed (cached_list d)) = sent_frames (trace d)
  /\ run rescale d (frame_callbacks (fs ++ [f])) =
    Ret 0 {| st_timebase := st_timebase d;
             tmp_frame := Some f;
             seek_request := seek_request d;
             frames_queue := frames_queue d;
             trace := trace d ++ map Freed (cached_list d ++ fs) |}
  /\ sent_frames (trace d ++ map Freed (cached_list d ++ fs))
     = sent_frames (trace d).
Proof.
  intros Harm Hall.
  assert (Hsent : forall l, sent_frames (trace d ++ map Freed l)
                            = sent_frames (trace d)).
  { intros l. rewrite sent_frames_app.
    replace (sent_frames (map Freed l)) with (@nil AVFrame);
      [apply app_nil_r|].
    induction l; simpl; auto. }
  assert (Hf : canon d f < seek_request d).
  { rewrite Forall_forall in Hall. apply Hall.
    apply in_or_app. right. left. reflexivity. }
  repeat split.
  - apply skip_call; assumption.
  - apply Hsent.
  - apply skip_run; assumption.
  - apply Hsent.
Qed.

(** C1 (amended). A non-null frame arriving while a seek is armed, with
    no cached skipped frame, a positive target and a canonical timestamp
    strictly beyond the target: its timestamp is set to the target, the
    seek is disarmed and the frame is handed to the frames queue; when
    the queue has room and no send latch the call returns 0 and the
    retimed frame is the one sent. Consequently, when the first frame the
    codec delivers after the seek lies beyond the target, the first frame
    sent after the seek carries the target as its timestamp. *)
Theorem overshooting_frame_is_clamped d f :
  seek_request d <> AV_NOPTS_VALUE ->
  tmp_frame d = None ->
  0 < seek_request d ->
  seek_request d < canon d f ->
  aqf d (Some f) =
    queue_frame (with_seek_request d AV_NOPTS_VALUE)
                (set_pts f (seek_request d))
  /\ (MQ.err_send (frames_queue d) = 0 ->
      (length (MQ.fifo (frames_queue d)) < MQ.nb_elems (frames_queue d))%nat ->
      aqf d (Some f) =
        Ret 0 {| st_timebase := st_timebase d;
                 tmp_frame := None;
                 seek_request := AV_NOPTS_VALUE;
                 frames_queue :=
                   MQ.mk (MQ.fifo (frames_queue d) ++ [set_pts f (seek_request d)])
                         (MQ.nb_elems (frames_queue d)) 0
                         (MQ.err_recv (frames_queue d));
                 trace := trace d ++ [Sent (set_pts f (seek_request d))] |}
      /\ forall rest, exists d' new,
           reached (run rescale d (Callback (Some f) :: rest)) = Some d'
           /\ trace d' = trace d ++ Sent (set_pts f (seek_request d)) :: new).
Proof.
  intros Harm Htmp Hpos Hgt.
  assert (Hcall : aqf d (Some f) =
                  queue_frame (with_seek_request d AV_NOPTS_VALUE)
                              (set_pts f (seek_request d))).
  { unfold async_queue_frame. rewrite Htmp.
    apply armed_true in Harm. rewrite Harm.
    fails (canon d f <? seek_request d).
    cbn [andb pts set_pts].
    holds (0 <? seek_request d).
    holds (seek_request d <? canon d f).
    reflexivity. }
  split; [exact Hcall|].
  intros Herr Hroom.
  assert (Hret : aqf d (Some f) =
        Ret 0 {| st_timebase := st_timebase d;
                 tmp_frame := None;
                 seek_request := AV_NOPTS_VALUE;
                 frames_queue :=
                   MQ.mk (MQ.fifo (frames_queue d) ++ [set_pts f (seek_request d)])
                         (MQ.nb_elems (frames_queue d)) 0
                         (MQ.err_recv (frames_queue d));
                 trace := trace d ++ [Sent (set_pts f (seek_request d))] |}).
  { rewrite Hcall. unfold queue_frame, MQ.send.
    cbn [frames_queue with_seek_request]. rewrite Herr.
    apply Nat.ltb_lt in Hroom. rewrite Hroom.
    unfold log, with_frames_queue, with_seek_request. simpl.
    rewrite Htmp. reflexivity. }
  split; [exact Hret|].
  intros rest. cbn [run exec]. rewrite Hret.
  match goal with |- context [run rescale ?d1 rest] =>
    destruct (run_reaches rest d1) as (d' & new & Hr & Htr) end.
  exists d', ([] ++ new). split; [exact Hr|].
  rewrite Htr. cbn [trace]. rewrite <- app_assoc. reflexivity.
Qed.

End DecoderFacts.

Import DecoderExamples.

(** C2 at work: a frame of 4.0 s arrives while 5.0 s is armed and a
    frame of 3.0 s is cached. *)
Lemma skipped_frame_replaces_cached_witness :
  async_queue_frame rescale_zero armed_5s_cached (Some (frame_at 4000000 7)) =
    Ret 0 {| st_timebase := AV_TIME_BASE_Q;
             tmp_frame := Some (frame_at 4000000 7);
             seek_request := 5000000;
             frames_queue := MQ.alloc 3;
             trace := [Freed (frame_at 3000000 3)] |}.
Proof.
  refine (proj1 (skipped_frame_replaces_cached rescale_zero armed_5s_cached
                   [] (frame_at 4000000 7) _ _)).
  - vm_compute. discriminate.
  - repeat constructor.
Defined.

(** C1 (amended) at work: a frame of 6.0 s arrives first after a seek to
    5.0 s. *)
Lemma overshooting_frame_is_clamped_witness :
  async_queue_frame rescale_zero armed_5s (Some (frame_at 6000000 3)) =
    queue_frame (with_seek_request armed_5s AV_NOPTS_VALUE)
                (set_pts (frame_at 6000000 3) 5000000).
Proof.
  refine (proj1 (overshooting_frame_is_clamped rescale_zero armed_5s
                   (frame_at 6000000 3) _ _ _ _)).
  - vm_compute. discriminate.
  - reflexivity.
  - reflexivity.
  - reflexivity.
Defined.

(** C1 as stated fails: with the only keyframe at t = 0 the codec
    restarts below the target; the frames before 5.0 s are skipped, the
    last of them (4.0 s) is sent first with its own timestamp and the
    frame after the target (6.0 s) follows unchanged. No frame sent
    carries 5.0 s. Besides, a frame that is clamped is not always
    emitted: when the frames queue carries a send latch the call returns
    that error, the seek being disarmed and nothing sent. *)
Lemma keyframe_at_zero_is_not_clamped :
  (exists d',
     run rescale_zero armed_5s keyframe_at_zero = Ret 0 d' /\
     sent_frames (trace d') = [frame_at 4000000 2; frame_at 6000000 3] /\
     forall h, In h (sent_frames (trace d')) -> pts h <> 5000000)
  /\ async_queue_frame rescale_zero armed_5s_closed
       (Some (frame_at 6000000 3)) =
     Ret AVERROR_EOF
       {| st_timebase := AV_TIME_BASE_Q;
          tmp_frame := None;
          seek_request := AV_NOPTS_VALUE;
          frames_queue := MQ.mk [] 3 AVERROR_EOF AVERROR_EOF;
          trace := [] |}.
Proof.
  split; [|vm_compute; reflexivity].
  eexists. split; [vm_compute; reflexivity|]. split; [reflexivity|].
  simpl. intros h [<-|[<-|[]]]; simpl; discriminate.
Qed.

(** * Further properties of the decoder worker *)

Section DecoderMore.

Variable rescale : Z -> AVRational -> AVRational -> Z -> Z.

Local Notation "'canon'" := (canonical_ts rescale).
Local Notation "'aqf'" := (async_queue_frame rescale).

Lemma queue_frame_latched d h :
  MQ.err_send (frames_queue d) <> 0 ->
  queue_frame d h =
  Ret (MQ.err_send (frames_queue d))
      (if MQ.err_send (frames_queue d) <? 0
       then with_frames_queue d
              (MQ.set_err_recv (frames_queue d) (MQ.err_send (frames_queue d)))
       else d).
Proof.
  intros E. unfold queue_frame, MQ.send.
  apply Z.eqb_neq in E. rewrite E. cbn [negb].
  destruct (MQ.err_send (frames_queue d) <? 0); reflexivity.
Qed.

Lemma queue_frame_latched_keeps d h :
  MQ.err_send (frames_queue d) <> 0 ->
  exists r d', queue_frame d h = Ret r d'
    /\ trace d' = trace d
    /\ tmp_frame d' = tmp_frame d
    /\ seek_request d' = seek_request d
    /\ MQ.err_send (frames_queue d') = MQ.err_send (frames_queue d)
    /\ MQ.fifo (frames_queue d') = MQ.fifo (frames_queue d).
Proof.
  intros E. rewrite (queue_frame_latched d h E).
  destruct (MQ.err_send (frames_queue d) <? 0);
    do 2 eexists; (split; [reflexivity|]); repeat split.
Qed.

Lemma async_queue_frame_latched d fr :
  MQ.err_send (frames_queue d) <> 0 ->
  exists r d', aqf d fr = Ret r d'
    /\ sent_frames (trace d') = sent_frames (trace d)
    /\ MQ.err_send (frames_queue d') = MQ.err_send (frames_queue d).
Proof.
  intros E. unfold async_queue_frame.
  destruct fr as [f|].
  - destruct (armed d && (canon d f <? seek_request d)).
    + do 2 eexists. split; [reflexivity|].
      cbn [trace with_tmp_frame frames_queue].
      split; [apply sent_free_tmp_frame|].
      unfold free_tmp_frame. destruct (tmp_frame d); reflexivity.
    + destruct (tmp_frame d) as [c|] eqn:Htmp.
      * unfold queue_cached_frame. rewrite Htmp.
        destruct (queue_frame_latched_keeps (with_tmp_frame d None)
                    (set_pts c (canon d c)) E)
          as (r1 & d1 & -> & Ht1 & _ & _ & He1 & _).
        cbn [bind]. cbn [trace frames_queue with_tmp_frame] in Ht1, He1.
        destruct (r1 <? 0).
        -- do 2 eexists. split; [reflexivity|]. rewrite Ht1, He1. auto.
        -- assert (E1 : MQ.err_send
                          (frames_queue (with_seek_request d1 AV_NOPTS_VALUE)) <> 0)
             by (cbn [frames_queue with_seek_request]; rewrite He1; exact E).
           destruct (queue_frame_latched_keeps
                       (with_seek_request d1 AV_NOPTS_VALUE)
                       (set_pts f (canon d f)) E1)
             as (r2 & d2 & -> & Ht2 & _ & _ & He2 & _).
           cbn [trace frames_queue with_seek_request] in Ht2, He2.
           do 2 eexists. split; [reflexivity|].
           rewrite Ht2, Ht1, He2, He1. auto.
      * match goal with |- context [queue_frame ?d0 ?h] =>
          destruct (queue_frame_latched_keeps d0 h E)
            as (r2 & d2 & -> & Ht2 & _ & _ & He2 & _) end.
        cbn [trace frames_queue with_seek_request] in Ht2, He2.
        do 2 eexists. split; [reflexivity|]. rewrite Ht2, He2. auto.
  - destruct (tmp_frame d) as [c|] eqn:Htmp.
    + unfold queue_cached_frame. rewrite Htmp.
      destruct (queue_frame_latched_keeps (with_tmp_frame d None)
                  (set_pts c (canon d c)) E)
        as (r1 & d1 & -> & Ht1 & _ & _ & He1 & _).
      cbn [bind]. cbn [trace frames_queue with_tmp_frame] in Ht1, He1.
      destruct (r1 <? 0); do 2 eexists; (split; [reflexivity|]);
        rewrite Ht1, He1; auto.
    + do 2 eexists. split; [reflexivity|]. auto.
Qed.

(** X1. Once the frames queue carries a send latch (the filter worker has
    gone), the decoder worker sends nothing more: whatever the codec
    delivers and whenever the filter receives, every call returns (none
    parks), the list of frames sent is unchanged and the latch stays. *)
Theorem closed_frames_queue_takes_nothing acts : forall d,
  MQ.err_send (frames_queue d) <> 0 ->
  exists d',
    run rescale d acts = Ret 0 d'
    /\ sent_frames (trace d') = sent_frames (trace d)
    /\ MQ.err_send (frames_queue d') = MQ.err_send (frames_queue d).
Proof.
  induction acts as [|a acts IH]; intros d E.
  - exists d. repeat split.
  - cbn [run]. destruct a as [fr|]; cbn [exec].
    + destruct (async_queue_frame_latched d fr E) as (r & d1 & -> & Hs & He).
      assert (E1 : MQ.err_send (frames_queue d1) <> 0) by (rewrite He; exact E).
      destruct (IH d1 E1) as (d' & Hrun & Hs' & He').
      exists d'. rewrite Hrun, Hs', He', Hs, He. auto.
    + assert (Hf : MQ.err_send (frames_queue (filter_recv d))
                   = MQ.err_send (frames_queue d)
                   /\ trace (filter_recv d) = trace d).
      { unfold filter_recv, MQ.recv.
        destruct (MQ.fifo (frames_queue d)); [|split; reflexivity].
        destruct (negb (MQ.err_recv (frames_queue d) =? 0)); split; reflexivity. }
      destruct Hf as [He Ht].
      assert (E1 : MQ.err_send (frames_queue (filter_recv d)) <> 0)
        by (rewrite He; exact E).
      destruct (IH _ E1) as (d' & Hrun & Hs' & He').
      exists d'. rewrite Hrun, Hs', He', Ht, He. auto.
Qed.

(** X2. When a cached skipped frame is due to be sent (a NULL frame, or a
    frame that is not itself skipped, arrives) and the frames queue
    refuses it with a negative latch, the call returns that error; the
    cached frame is then no longer held, was neither sent nor released,
    the latch is copied to the receive side, and the seek stays armed. *)
Theorem cached_frame_is_lost_on_failed_send d c fr :
  tmp_frame d = Some c ->
  MQ.err_send (frames_queue d) < 0 ->
  match fr with
  | Some f => armed d && (canon d f <? seek_request d) = false
  | None => True
  end ->
  aqf d fr =
    Ret (MQ.err_send (frames_queue d))
      {| st_timebase := st_timebase d;
         tmp_frame := None;
         seek_request := seek_request d;
         frames_queue :=
           MQ.set_err_recv (frames_queue d) (MQ.err_send (frames_queue d));
         trace := trace d |}.
Proof.
  intros Htmp Hneg Hfr.
  assert (E : MQ.err_send (frames_queue (with_tmp_frame d None)) <> 0)
    by (cbn [frames_queue with_tmp_frame]; lia).
  unfold async_queue_frame, queue_cached_frame.
  destruct fr as [f|]; [rewrite Hfr|]; rewrite Htmp;
    rewrite (queue_frame_latched _ _ E);
    cbn [frames_queue with_tmp_frame bind];
    holds (MQ.err_send (frames_queue d) <? 0); reflexivity.
Qed.

End DecoderMore.

(** X1 at work: the stream of [keyframe_at_zero] delivered to a worker
    whose frames queue is closed. *)
Lemma closed_frames_queue_takes_nothing_witness :
  exists d',
    run rescale_zero armed_5s_closed keyframe_at_zero = Ret 0 d'
    /\ sent_frames (trace d') = sent_frames (trace armed_5s_closed)
    /\ MQ.err_send (frames_queue d')
       = MQ.err_send (frames_queue armed_5s_closed).
Proof.
  apply (closed_frames_queue_takes_nothing rescale_zero keyframe_at_zero
           armed_5s_closed).
  vm_compute. discriminate.
Defined.

Import DecoderMore.

(** X2 at work: a frame of 6.0 s arrives while a frame of 3.0 s is cached
    and the frames queue is closed at EOF. *)
Lemma cached_frame_is_lost_on_failed_send_witness :
  async_queue_frame rescale_zero armed_5s_cached_closed
    (Some (frame_at 6000000 7)) =
  Ret AVERROR_EOF
    {| st_timebase := AV_TIME_BASE_Q;
       tmp_frame := None;
       seek_request := 5000000;
       frames_queue := MQ.mk [] 3 AVERROR_EOF AVERROR_EOF;
       trace := [] |}.
Proof.
  apply (cached_frame_is_lost_on_failed_send rescale_zero
           armed_5s_cached_closed (frame_at 3000000 3)
           (Some (frame_at 6000000 7))).
  - reflexivity.
  - vm_compute. reflexivity.
  - vm_compute. reflexivity.
Defined.

Section DecoderOrder.

Variable rescale : Z -> AVRational -> AVRational -> Z -> Z.

Local Notation "'canon'" := (canonical_ts rescale).
Local Notation "'aqf'" := (async_queue_frame rescale).

(** X3. A worker with no seek armed and no cached frame forwards what the
    codec delivers: as long as the frames queue has room and no send
    latch, the frames enter the queue in the order delivered, each with
    its canonical timestamp, and the worker stays unarmed. *)
Theorem unarmed_worker_forwards_in_order fs : forall d,
  seek_request d = AV_NOPTS_VALUE ->
  tmp_frame d = None ->
  MQ.err_send (frames_queue d) = 0 ->
  (length (MQ.fifo (frames_queue d)) + length fs
   <= MQ.nb_elems (frames_queue d))%nat ->
  run rescale d (frame_callbacks fs) =
  Ret 0
    {| st_timebase := st_timebase d;
       tmp_frame := None;
       seek_request := AV_NOPTS_VALUE;
       frames_queue :=
         MQ.mk (MQ.fifo (frames_queue d)
                ++ map (fun f => set_pts f (canon d f)) fs)
               (MQ.nb_elems (frames_queue d)) 0
               (MQ.err_recv (frames_queue d));
       trace := trace d
                ++ map (fun f => Sent (set_pts f (canon d f))) fs |}.
Proof.
  induction fs as [|f fs IH]; intros d Hsr Htmp Herr Hroom.
  - simpl. rewrite !app_nil_r. destruct d as [tb t s [fi n es er] tr].
    simpl in *. subst. reflexivity.
  - cbn [frame_callbacks map run exec].
    assert (Hcall : aqf d (Some f) =
      Ret 0 {| st_timebase := st_timebase d;
               tmp_frame := None;
               seek_request := AV_NOPTS_VALUE;
               frames_queue :=
                 MQ.mk (MQ.fifo (frames_queue d) ++ [set_pts f (canon d f)])
                       (MQ.nb_elems (frames_queue d)) 0
                       (MQ.err_recv (frames_queue d));
               trace := trace d ++ [Sent (set_pts f (canon d f))] |}).
    { unfold async_queue_frame, armed. rewrite Hsr, Htmp.
      rewrite Z.eqb_refl. cbn [negb andb].
      unfold queue_frame, MQ.send. cbn [frames_queue with_seek_request].
      rewrite Herr. cbn [Z.eqb negb].
      replace (length (MQ.fifo (frames_queue d)) <? MQ.nb_elems (frames_queue d))%nat
        with true by (symmetry; apply Nat.ltb_lt; simpl in Hroom; lia).
      unfold Decoder.log, with_frames_queue, with_seek_request. simpl.
      rewrite Htmp. reflexivity. }
    rewrite Hcall. fold (frame_callbacks fs).
    rewrite IH; cbn [seek_request tmp_frame frames_queue MQ.err_send MQ.fifo
                     MQ.nb_elems st_timebase trace MQ.err_recv];
      try reflexivity.
    + rewrite <- !app_assoc. reflexivity.
    + rewrite length_app. simpl in *. lia.
Qed.

Lemma grows_refl d : grows d d.
Proof. exists []. rewrite !app_nil_r. auto. Qed.

Lemma grows_trans d1 d2 d3 : grows d1 d2 -> grows d2 d3 -> grows d1 d3.
Proof.
  intros (n1 & Hs1 & Hf1) (n2 & Hs2 & Hf2). exists (n1 ++ n2).
  rewrite Hs2, Hf2, Hs1, Hf1, !app_assoc. auto.
Qed.

Lemma queue_frame_grows d h d' :
  reached (queue_frame d h) = Some d' -> grows d d'.
Proof.
  unfold queue_frame.
  destruct (MQ.send (frames_queue d) h) as [q'|e|] eqn:Hsend.
  - intros [= <-]. exists [h]. cbn [trace Decoder.log with_frames_queue frames_queue].
    rewrite sent_frames_app. split; [reflexivity|].
    apply send_ok_fifo. exact Hsend.
  - destruct (e <? 0); intros [= <-]; exists []; rewrite !app_nil_r;
      split; reflexivity.
  - intros [= <-]. apply grows_refl.
Qed.

Lemma queue_cached_frame_grows d d' :
  reached (queue_cached_frame rescale d) = Some d' -> grows d d'.
Proof.
  unfold queue_cached_frame. destruct (tmp_frame d) as [c|]; [|discriminate].
  intros H. apply queue_frame_grows in H. exact H.
Qed.

Lemma async_queue_frame_grows d fr d' :
  reached (aqf d fr) = Some d' -> grows d d'.
Proof.
  unfold async_queue_frame. destruct fr as [f|].
  - destruct (armed d && (canon d f <? seek_request d)).
    + intros [= <-]. exists [].
      cbn [trace with_tmp_frame frames_queue]. rewrite sent_free_tmp_frame.
      rewrite !app_nil_r. split; [reflexivity|].
      unfold free_tmp_frame. destruct (tmp_frame d); reflexivity.
    + destruct (tmp_frame d) as [c|].
      * destruct (queue_cached_frame rescale d) as [r d1|d1|] eqn:Hc;
          cbn [bind]; [| |discriminate].
        -- assert (G1 : grows d d1)
             by (apply queue_cached_frame_grows; rewrite Hc; reflexivity).
           destruct (r <? 0); [intros [= <-]; exact G1|].
           intros H. apply queue_frame_grows in H.
           eapply grows_trans; [exact G1 | exact H].
        -- intros [= <-]. apply queue_cached_frame_grows. rewrite Hc. reflexivity.
      * intros H. apply queue_frame_grows in H. exact H.
  - destruct (tmp_frame d) as [c|]; [|intros [= <-]; apply grows_refl].
    destruct (queue_cached_frame rescale d) as [r d1|d1|] eqn:Hc;
      cbn [bind]; [| |discriminate].
    + assert (G1 : grows d d1)
        by (apply queue_cached_frame_grows; rewrite Hc; reflexivity).
      destruct (r <? 0); intros [= <-]; exact G1.
    + intros [= <-]. apply queue_cached_frame_grows. rewrite Hc. reflexivity.
Qed.

Lemma callbacks_grow cbs : forall d d',
  reached (run rescale d (map Callback cbs)) = Some d' -> grows d d'.
Proof.
  induction cbs as [|fr cbs IH]; intros d d'.
  - intros [= <-]. apply grows_refl.
  - cbn [map run exec].
    destruct (aqf d fr) as [r d1|d1|] eqn:Hc; [| |discriminate].
    + intros H. apply IH in H.
      eapply grows_trans; [|exact H].
      apply (async_queue_frame_grows d fr). rewrite Hc. reflexivity.
    + intros [= <-]. apply (async_queue_frame_grows d fr). rewrite Hc. reflexivity.
Qed.

End DecoderOrder.

(** X3 at work: two frames delivered to an idle worker. *)
Lemma unarmed_worker_forwards_in_order_witness :
  run rescale_zero idle
    (frame_callbacks [frame_at 6000000 3; frame_at 8000000 4]) =
  Ret 0
    {| st_timebase := AV_TIME_BASE_Q;
       tmp_frame := None;
       seek_request := AV_NOPTS_VALUE;
       frames_queue := MQ.mk [frame_at 6000000 3; frame_at 8000000 4] 3 0 0;
       trace := [Sent (frame_at 6000000 3); Sent (frame_at 8000000 4)] |}.
Proof.
  apply (unarmed_worker_forwards_in_order rescale_zero
           [frame_at 6000000 3; frame_at 8000000 4] idle).
  - reflexivity.
  - reflexivity.
  - reflexivity.
  - simpl. lia.
Defined.

(** * The worker across a seek *)

Section SeekFacts.

Variable rescale : Z -> AVRational -> AVRational -> Z -> Z.

Local Notation "'canon'" := (canonical_ts rescale).
Local Notation "'aqf'" := (async_queue_frame rescale).
Local Notation "'sent' d" := (sent_frames (trace d)) (at level 9, d at level 9).

Lemma sent_map_freed l : sent_frames (map Freed l) = [].
Proof. induction l; simpl; auto. Qed.

Lemma run_sent acts d :
  exists d' sn, reached (run rescale d acts) = Some d' /\ sent d' = sent d ++ sn.
Proof.
  destruct (run_reaches rescale acts d) as (d' & new & Hr & Htr).
  exists d', (sent_frames new). rewrite Htr, sent_frames_app. auto.
Qed.

(** Behind a send latch nothing is sent any more. *)
Lemma latched_run acts : forall d,
  MQ.err_send (frames_queue d) <> 0 ->
  exists d', run rescale d acts = Ret 0 d' /\ sent d' = sent d.
Proof.
  induction acts as [|a acts IH]; intros d E.
  - exists d. split; reflexivity.
  - cbn [run]. destruct a as [fr|]; cbn [exec].
    + destruct (async_queue_frame_latched rescale d fr E) as (r & d1 & -> & Hs & He).
      assert (E1 : MQ.err_send (frames_queue d1) <> 0) by (rewrite He; exact E).
      destruct (IH d1 E1) as (d' & Hrun & Hs').
      exists d'. rewrite Hrun, Hs', Hs. auto.
    + destruct (filter_recv_fields d) as (_ & _ & _ & Ht & He).
      assert (E1 : MQ.err_send (frames_queue (filter_recv d)) <> 0)
        by (rewrite He; exact E).
      destruct (IH _ E1) as (d' & Hrun & Hs').
      exists d'. rewrite Hrun, Hs', Ht. auto.
Qed.

(** A send followed by the rest of a run: either the frame is the next
    one sent, or nothing is sent any more (the queue is latched, or the
    worker is parked in the send). *)
Lemma send_then d h rest :
  exists d' sn,
    reached (match queue_frame d h with
             | Ret _ d2 => run rescale d2 rest
             | Park d2 => Park d2
             | Fault => Fault
             end) = Some d'
    /\ sent d' = sent d ++ sn
    /\ (sn = [] \/ exists sn', sn = h :: sn').
Proof.
  destruct (queue_frame_cases d h)
    as [(q' & -> & E) | [(e & q' & -> & -> & Ene & Eq) | ->]].
  - match goal with |- context [run rescale ?d2 rest] =>
      destruct (run_sent rest d2) as (d' & sn' & Hr & Hs) end.
    exists d', (h :: sn'). split; [exact Hr|].
    split; [|right; eauto].
    rewrite Hs. cbn [trace Decoder.log with_frames_queue].
    rewrite sent_frames_app, <- app_assoc. reflexivity.
  - destruct (latched_run rest (with_frames_queue d q')) as (d' & Hr & Hs).
    { cbn [frames_queue with_frames_queue]. rewrite Eq. exact Ene. }
    exists d', []. rewrite Hr, Hs, app_nil_r. auto.
  - exists d, []. rewrite app_nil_r. auto.
Qed.

Lemma latched_send_then d h rest :
  MQ.err_send (frames_queue d) <> 0 ->
  exists d',
    reached (match queue_frame d h with
             | Ret _ d2 => run rescale d2 rest
             | Park d2 => Park d2
             | Fault => Fault
             end) = Some d'
    /\ sent d' = sent d.
Proof.
  intros E.
  destruct (queue_frame_latched_keeps d h E)
    as (r & d2 & -> & Ht & _ & _ & He & _).
  destruct (latched_run rest d2) as (d' & Hr & Hs); [rewrite He; exact E|].
  exists d'. rewrite Hr, Hs, Ht. auto.
Qed.

(** The call that ends the wait: a frame at or after the target, or the
    NULL frame of a flush while a frame is cached. *)
Lemma trigger_call s tb d skipped trig rest :
  awaiting rescale s tb skipped d ->
  match trig with
  | Some f => s <= canon d f
  | None => skipped <> []
  end ->
  exists d' sn,
    reached (run rescale d (Callback trig :: rest)) = Some d'
    /\ sent d' = sent d ++ sn
    /\ match sn with
       | [] => True
       | h :: _ => first_sent_is rescale s tb skipped trig h
       end.
Proof.
  intros (Htb & Hsr & Hs & Hall & Hlast) Htrig.
  assert (Harm : armed d = true) by (apply armed_true; congruence).
  cbn [run exec].
  destruct Hlast as [[-> Htmp] | (earlier & c & -> & Htmp)].
  - (* nothing is cached: the frame itself is sent *)
    destruct trig as [f|]; [|contradiction].
    set (h := if (0 <? s) && (s <? canon d f)
              then set_pts f s else set_pts f (canon d f)).
    assert (Hcall : aqf d (Some f)
                    = queue_frame (with_seek_request d AV_NOPTS_VALUE) h).
    { unfold async_queue_frame. rewrite Htmp, Harm, Hsr.
      fails (canon d f <? s).
      unfold h. reflexivity. }
    rewrite Hcall.
    destruct (send_then (with_seek_request d AV_NOPTS_VALUE) h rest)
      as (d' & sn & Hr & Hsent & Hsn).
    exists d', sn. split; [exact Hr|]. split; [exact Hsent|].
    destruct Hsn as [-> | (sn' & ->)]; [exact I|].
    split; [constructor|].
    split; [rewrite <- Htb; exact Htrig|].
    left. split; [reflexivity|]. exists f. split; [reflexivity|].
    unfold kept_ts, clamped_ts, h. rewrite <- Htb.
    change (canon_tb rescale (st_timebase d) f) with (canon d f).
    destruct (Z.ltb_spec 0 s) as [Hpos|Hpos];
      destruct (Z.ltb_spec s (canon d f)) as [Hgt|Hgt]; cbn [andb].
    + right. auto.
    + left. repeat split; [exact Htrig | right; lia].
    + left. repeat split; [exact Htrig | left; lia].
    + left. repeat split; [exact Htrig | left; lia].
  - (* the cached frame goes first *)
    assert (Hc : canon d c < s).
    { apply Forall_app in Hall. destruct Hall as [_ Hall].
      inversion Hall; subst. assumption. }
    set (h := set_pts c (canon d c)).
    assert (Hfirst : first_sent_is rescale s tb (earlier ++ [c]) trig h).
    { split; [exact Hall|]. split.
      - destruct trig as [f|]; [rewrite <- Htb; exact Htrig|].
        intros E. apply app_eq_nil in E. destruct E as [_ E]. discriminate.
      - right. exists earlier, c. split; [reflexivity|].
        unfold promoted_ts, h. rewrite <- Htb. auto. }
    assert (Hcached : queue_cached_frame rescale d
                      = queue_frame (with_tmp_frame d None) h)
      by (unfold queue_cached_frame; rewrite Htmp; reflexivity).
    destruct (queue_frame_cases (with_tmp_frame d None) h)
      as [(q' & Hq & E) | [(e & q' & Hq & -> & Ene & Eq) | Hq]].
    + (* sent *)
      set (d1 := Decoder.log (with_frames_queue (with_tmp_frame d None) q')
                   (Sent h)) in *.
      assert (Hs1 : sent d1 = sent d ++ [h]).
      { unfold d1. cbn [trace Decoder.log with_frames_queue with_tmp_frame].
        apply sent_frames_app. }
      destruct trig as [f|].
      * assert (Hcall : aqf d (Some f)
                  = queue_frame (with_seek_request d1 AV_NOPTS_VALUE)
                      (set_pts f (canon d f))).
        { unfold async_queue_frame. rewrite Htmp, Harm, Hsr.
          fails (canon d f <? s).
          cbn [andb]. rewrite Hcached, Hq. reflexivity. }
        rewrite Hcall.
        destruct (send_then (with_seek_request d1 AV_NOPTS_VALUE)
                    (set_pts f (canon d f)) rest)
          as (d' & sn & Hr & Hsent & _).
        exists d', (h :: sn). split; [exact Hr|].
        split; [|exact Hfirst].
        rewrite Hsent. cbn [trace with_seek_request]. rewrite Hs1, <- app_assoc.
        reflexivity.
      * assert (Hcall : aqf d None = Ret AVERROR_EOF d1).
        { unfold async_queue_frame. rewrite Htmp, Hcached, Hq. reflexivity. }
        rewrite Hcall.
        destruct (run_sent rest d1) as (d' & sn & Hr & Hsent).
        exists d', (h :: sn). split; [exact Hr|].
        split; [|exact Hfirst].
        rewrite Hsent, Hs1, <- app_assoc. reflexivity.
    + (* refused: the queue is latched *)
      set (d1 := with_frames_queue (with_tmp_frame d None) q') in *.
      assert (E1 : MQ.err_send (frames_queue d1) <> 0)
        by (unfold d1; cbn [frames_queue with_frames_queue]; rewrite Eq; exact Ene).
      assert (Hs1 : sent d1 = sent d) by reflexivity.
      set (e := MQ.err_send (frames_queue (with_tmp_frame d None))) in *.
      destruct trig as [f|].
      * assert (Hcall : aqf d (Some f)
                  = if e <? 0 then Ret e d1
                    else queue_frame (with_seek_request d1 AV_NOPTS_VALUE)
                           (set_pts f (canon d f))).
        { unfold async_queue_frame. rewrite Htmp, Harm, Hsr.
          fails (canon d f <? s).
          cbn [andb]. rewrite Hcached, Hq. reflexivity. }
        rewrite Hcall. destruct (e <? 0).
        -- destruct (latched_run rest d1 E1) as (d' & Hr & Hsent).
           exists d', []. rewrite Hr, Hsent, Hs1, app_nil_r. auto.
        -- destruct (latched_send_then (with_seek_request d1 AV_NOPTS_VALUE)
                       (set_pts f (canon d f)) rest E1) as (d' & Hr & Hsent).
           exists d', []. split; [exact Hr|].
           rewrite Hsent. cbn [trace with_seek_request]. rewrite Hs1, app_nil_r.
           auto.
      * assert (Hcall : exists r, aqf d None = Ret r d1).
        { unfold async_queue_frame. rewrite Htmp, Hcached, Hq. cbn [bind].
          destruct (e <? 0); eauto. }
        destruct Hcall as (r & ->).
        destruct (latched_run rest d1 E1) as (d' & Hr & Hsent).
        exists d', []. rewrite Hr, Hsent, Hs1, app_nil_r. auto.
    + (* the frames queue is full: the worker is parked in the send *)
      assert (Hcall : aqf d trig = Park (with_tmp_frame d None)).
      { unfold async_queue_frame. rewrite Htmp.
        destruct trig as [f|].
        - rewrite Harm, Hsr.
          fails (canon d f <? s).
          cbn [andb]. rewrite Hcached, Hq. reflexivity.
        - rewrite Hcached, Hq. reflexivity. }
      rewrite Hcall. exists (with_tmp_frame d None), [].
      rewrite app_nil_r. auto.
Qed.

(** The run that follows a seek, up to the first frame sent. *)
Lemma first_sent_from s tb acts : forall d skipped,
  awaiting rescale s tb skipped d ->
  exists d' sn,
    reached (run rescale d acts) = Some d'
    /\ sent d' = sent d ++ sn
    /\ match sn with
       | [] => True
       | h :: _ =>
           exists pre trig post,
             acts = pre ++ Callback trig :: post
             /\ first_sent_is rescale s tb (skipped ++ delivered pre) trig h
       end.
Proof.
  induction acts as [|a acts IH]; intros d skipped Haw.
  - exists d, []. rewrite app_nil_r. auto.
  - assert (Htrigger : forall trig,
              match trig with
              | Some f => s <= canon d f
              | None => skipped <> []
              end ->
              exists d' sn,
                reached (run rescale d (Callback trig :: acts)) = Some d'
                /\ sent d' = sent d ++ sn
                /\ match sn with
                   | [] => True
                   | h :: _ =>
                       exists pre trig0 post,
                         Callback trig :: acts = pre ++ Callback trig0 :: post
                         /\ first_sent_is rescale s tb
                              (skipped ++ delivered pre) trig0 h
                   end).
    { intros trig Htrig.
      destruct (trigger_call s tb d skipped trig acts Haw Htrig)
        as (d' & sn & Hr & Hsent & Hfirst).
      exists d', sn. split; [exact Hr|]. split; [exact Hsent|].
      destruct sn as [|h sn']; [exact I|].
      exists [], trig, acts. split; [reflexivity|].
      cbn [delivered]. rewrite app_nil_r. exact Hfirst. }
    pose proof Haw as (Htb & Hsr & Hs & Hall & Hlast).
    destruct a as [[f|]|].
    + destruct (Z.ltb_spec (canon d f) s) as [Hlt|Hge];
        [|apply (Htrigger (Some f)); exact Hge].
      (* a frame before the target: it replaces the cached one *)
      cbn [run exec].
      rewrite (skip_call rescale d f) by (rewrite Hsr; assumption).
      match goal with |- context [run rescale ?d2 acts] =>
        destruct (IH d2 (skipped ++ [f])) as (d' & sn & Hr & Hsent & Hfirst) end.
      { unfold awaiting. cbn [st_timebase seek_request tmp_frame].
        repeat split; try assumption.
        - apply Forall_app. split; [exact Hall|].
          constructor; [rewrite <- Htb; exact Hlt | constructor].
        - right. exists skipped, f. split; reflexivity. }
      exists d', sn. split; [exact Hr|].
      split.
      { rewrite Hsent. cbn [trace].
        rewrite sent_frames_app, sent_map_freed, app_nil_r. reflexivity. }
      destruct sn as [|h sn']; [exact I|].
      destruct Hfirst as (pre & trig & post & -> & Hf).
      exists (Callback (Some f) :: pre), trig, post. split; [reflexivity|].
      cbn [delivered]. rewrite <- app_assoc in Hf. exact Hf.
    + destruct Hlast as [[-> Htmp] | (earlier & c & -> & Htmp)].
      * (* a flush with nothing cached changes nothing *)
        cbn [run exec].
        assert (Hcall : aqf d None = Ret AVERROR_EOF d)
          by (unfold async_queue_frame; rewrite Htmp; reflexivity).
        rewrite Hcall.
        destruct (IH d [] Haw) as (d' & sn & Hr & Hsent & Hfirst).
        exists d', sn. split; [exact Hr|]. split; [exact Hsent|].
        destruct sn as [|h sn']; [exact I|].
        destruct Hfirst as (pre & trig & post & -> & Hf).
        exists (Callback None :: pre), trig, post. split; [reflexivity|].
        exact Hf.
      * apply (Htrigger None).
        intros E. apply app_eq_nil in E. destruct E as [_ E]. discriminate.
    + cbn [run exec].
      destruct (filter_recv_fields d) as (Etb & Et & Es & Etr & _).
      destruct (IH (filter_recv d) skipped) as (d' & sn & Hr & Hsent & Hfirst).
      { unfold awaiting, holds_last. rewrite Etb, Et, Es.
        repeat split; assumption. }
      exists d', sn. split; [exact Hr|].
      split; [rewrite Hsent, Etr; reflexivity|].
      destruct sn as [|h sn']; [exact I|].
      destruct Hfirst as (pre & trig & post & -> & Hf).
      exists (FilterRecv :: pre), trig, post. split; [reflexivity|].
      exact Hf.
Qed.

(** C4 (amended). Once the worker has handled a Seek message (the codec
    being flushed while the filter worker keeps receiving), whatever the
    codec then delivers and whenever the filter worker receives, the
    first frame sent to the frames queue, if any, is this: the frames
    delivered since the seek up to the call that sends it all lie before
    the target but the one of that call, and
    - when there is none before it, the frame of that call is sent,
      which lies at or after the target: it keeps its canonical
      timestamp (equal to the target, or any when the target is not
      positive), or, lying beyond a positive target, is retimed to the
      target;
    - otherwise the last of them, which is the cached skipped frame, is
      sent with its own canonical timestamp, below the target; the call
      is a frame at or after the target or the NULL frame of a flush.
    The run never faults. *)
Theorem first_frame_after_seek d sched late seek_ts d1 acts :
  0 <= seek_ts ->
  decoder_thread_seek rescale d sched late seek_ts = Ret 0 d1 ->
  exists d' new,
    reached (run rescale d1 acts) = Some d' /\
    trace d' = trace d1 ++ new /\
    match sent_frames new with
    | [] => True
    | h :: _ =>
        exists pre trig post,
          acts = pre ++ Callback trig :: post
          /\ first_sent_is rescale seek_ts (st_timebase d1)
               (delivered pre) trig h
    end.
Proof.
  intros Hts Hseek.
  apply decoder_thread_seek_arms in Hseek.
  destruct Hseek as (_ & Hsr & Htmp & _).
  assert (Haw : awaiting rescale seek_ts (st_timebase d1) [] d1).
  { unfold awaiting, holds_last. repeat split; auto.
    unfold AV_NOPTS_VALUE. lia. }
  destruct (first_sent_from seek_ts (st_timebase d1) acts d1 [] Haw)
    as (d' & sn & Hr & Hsent & Hfirst).
  destruct (run_reaches rescale acts d1) as (d'' & new & Hr' & Htr).
  rewrite Hr in Hr'. injection Hr' as <-.
  exists d', new. split; [exact Hr|]. split; [exact Htr|].
  rewrite Htr, sent_frames_app in Hsent.
  apply app_inv_head in Hsent. rewrite Hsent.
  exact Hfirst.
Qed.

Lemma flows_weaken n m d d' : (n <= m)%nat -> flows n d d' -> flows m d d'.
Proof.
  intros Hle (new & taken & Hs & Hf & Hl).
  exists new, taken. repeat split; try assumption. lia.
Qed.

Lemma flows_trans n1 n2 d1 d2 d3 :
  flows n1 d1 d2 -> flows n2 d2 d3 -> flows (n1 + n2) d1 d3.
Proof.
  intros (new1 & t1 & Hs1 & Hf1 & Hl1) (new2 & t2 & Hs2 & Hf2 & Hl2).
  exists (new1 ++ new2), (t1 ++ t2).
  rewrite Hs2, Hs1, <- app_assoc. split; [reflexivity|].
  split.
  - rewrite app_assoc, Hf1, <- app_assoc, Hf2, app_assoc. reflexivity.
  - rewrite length_app. lia.
Qed.

Lemma grows_flows d d' : grows d d' -> flows 0 d d'.
Proof.
  intros (new & Hs & Hf). exists new, []. rewrite Hf.
  repeat split; auto.
Qed.

Lemma filter_recv_flows d : flows 1 d (filter_recv d).
Proof.
  unfold filter_recv, MQ.recv.
  destruct (MQ.fifo (frames_queue d)) as [|m rest] eqn:Hq.
  - destruct (negb (MQ.err_recv (frames_queue d) =? 0));
      exists [], []; rewrite Hq; repeat split; simpl; rewrite ?app_nil_r; auto.
  - exists [], [m]. cbn [trace frames_queue with_frames_queue MQ.fifo].
    rewrite Hq, !app_nil_r. repeat split; auto.
Qed.

(** Over a run the frames queue is a FIFO between the worker and the
    filter: what was pending and what was sent since is what the filter
    took, at most one frame per receive, followed by what is pending. *)
Lemma run_flows acts : forall d d',
  reached (run rescale d acts) = Some d' -> flows (receives acts) d d'.
Proof.
  induction acts as [|a acts IH]; intros d d'.
  - intros [= <-]. exists [], []. rewrite !app_nil_r. repeat split; auto.
  - cbn [run]. destruct a as [fr|]; cbn [exec receives].
    + destruct (aqf d fr) as [r d1|d1|] eqn:Hc; [| |discriminate].
      * intros H. apply IH in H.
        apply (flows_trans 0 (receives acts) d d1 d'); [|exact H].
        apply grows_flows. apply (async_queue_frame_grows rescale d fr).
        rewrite Hc. reflexivity.
      * intros [= <-]. apply (flows_weaken 0); [lia|].
        apply grows_flows. apply (async_queue_frame_grows rescale d fr).
        rewrite Hc. reflexivity.
    + intros H. apply IH in H.
      apply (flows_trans 1 (receives acts) d (filter_recv d) d'); [|exact H].
      apply filter_recv_flows.
Qed.

Lemma receives_app a1 a2 : receives (a1 ++ a2) = (receives a1 + receives a2)%nat.
Proof.
  induction a1 as [|[fr|] a1 IH]; simpl; rewrite ?IH; reflexivity.
Qed.

Lemma receives_filter_recvs n : receives (filter_recvs n) = n.
Proof.
  unfold filter_recvs. induction n as [|n IH]; simpl; rewrite ?IH; reflexivity.
Qed.

(** X4. Handling a Seek message leaves the worker armed at the target,
    with no cached frame and an empty frames queue. The frames the codec
    flushed out meanwhile entered the queue behind those already
    pending; of all these the filter worker, which keeps receiving, took
    the first ones, at most one per receive, and the others are released
    by the seek rather than left for it. *)
Theorem seek_drops_pending_and_flushed_frames d sched late seek_ts r d1 :
  decoder_thread_seek rescale d sched late seek_ts = Ret r d1 ->
  r = 0
  /\ seek_request d1 = seek_ts
  /\ tmp_frame d1 = None
  /\ MQ.fifo (frames_queue d1) = []
  /\ exists new taken freed tr,
       trace d1 = tr ++ map Freed freed
       /\ sent_frames tr = sent_frames (trace d) ++ new
       /\ sent_frames (trace d1) = sent_frames (trace d) ++ new
       /\ MQ.fifo (frames_queue d) ++ new = taken ++ freed
       /\ (length taken <= receives sched + late)%nat.
Proof.
  intros Hseek.
  destruct (decoder_thread_seek_arms rescale d sched late seek_ts r d1 Hseek)
    as (Hr & Hsr & Htmp & Hfifo).
  repeat (split; [assumption|]).
  unfold decoder_thread_seek, decoder_flush in Hseek.
  destruct (run rescale d (sched ++ [Callback None])) as [r0 d0| |] eqn:Hflush;
    cbn [bind] in Hseek; try discriminate.
  destruct (run rescale d0 (filter_recvs late)) as [r2 d2| |] eqn:Hlate;
    cbn [bind] in Hseek; try discriminate.
  injection Hseek as _ <-.
  assert (Hrun : reached (run rescale d
                   ((sched ++ [Callback None]) ++ filter_recvs late)) = Some d2).
  { rewrite run_app, Hflush, Hlate. reflexivity. }
  apply run_flows in Hrun.
  rewrite !receives_app, receives_filter_recvs in Hrun.
  cbn [receives] in Hrun. rewrite Nat.add_0_r in Hrun.
  destruct Hrun as (new & taken & Hs & Hf & Hl).
  exists new, taken, (MQ.fifo (frames_queue d2)), (trace d2).
  cbn [trace with_seek_request flush_frames_queue].
  split; [reflexivity|]. split; [exact Hs|].
  split; [rewrite sent_frames_app, sent_map_freed, app_nil_r; exact Hs|].
  split; [exact Hf | exact Hl].
Qed.

End SeekFacts.

Import DecoderMore.

(** C4 (amended) at work: a seek to 5.0 s is handled while the frames
    queue is full, the filter worker receiving one frame during the
    flush; the codec then restarts from the keyframe at 0. *)
Lemma first_frame_after_seek_witness :
  exists d' new,
    reached (run rescale_zero armed_5s_after_flush keyframe_at_zero) = Some d' /\
    trace d' = trace armed_5s_after_flush ++ new /\
    match sent_frames new with
    | [] => True
    | h :: _ =>
        exists pre trig post,
          keyframe_at_zero = pre ++ Callback trig :: post
          /\ first_sent_is rescale_zero 5000000
               (st_timebase armed_5s_after_flush) (delivered pre) trig h
    end.
Proof.
  apply (first_frame_after_seek rescale_zero idle_full
           flush_one_while_filtering 0 5000000 armed_5s_after_flush
           keyframe_at_zero).
  - lia.
  - reflexivity.
Defined.

(** C4 as stated fails: after a seek to 5.0 s handled by the worker, the
    first frame sent is the promoted skipped frame of 4.0 s, below the
    target. *)
Lemma first_frame_sent_below_target :
  decoder_thread_seek rescale_zero idle [] 0 5000000 = Ret 0 armed_5s /\
  exists d' h rest,
    run rescale_zero armed_5s keyframe_at_zero = Ret 0 d' /\
    sent_frames (trace d') = h :: rest /\
    pts h = 4000000 /\ pts h < seek_request armed_5s.
Proof.
  split; [reflexivity|].
  eexists. eexists. eexists.
  split; [vm_compute; reflexivity|].
  split; [reflexivity|]. split; [reflexivity|]. reflexivity.
Qed.

(** X4 at work: the same seek; the frame received by the filter worker
    escapes the flush, the two left pending and the one flushed out by
    the codec are released. *)
Lemma seek_drops_pending_and_flushed_frames_witness :
  decoder_thread_seek rescale_zero idle_full flush_one_while_filtering 0
    5000000 = Ret 0 armed_5s_after_flush
  /\ MQ.fifo (frames_queue armed_5s_after_flush) = [].
Proof.
  split; [reflexivity|].
  exact (proj1 (proj2 (proj2 (proj2
           (seek_drops_pending_and_flushed_frames rescale_zero idle_full
              flush_one_while_filtering 0 5000000 0 armed_5s_after_flush
              eq_refl))))).
Defined.

(** ** The reorder buffer *)

Section ReorderFacts.

Import VT.

Variable ans : nat -> push_env.

Lemma filter_all_after new l :
  Forall (fun x => pts new < pts x) l ->
  filter (not_after new) l = [] /\ filter (after new) l = l.
Proof.
  induction 1 as [|x l Hx _ [IH1 IH2]]; simpl; [auto|].
  unfold not_after, after in *.
  fails (pts x <=? pts new).
  holds (pts new <? pts x).
  rewrite IH1, IH2. auto.
Qed.

Lemma sorted_tail_above a l new :
  StronglySorted le_pts (a :: l) -> pts new < pts a ->
  Forall (fun x => pts new < pts x) (a :: l).
Proof.
  intros Hs Hlt. inversion Hs as [|? ? _ Hall]; subst.
  constructor; [exact Hlt|].
  eapply Forall_impl; [|exact Hall]. unfold le_pts. intros x Hx. lia.
Qed.

Lemma last_nonempty_default {A} (l : list A) : forall a d1 d2,
  last (a :: l) d1 = last (a :: l) d2.
Proof.
  induction l as [|b l IH]; intros a d1 d2; [reflexivity|].
  change (last (a :: b :: l) d1) with (last (b :: l) d1).
  change (last (a :: b :: l) d2) with (last (b :: l) d2).
  apply IH.
Qed.


Lemma refusals_le n : forall a i, refusals n a i <= Z.of_nat n.
Proof.
  induction n as [|n IH]; intros a i; [simpl; lia|].
  cbn [refusals]. specialize (IH a (S i)).
  rewrite Nat2Z.inj_succ. destruct (refused (a i)); lia.
Qed.

(** One push: what it leaves when it returns, and when it returns. *)
Lemma push_async_frame_ret vt f e r vt' :
  push_async_frame vt f e = Ret r vt' ->
  vt' = {| queue := queue vt; nb_frames := nb_frames vt;
           nb_queued := nb_queued vt;
           bufcount :=
             {| refcount := refcount (bufcount vt)
                            - (if refused e then 1 else 0);
                refmax := refmax (bufcount vt) |};
           events := events vt ++ push_events f e |}
  /\ (refused e = true -> refcount (bufcount vt) <> 1).
Proof.
  unfold push_async_frame, push_events, dropped, refused.
  destruct (frame_alloc_ok e); cbn [negb andb].
  2:{ intros [= _ <-]. split; [|discriminate].
      unfold emit. destruct vt as [q nf nq [rc rm] es]. simpl.
      f_equal. f_equal. lia. }
  destruct (buffer_create_ok e); cbn [negb andb].
  2:{ intros [= _ <-]. split; [|discriminate].
      unfold emit. destruct vt as [q nf nq [rc rm] es]. simpl.
      f_equal. f_equal. lia. }
  destruct (queue_frame_ret e <? 0).
  - unfold bufcount_update_ref, bufcount_settle.
    cbn [emit bufcount refcount refmax andb Z.ltb Z.compare].
    destruct (Z.eqb_spec (refcount (bufcount vt) + -1) 0) as [E|E];
      [discriminate|].
    intros [= _ <-]. split; [|intros _; lia].
    reflexivity.
  - intros [= _ <-]. split; [|discriminate].
    unfold emit. destruct vt as [q nf nq [rc rm] es]. simpl.
    f_equal. f_equal. lia.
Qed.

Lemma push_async_frame_returns vt f e :
  (refused e = true -> refcount (bufcount vt) <> 1) ->
  exists r vt', push_async_frame vt f e = Ret r vt'.
Proof.
  unfold push_async_frame, refused.
  destruct (frame_alloc_ok e); cbn [negb andb]; [|eauto].
  destruct (buffer_create_ok e); cbn [negb andb]; [|eauto].
  destruct (queue_frame_ret e <? 0); [|eauto].
  intros H. specialize (H eq_refl).
  unfold bufcount_update_ref, bufcount_settle.
  cbn [emit bufcount refcount refmax andb Z.ltb Z.compare].
  fails (refcount (bufcount vt) + -1 =? 0).
  eauto.
Qed.

Lemma push_async_frame_no_park vt f e vt' :
  push_async_frame vt f e <> Park vt'.
Proof.
  unfold push_async_frame.
  destruct (frame_alloc_ok e); cbn [negb]; [|discriminate].
  destruct (buffer_create_ok e); cbn [negb]; [|discriminate].
  destruct (queue_frame_ret e <? 0); [|discriminate].
  unfold bufcount_update_ref, bufcount_settle.
  cbn [emit bufcount refcount refmax andb Z.ltb Z.compare].
  destruct (refcount (bufcount vt) + -1 =? 0); discriminate.
Qed.

Lemma walk_no_park next : forall vt new walker i vt',
  walk vt new walker next ans i <> Park vt'.
Proof.
  induction next as [|nf rest IH]; intros vt new walker i vt';
    cbn [walk]; [discriminate|].
  destruct (pts new <? pts nf); [discriminate|].
  destruct (push_async_frame vt walker (ans i)) as [r v|v|] eqn:Hp;
    cbn [bind]; [apply IH | | discriminate].
  exfalso. exact (push_async_frame_no_park _ _ _ _ Hp).
Qed.

Lemma walk_reached next vt new walker i vt' :
  reached (walk vt new walker next ans i) = Some vt' ->
  walk vt new walker next ans i = Ret tt vt'.
Proof.
  destruct (walk vt new walker next ans i) as [[] v|v|] eqn:Hw.
  - intros [= <-]. reflexivity.
  - exfalso. exact (walk_no_park _ _ _ _ _ _ Hw).
  - discriminate.
Qed.

(** The walk over a sorted buffer, when it returns. *)
Lemma walk_ret next : forall vt new walker i vt',
  StronglySorted le_pts (walker :: next) ->
  walk vt new walker next ans i = Ret tt vt' ->
  vt' =
  {| queue := last (passed new walker next) walker
              :: new :: filter (after new) next;
     nb_frames := nb_frames vt
                  - Z.of_nat (length (removelast (passed new walker next))) + 1;
     nb_queued := nb_queued vt;
     bufcount :=
       {| refcount :=
            refcount (bufcount vt)
            - refusals (length (removelast (passed new walker next))) ans i;
          refmax := refmax (bufcount vt)
                    - Z.of_nat (length (removelast (passed new walker next))) + 1 |};
     events := events vt ++ flush_events (removelast (passed new walker next)) ans i
                         ++ [EvUpdateMax 1] |}.
Proof.
  induction next as [|nf after IH]; intros vt new walker i vt' Hs.
  - simpl. intros [= <-].
    unfold update_max, emit, with_queue, bufcount_update_max. simpl.
    f_equal; [lia | f_equal; lia].
  - cbn [walk].
    destruct (Z.ltb_spec (pts new) (pts nf)) as [Hlt|Hge].
    + inversion Hs as [|? ? Hs' _]; subst.
      destruct (filter_all_after new (nf :: after)
                  (sorted_tail_above nf after new Hs' Hlt)) as [E1 E2].
      unfold passed. rewrite E1, E2. intros [= <-].
      unfold update_max, emit, with_queue, bufcount_update_max. simpl.
      f_equal; [lia | f_equal; lia].
    + inversion Hs as [|? ? Hs' _]; subst.
      assert (Hp : passed new walker (nf :: after)
                   = walker :: passed new nf after).
      { unfold passed. cbn [filter]. unfold not_after at 1.
        holds (pts nf <=? pts new).
        reflexivity. }
      assert (Hg : filter (VT.after new) (nf :: after)
                   = filter (VT.after new) after).
      { cbn [filter]. unfold VT.after at 1.
        fails (pts new <? pts nf).
        reflexivity. }
      destruct (push_async_frame vt walker (ans i)) as [r v|v|] eqn:Hpush;
        cbn [bind]; try discriminate.
      apply push_async_frame_ret in Hpush. destruct Hpush as [-> _].
      intros Hw. apply (IH _ _ _ _ _ Hs') in Hw. rewrite Hw, Hp, Hg.
      assert (Hr : removelast (walker :: passed new nf after)
                   = walker :: removelast (passed new nf after))
        by reflexivity.
      assert (Hl : last (walker :: passed new nf after) walker
                   = last (passed new nf after) nf).
      { change (last (walker :: passed new nf after) walker)
          with (last (passed new nf after) walker).
        apply last_nonempty_default. }
      rewrite Hr, Hl.
      generalize (removelast (passed new nf after)) as R.
      generalize (last (passed new nf after) nf) as L.
      intros L R.
      unfold update_max, with_queue, bufcount_update_max.
      unfold emit.
      cbn [queue nb_frames nb_queued bufcount events refcount refmax
           length flush_events pushes refusals app].
      rewrite Nat2Z.inj_succ.
      f_equal; [lia | f_equal; lia |].
      rewrite <- !app_assoc. reflexivity.
Qed.


End ReorderFacts.

Section ReorderClaim.

Import VT.

Variable ans : nat -> push_env.


Lemma sorted_filter (f : async_frame -> bool) l :
  StronglySorted le_pts l -> StronglySorted le_pts (filter f l).
Proof.
  induction 1 as [|a l Hs IH Hall]; simpl; [constructor|].
  destruct (f a); [|exact IH].
  constructor; [exact IH|].
  rewrite Forall_forall in *. intros x Hx.
  apply filter_In in Hx. apply Hall. tauto.
Qed.

Lemma last_In {A} (l : list A) : forall a d, In (last (a :: l) d) (a :: l).
Proof.
  induction l as [|b l IH]; intros a d; [left; reflexivity|].
  right. change (last (a :: b :: l) d) with (last (b :: l) d). apply IH.
Qed.


Lemma passed_not_after new walker next x :
  pts walker <= pts new -> In x (passed new walker next) -> pts x <= pts new.
Proof.
  unfold passed. intros Hw [<-|Hx]; [exact Hw|].
  apply filter_In in Hx. destruct Hx as [_ Hx].
  unfold not_after in Hx. apply Z.leb_le in Hx. exact Hx.
Qed.

Lemma inserted_sorted new hd tl :
  StronglySorted le_pts (hd :: tl) ->
  pts hd <= pts new ->
  StronglySorted le_pts
    (last (passed new hd tl) hd :: new :: filter (VT.after new) tl).
Proof.
  intros Hs Hhd.
  assert (Hlast : pts (last (passed new hd tl) hd) <= pts new).
  { apply (passed_not_after new hd tl); [exact Hhd|].
    unfold passed. apply last_In. }
  assert (Hgt : Forall (fun x => pts new < pts x) (filter (VT.after new) tl)).
  { rewrite Forall_forall. intros x Hx.
    apply filter_In in Hx. destruct Hx as [_ Hx].
    unfold VT.after in Hx. apply Z.ltb_lt in Hx. exact Hx. }
  inversion Hs as [|? ? Hs' _]; subst.
  constructor; [constructor|].
  - apply sorted_filter. exact Hs'.
  - eapply Forall_impl; [|exact Hgt]. unfold le_pts. intros x Hx. lia.
  - constructor; [exact Hlast|].
    eapply Forall_impl; [|exact Hgt]. unfold le_pts. intros x Hx. lia.
Qed.

Lemma submitted_app es1 es2 :
  submitted (es1 ++ es2) = submitted es1 ++ submitted es2.
Proof. unfold submitted. apply flat_map_app. Qed.

Lemma submitted_push_events f e : submitted (push_events f e) = [f].
Proof.
  unfold push_events. destruct (dropped e); [reflexivity|].
  destruct (refused e); reflexivity.
Qed.

Lemma submitted_pushes each fl : forall a i,
  submitted each = [] -> submitted (pushes each fl a i) = fl.
Proof.
  induction fl as [|f fl IH]; intros a i Hn; [reflexivity|].
  cbn [pushes]. rewrite !submitted_app, submitted_push_events, Hn, IH by exact Hn.
  reflexivity.
Qed.




(** Whatever becomes of the frames pushed, the buffer an insertion leaves
    is sorted when the buffer it found was. *)
Lemma reorder_insert_keeps_sorted vt new vt' :
  StronglySorted le_pts (queue vt) ->
  reached (reorder_insert vt new ans) = Some vt' ->
  StronglySorted le_pts (queue vt').
Proof.
  intros Hs. unfold reorder_insert.
  destruct (queue vt) as [|hd tl] eqn:Hq.
  - intros [= <-]. simpl. repeat constructor.
  - destruct (Z.ltb_spec (pts new) (pts hd)) as [Hlt|Hge].
    + intros [= <-]. simpl. constructor; [exact Hs|].
      pose proof (sorted_tail_above hd tl new Hs Hlt) as Hall.
      eapply Forall_impl; [|exact Hall]. unfold le_pts. intros x Hx. lia.
    + intros Hr. apply walk_reached in Hr.
      apply (walk_ret ans tl vt new hd 0%nat vt' Hs) in Hr.
      rewrite Hr. cbn [queue].
      apply inserted_sorted; assumption.
Qed.

End ReorderClaim.

Import VT VTExamples.



(** ** Packet submission *)

(** C8. A submission that the platform refuses (nonzero status from the
    decode call): the in-flight counter is stored as zero between a lock
    and an unlock of the decoder's mutex, the condition variable is
    signalled inside that critical section, the call returns
    AVERROR_EXTERNAL, and the packet was handed to the decode call once. *)
Theorem failed_submission_resets_in_flight vt pkt status :
  nb_queued vt < 3 ->
  size pkt <> 0 ->
  status <> 0 ->
  vtdec_push_packet vt pkt true status =
    Ret AVERROR_EXTERNAL
      {| queue := queue vt;
         nb_frames := nb_frames vt;
         nb_queued := 0;
         bufcount := bufcount vt;
         events := events vt ++
           [EvLock; EvUnlock;
            EvLock; EvSetQueued (nb_queued vt + 1); EvSignal; EvUnlock;
            EvDecodeFrame (pkt_pts pkt);
            EvLock; EvSetQueued 0; EvSignal; EvUnlock] |}
  /\ count_decode
       [EvLock; EvUnlock;
        EvLock; EvSetQueued (nb_queued vt + 1); EvSignal; EvUnlock;
        EvDecodeFrame (pkt_pts pkt);
        EvLock; EvSetQueued 0; EvSignal; EvUnlock] = 1%nat.
Proof.
  intros Hq Hsize Hstatus. split; [|reflexivity].
  unfold vtdec_push_packet.
  fails (3 <=? nb_queued vt).
  cbn [emit nb_queued].
  apply Z.eqb_neq in Hsize. rewrite Hsize.
  apply Z.eqb_neq in Hstatus. rewrite Hstatus.
  unfold update_nb_queue, emit. simpl.
  rewrite <- !app_assoc. reflexivity.
Qed.

(** C8 at work: a packet stamped 40 is refused with status 7. *)
Lemma failed_submission_resets_in_flight_witness :
  vtdec_push_packet (session []) (packet 40) true 7 =
    Ret AVERROR_EXTERNAL
      {| queue := [];
         nb_frames := 0;
         nb_queued := 0;
         bufcount := {| refcount := 1; refmax := 4 |};
         events :=
           [EvLock; EvUnlock;
            EvLock; EvSetQueued 1; EvSignal; EvUnlock;
            EvDecodeFrame 40;
            EvLock; EvSetQueued 0; EvSignal; EvUnlock] |}.
Proof.
  refine (proj1 (failed_submission_resets_in_flight
                   (session []) (packet 40) 7 _ _ _)).
  - simpl. lia.
  - simpl. lia.
  - lia.
Defined.

(** ** The buffer-count governor *)

Lemma gov_destroyed_sticky ops : forall g,
  destroyed g = true -> gov_run g ops = g.
Proof.
  induction ops as [|op ops IH]; intros g Hd; [reflexivity|].
  unfold gov_run in *. simpl. unfold gov_step at 2. rewrite Hd. apply IH. exact Hd.
Qed.

(** Under any interleaving, as long as the governor is alive its counters
    are the initial ones plus every delta requested: no update is
    refused, delayed or clamped. *)
Lemma gov_run_counters ops : forall g,
  destroyed (gov_run g ops) = false ->
  counters (gov_run g ops) =
  {| refcount := refcount (counters g) + sum_ref ops;
     refmax := refmax (counters g) + sum_max ops |}.
Proof.
  induction ops as [|op ops IH]; intros g Hd.
  - simpl. destruct (counters g); simpl. f_equal; lia.
  - unfold gov_run in *. cbn [fold_left] in *.
    destruct (destroyed g) eqn:Hg.
    { exfalso. unfold gov_step in Hd at 2. rewrite Hg in Hd.
      pose proof (gov_destroyed_sticky ops g Hg) as E. unfold gov_run in E.
      rewrite E, Hg in Hd. discriminate. }
    destruct (destroyed (gov_step g op)) eqn:Hs.
    { exfalso.
      pose proof (gov_destroyed_sticky ops _ Hs) as E. unfold gov_run in E.
      rewrite E, Hs in Hd. discriminate. }
    rewrite IH by exact Hd.
    revert Hs. unfold gov_step. rewrite Hg.
    destruct op as [n|n|]; cbn [sum_ref sum_max].
    + intros _. simpl. f_equal; lia.
    + unfold bufcount_update_ref, bufcount_settle. cbn [refcount refmax].
      destruct ((0 <? n) && (refmax (counters g) <=? refcount (counters g) + n));
        [|destruct (refcount (counters g) + n =? 0)]; cbn [gov_settled];
        intros Hs; try discriminate; simpl; f_equal; lia.
    + destruct (parked g); [intros _; f_equal; lia|].
      unfold bufcount_update_ref_wake, bufcount_settle.
      destruct (refmax (counters g) <=? refcount (counters g));
        [|destruct (refcount (counters g) =? 0)]; cbn [gov_settled];
        intros Hs; try discriminate; simpl; f_equal; try lia;
        destruct (counters g); simpl; lia.
Qed.

(** The machine sum is the mathematical one as long as this is an int. *)
Lemma int_add_exact a b : is_int (a + b) -> int_add a b = a + b.
Proof.
  unfold is_int, INT_MIN, INT_MAX, int_add. intros H.
  rewrite Z.mod_small by lia. lia.
Qed.

Lemma ints_only_start g ops :
  ints_only g ops ->
  is_int (refcount (counters g)) /\ is_int (refmax (counters g)).
Proof. destruct ops; simpl; tauto. Qed.

Lemma ints_only_end ops : forall g,
  ints_only g ops ->
  is_int (refcount (counters (gov_run g ops)))
  /\ is_int (refmax (counters (gov_run g ops))).
Proof.
  induction ops as [|op ops IH]; intros g H.
  - simpl in *. tauto.
  - cbn [ints_only] in H. destruct H as (_ & _ & _ & H).
    apply IH in H. exact H.
Qed.

(** C5 (amended). As long as the counters and the deltas are ints and no
    sum overflows, the governor applies every delta as it comes:
    adjust_max(n) adds n to refmax, adjust_ref(n) adds n to refcount, and
    neither tests the other counter before storing; so refcount may
    exceed refmax, and either may become negative. What the governor
    enforces is the wait of adjust_ref: with a positive delta the caller
    parks (count already updated, mutex released) exactly when the new
    count reaches refmax, a parked caller stays parked as long as
    refcount >= refmax, and it resumes as soon as refcount < refmax,
    whether a release lowered the count or adjust_max raised the bound.
    Hence a positive adjust_ref returns only with refcount <= refmax - 1.
    A non-positive adjust_ref never parks. *)
Theorem governor_enforces_wait_only b n :
  is_int (refcount b) -> is_int (refmax b) -> is_int n ->
  (is_int (refmax b + n) ->
     bufcount_update_max b n =
       {| refcount := refcount b; refmax := int_add (refmax b) n |}
     /\ int_add (refmax b) n = refmax b + n)
  /\ (forall ops g, ints_only g ops -> destroyed (gov_run g ops) = false ->
        counters (gov_run g ops) =
        {| refcount := refcount (counters g) + sum_ref ops;
           refmax := refmax (counters g) + sum_max ops |}
        /\ is_int (refcount (counters g) + sum_ref ops)
        /\ is_int (refmax (counters g) + sum_max ops))
  /\ (is_int (refcount b + n) ->
      int_add (refcount b) n = refcount b + n
      /\ (0 < n -> refmax b <= refcount b + n ->
          bufcount_update_ref b n =
          Park (Some {| refcount := int_add (refcount b) n;
                        refmax := refmax b |}))
      /\ (0 < n -> refcount b + n < refmax b ->
          exists s, bufcount_update_ref b n = Ret tt s
            /\ (s = Some {| refcount := int_add (refcount b) n;
                            refmax := refmax b |}
                \/ (s = None /\ refcount b + n = 0))
            /\ refcount b + n <= refmax b - 1)
      /\ (n <= 0 -> exists s, bufcount_update_ref b n = Ret tt s))
  /\ (refmax b <= refcount b -> bufcount_update_ref_wake b = Park (Some b))
  /\ (refcount b < refmax b ->
        exists s, bufcount_update_ref_wake b = Ret tt s
          /\ (s = Some b \/ (s = None /\ refcount b = 0))).
Proof.
  intros Hrc Hrm Hn.
  split.
  { intros Hsum. rewrite (int_add_exact _ _ Hsum). split; reflexivity. }
  split.
  { intros ops g Hints Hlive.
    pose proof (gov_run_counters ops g Hlive) as E.
    apply ints_only_end in Hints. rewrite E in Hints. cbn [refcount refmax] in Hints.
    split; [exact E | exact Hints]. }
  unfold bufcount_update_ref, bufcount_update_ref_wake, bufcount_settle.
  cbn [refcount refmax].
  split.
  { intros Hsum. rewrite (int_add_exact _ _ Hsum).
    split; [reflexivity|]. repeat split.
    - intros Hpos Hfull.
      holds (0 <? n).
      holds (refmax b <=? refcount b + n).
      reflexivity.
    - intros Hpos Hroom.
      fails (refmax b <=? refcount b + n).
      rewrite andb_false_r.
      destruct (Z.eqb_spec (refcount b + n) 0) as [E|E].
      + exists None. repeat split; [right; auto | lia].
      + eexists. repeat split; [left; reflexivity | lia].
    - intros Hle.
      fails (0 <? n).
      cbn [andb]. destruct (refcount b + n =? 0); eexists; reflexivity. }
  split.
  - intros Hfull.
    holds (refmax b <=? refcount b).
    reflexivity.
  - intros Hroom.
    fails (refmax b <=? refcount b).
    destruct (Z.eqb_spec (refcount b) 0) as [E|E].
    + exists None. split; [reflexivity | right; auto].
    + exists (Some b). split; [reflexivity | left; reflexivity].
Qed.

(** C5 (amended) at work: with three references out of a bound of four,
    taking one more parks the caller. *)
Lemma governor_enforces_wait_only_witness :
  bufcount_update_ref {| refcount := 3; refmax := 4 |} 1 =
  Park (Some {| refcount := int_add 3 1; refmax := 4 |}).
Proof.
  refine (proj1 (proj2 (proj1 (proj2 (proj2
            (governor_enforces_wait_only {| refcount := 3; refmax := 4 |} 1
               _ _ _))) _)) _ _);
    unfold is_int, INT_MIN, INT_MAX; simpl; lia.
Defined.

(** C5 as stated fails. Four packets stamped 1 to 4 are decoded in order
    and the decoder is flushed while the four frames are still held
    downstream: the flush lowers refmax by the two frames left in the
    reorder buffer, and the governor ends with refcount = 5 above
    refmax = 4. With arbitrary deltas the bound fails at once:
    adjust_max(-4) on a fresh governor leaves refmax = 0 below
    refcount = 1, and adjust_ref(-2) leaves refcount = -1 below 0. *)
Lemma refcount_exceeds_refmax_after_flush :
  (exists vt',
     four_frames_then_flush (session []) = Ret tt vt'
     /\ bufcount vt' = {| refcount := 5; refmax := 4 |}
     /\ refmax (bufcount vt') < refcount (bufcount vt'))
  /\ counters (gov_run gov_init [UpdateMax (-4)])
     = {| refcount := 1; refmax := 0 |}
  /\ counters (gov_run gov_init [UpdateRef (-2)])
     = {| refcount := -1; refmax := 4 |}.
Proof.
  split; [|split; reflexivity].
  eexists. split; [vm_compute; reflexivity|].
  split; reflexivity.
Qed.

(** ** The packet queue *)

Section PacketQueueFacts.

Import Reader.

Lemma packets_have_no_seek l : Forall is_packet l -> count_seeks l = 0%nat.
Proof.
  unfold count_seeks. induction 1 as [|m l Hm _ IH]; [reflexivity|].
  destruct m; [exact IH | contradiction].
Qed.

Lemma packets_seek_only_at_head l : Forall is_packet l -> seek_only_at_head l.
Proof.
  intros H. destruct l; [exact I|]. inversion H; assumption.
Qed.

Lemma seek_only_at_head_snoc l pkt :
  seek_only_at_head l -> seek_only_at_head (l ++ [MsgPacket pkt]).
Proof.
  destruct l as [|m l]; simpl; [constructor|].
  intros H. apply Forall_app. split; [exact H|]. repeat constructor.
Qed.

Lemma pq_step_inv s s' : pq_inv s -> pq_step s s' -> pq_inv s'.
Proof.
  intros [Hhead Hpush] Hstep.
  destruct Hstep as [q ts | q ts q' Hsend | q ts e Hsend | q pkt q' Hsend
                     | q e | q m q' st Hrecv | q e st];
    unfold pq_inv in *; cbn [pq in_push_seek] in *.
  - split; [exact I | reflexivity].
  - apply send_ok_fifo in Hsend. rewrite Hsend, Hpush by discriminate.
    split; [constructor | intros H; contradiction].
  - split; [|intros H; contradiction].
    destruct (e <? 0); exact Hhead.
  - apply send_ok_fifo in Hsend. rewrite Hsend.
    split; [apply seek_only_at_head_snoc; exact Hhead | intros H; contradiction].
  - split; [exact Hhead | intros H; contradiction].
  - apply recv_ok_fifo in Hrecv. rewrite Hrecv in *.
    split.
    + apply packets_seek_only_at_head. exact Hhead.
    + intros H. specialize (Hpush H). discriminate.
  - split; assumption.
Qed.

Lemma pq_reachable_inv n s : pq_reachable n s -> pq_inv s.
Proof.
  induction 1 as [|s s' _ IH Hstep].
  - split; [exact I | intros H; contradiction].
  - eapply pq_step_inv; eassumption.
Qed.

Lemma push_seek_message_ok q ts q' :
  push_seek_message q ts true = Ret 0 q' ->
  MQ.send (MQ.flush q) (MsgSeek ts) = MQ.SendOk q'
  /\ MQ.fifo q' = [MsgSeek ts].
Proof.
  unfold push_seek_message. cbn [negb].
  destruct (MQ.send (MQ.flush q) (MsgSeek ts)) as [q1|e|] eqn:Hsend.
  - intros [= <-]. split; [reflexivity|].
    apply send_ok_fifo in Hsend. exact Hsend.
  - unfold MQ.send in Hsend.
    cbn [MQ.flush MQ.err_send MQ.fifo MQ.nb_elems] in Hsend.
    destruct (Z.eqb_spec (MQ.err_send q) 0) as [E|E]; cbn [negb] in Hsend.
    + destruct (length (@nil message) <? MQ.nb_elems q)%nat; discriminate.
    + injection Hsend as <-.
      destruct (MQ.err_send q <? 0); intros [= H0 _]; contradiction.
  - discriminate.
Qed.

(** C7. In every state the packet queue can reach, at most one Seek is
    pending, and it can only be the oldest message: no Seek stands
    between two packets. Right after [push_seek_message] succeeds the
    queue holds the Seek it sent and nothing else, and that state is one
    the queue can reach. *)
Theorem at_most_one_seek_pending n s :
  pq_reachable n s ->
  (count_seeks (MQ.fifo (pq s)) <= 1)%nat
  /\ (forall l1 p1 mid p2 l2,
        MQ.fifo (pq s) = l1 ++ MsgPacket p1 :: mid ++ MsgPacket p2 :: l2 ->
        (count_seeks mid <= 1)%nat)
  /\ (forall ts q',
        in_push_seek s = None ->
        push_seek_message (pq s) ts true = Ret 0 q' ->
        MQ.fifo q' = [MsgSeek ts]
        /\ count_seeks (MQ.fifo q') = 1%nat
        /\ pq_reachable n {| pq := q'; in_push_seek := None |}).
Proof.
  intros Hreach. pose proof (pq_reachable_inv n s Hreach) as [Hhead _].
  split; [|split].
  - destruct (MQ.fifo (pq s)) as [|m rest]; [unfold count_seeks; simpl; lia|].
    simpl in Hhead. unfold count_seeks. cbn [filter].
    pose proof (packets_have_no_seek rest Hhead) as E. unfold count_seeks in E.
    destruct (is_seek m); simpl; lia.
  - intros l1 p1 mid p2 l2 E. rewrite E in Hhead.
    assert (Hmid : Forall is_packet mid).
    { destruct l1 as [|m l1]; simpl in Hhead.
      - apply Forall_app in Hhead. tauto.
      - apply Forall_app in Hhead. destruct Hhead as [_ H].
        inversion H as [|? ? _ H']; subst.
        apply Forall_app in H'. tauto. }
    rewrite (packets_have_no_seek mid Hmid). lia.
  - intros ts q' Hidle Hpush.
    apply push_seek_message_ok in Hpush. destruct Hpush as [Hsend Hfifo].
    split; [exact Hfifo|]. split; [rewrite Hfifo; reflexivity|].
    destruct s as [q st]. cbn [pq in_push_seek] in *. subst st.
    eapply pq_next; [eapply pq_next; [exact Hreach | apply (reader_flush q ts)]|].
    apply reader_send_seek. exact Hsend.
Qed.

End PacketQueueFacts.

Import Reader ReaderExamples.

(** C7 at work: the queue right after a seek to 7.0 s was pushed. *)
Lemma at_most_one_seek_pending_witness :
  (count_seeks (MQ.fifo (pq seek_queued)) <= 1)%nat.
Proof.
  refine (proj1 (at_most_one_seek_pending 5 seek_queued _)).
  eapply pq_next.
  - eapply pq_next; [apply pq_start | apply (reader_flush _ 7000000)].
  - apply reader_send_seek. reflexivity.
Defined.

(** ** The reader loop *)

Section ReaderFacts.

Variable Src : Type.
Variable seek_cb : Src -> Z -> Z * Src.
Variable pull_packet_cb : Src -> Z * AVPacket * Src.

Local Notation "'iteration'" := (reader_iteration seek_cb pull_packet_cb).

Lemma forward_seek_cases (r : async_reader Src) s ok :
  MQ.err_send (pkt_queue r) <= 0 ->
  (exists r', forward_seek r s ok = Ret 0 r'
              /\ rtrace r' = rtrace r ++ [EvSent (MsgSeek s)]
              /\ MQ.fifo (pkt_queue r') = [MsgSeek s]
              /\ priv_data r' = priv_data r
              /\ ok = true /\ MQ.err_send (pkt_queue r) = 0)
  \/ (exists ret r', forward_seek r s ok = Ret ret r' /\ ret < 0
                     /\ rtrace r' = rtrace r
                     /\ (ok = false \/ MQ.err_send (pkt_queue r) <> 0))
  \/ (exists r', forward_seek r s ok = Park r' /\ rtrace r' = rtrace r
                 /\ MQ.nb_elems (pkt_queue r) = 0%nat).
Proof.
  intros Hlatch. unfold forward_seek, push_seek_message.
  destruct ok; cbn [negb].
  - unfold MQ.send. cbn [MQ.flush MQ.err_send MQ.fifo MQ.nb_elems].
    destruct (Z.eqb_spec (MQ.err_send (pkt_queue r)) 0) as [E|E]; cbn [negb].
    + destruct (Nat.ltb_spec (length (@nil message)) (MQ.nb_elems (pkt_queue r)))
        as [Hroom|Hfull].
      * left. eexists. split; [reflexivity|]. simpl. auto.
      * right. right. eexists. split; [reflexivity|].
        split; [reflexivity | simpl in Hfull; lia].
    + right. left.
      holds (MQ.err_send (pkt_queue r) <? 0).
      do 2 eexists. split; [reflexivity|].
      replace (MQ.err_send (pkt_queue r) =? 0) with false
        by (symmetry; apply Z.eqb_neq; exact E).
      split; [lia | split; [reflexivity | right; exact E]].
  - right. left. do 2 eexists. split; [reflexivity|].
    split; [reflexivity | split; [reflexivity | left; reflexivity]].
Qed.

Lemma pull_phase_trace (r : async_reader Src) ok :
  exists r' tail,
    reached (pull_phase pull_packet_cb r ok) = Some r'
    /\ rtrace r' = rtrace r ++ EvPull :: tail
    /\ forallb (fun e => negb (seek_or_pull e)) tail = true.
Proof.
  unfold pull_phase.
  destruct (pull_packet_cb (priv_data r)) as [[ret pkt] s].
  destruct (ret =? AVERROR EAGAIN).
  { do 2 eexists. split; [reflexivity|]. simpl. rewrite <- app_assoc.
    split; reflexivity. }
  destruct (ret <? 0).
  { exists (log (with_priv_data r s) EvPull), []. repeat split. }
  destruct ok; cbn [negb].
  2:{ exists (log (with_priv_data r s) EvPull), []. repeat split. }
  destruct (MQ.send (pkt_queue (log (with_priv_data r s) EvPull)) (MsgPacket pkt))
    as [q'|e|].
  - do 2 eexists. split; [reflexivity|]. simpl. rewrite <- app_assoc.
    split; reflexivity.
  - destruct (e <? 0).
    + eexists. exists []. split; [reflexivity|]. split; reflexivity.
    + exists (log (with_priv_data r s) EvPull), []. repeat split.
  - exists (log (with_priv_data r s) EvPull), []. repeat split.
Qed.

Lemma iteration_trace (r : async_reader Src) e :
  0 <= request_seek r ->
  MQ.err_send (pkt_queue r) <= 0 ->
  exists r' new,
    reached (iteration r e) = Some r'
    /\ rtrace r' = rtrace r ++ new
    /\ ((new = []
         /\ (0 < lock_ret e \/ 0 < unlock_ret e \/ seek_alloc_ok e = false
             \/ MQ.err_send (pkt_queue r) <> 0
             \/ MQ.nb_elems (pkt_queue r) = 0%nat))
        \/ (new = [EvSent (MsgSeek (request_seek r)); EvSeekCb (request_seek r)]
            /\ fst (seek_cb (priv_data r) (request_seek r)) < 0)
        \/ (exists tail,
              new = EvSent (MsgSeek (request_seek r))
                    :: EvSeekCb (request_seek r) :: EvPull :: tail
              /\ forallb (fun e => negb (seek_or_pull e)) tail = true)).
Proof.
  intros Hseek Hlatch. unfold reader_iteration, AVERROR.
  destruct (Z.ltb_spec (- lock_ret e) 0) as [Hl|Hl].
  { exists r, []. rewrite app_nil_r. repeat split. left. split; [reflexivity|].
    left. lia. }
  destruct (Z.ltb_spec (- unlock_ret e) 0) as [Hu|Hu].
  { eexists. exists []. split; [reflexivity|]. simpl. rewrite app_nil_r.
    split; [reflexivity|]. left. split; [reflexivity|]. right. left. lia. }
  holds (0 <=? request_seek r).
  unfold seek_phase.
  destruct (forward_seek_cases (with_request_seek r (-1)) (request_seek r)
              (seek_alloc_ok e) Hlatch)
    as [(r2 & -> & Htr & _ & Hpriv & _ & _)
       | [(ret & r2 & -> & Hneg & Htr & Hwhy) | (r2 & -> & Htr & Hwhy)]];
    cbn [bind].
  - change (0 <? 0) with false. cbn iota.
    rewrite Hpriv. cbn [priv_data with_request_seek].
    destruct (seek_cb (priv_data r) (request_seek r)) as [ret s'] eqn:Hcb.
    destruct (Z.ltb_spec ret 0) as [Hret|Hret]; cbn [bind].
    + eexists. eexists. split; [reflexivity|]. cbn [rtrace log with_priv_data].
      rewrite Htr. cbn [rtrace with_request_seek]. rewrite <- app_assoc.
      split; [reflexivity|]. right. left. split; [reflexivity | exact Hret].
    + match goal with |- context [pull_phase _ ?r3 ?ok] =>
        destruct (pull_phase_trace r3 ok)
          as (r' & tail & Hr & Htr' & Htail) end.
      exists r', (EvSent (MsgSeek (request_seek r))
                  :: EvSeekCb (request_seek r) :: EvPull :: tail).
      split; [exact Hr|]. rewrite Htr'. cbn [rtrace log with_priv_data].
      rewrite Htr. cbn [rtrace with_request_seek]. rewrite <- !app_assoc.
      split; [reflexivity|]. right. right. exists tail. split; [reflexivity | exact Htail].
  - holds (ret <? 0).
    cbn [bind]. exists r2, []. rewrite app_nil_r.
    split; [reflexivity|]. split; [exact Htr|]. left. split; [reflexivity|].
    destruct Hwhy as [H|H]; auto.
  - exists r2, []. rewrite app_nil_r.
    split; [reflexivity|]. split; [exact Htr|]. left. split; [reflexivity|].
    auto.
Qed.

(** A Seek recorded as sent is in the packet queue, alone: the state in
    which [forward_seek] returns 0. *)
Lemma forward_seek_takes (r : async_reader Src) s ok r1 :
  MQ.err_send (pkt_queue r) <= 0 ->
  forward_seek r s ok = Ret 0 r1 ->
  exists q1,
    push_seek_message (pkt_queue r) s ok = Ret 0 q1
    /\ MQ.fifo q1 = [MsgSeek s]
    /\ r1 = {| request_seek := request_seek r;
               pkt_queue := q1;
               priv_data := priv_data r;
               rtrace := rtrace r ++ [EvSent (MsgSeek s)] |}.
Proof.
  intros Hlatch. unfold forward_seek.
  destruct (push_seek_message (pkt_queue r) s ok) as [ret q1|q1|] eqn:Hp;
    try discriminate.
  intros [= -> <-]. exists q1. split; [reflexivity|].
  split; [|reflexivity].
  destruct ok.
  - apply push_seek_message_ok in Hp. apply Hp.
  - unfold push_seek_message in Hp. cbn [negb] in Hp. discriminate.
Qed.

Lemma pull_phase_fifo (r : async_reader Src) ok r' :
  reached (pull_phase pull_packet_cb r ok) = Some r' ->
  MQ.fifo (pkt_queue r') = MQ.fifo (pkt_queue r)
  \/ exists pkt, MQ.fifo (pkt_queue r') = MQ.fifo (pkt_queue r) ++ [MsgPacket pkt].
Proof.
  unfold pull_phase.
  destruct (pull_packet_cb (priv_data r)) as [[ret pkt] s].
  destruct (ret =? AVERROR EAGAIN); [intros [= <-]; left; reflexivity|].
  destruct (ret <? 0); [intros [= <-]; left; reflexivity|].
  destruct ok; cbn [negb]; [|intros [= <-]; left; reflexivity].
  destruct (MQ.send (pkt_queue (Reader.log (with_priv_data r s) EvPull))
              (MsgPacket pkt)) as [q'|e|] eqn:Hsend.
  - intros [= <-]. right. exists pkt. apply send_ok_fifo in Hsend. exact Hsend.
  - destruct (e <? 0); intros [= <-]; left; reflexivity.
  - intros [= <-]. left. reflexivity.
Qed.

(** Whenever the source's seek callback is invoked, the packet queue has
    taken the Seek message and holds nothing else. *)
Lemma seek_cb_finds_seek_queued (r : async_reader Src) e r' new :
  0 <= request_seek r ->
  MQ.err_send (pkt_queue r) <= 0 ->
  reached (iteration r e) = Some r' ->
  rtrace r' = rtrace r ++ new ->
  In (EvSeekCb (request_seek r)) new ->
  exists q1,
    push_seek_message (pkt_queue r) (request_seek r) (seek_alloc_ok e)
    = Ret 0 q1
    /\ MQ.fifo q1 = [MsgSeek (request_seek r)]
    /\ iteration r e =
       (let r1 := {| request_seek := -1;
                     pkt_queue := q1;
                     priv_data := priv_data r;
                     rtrace := rtrace r ++ [EvSent (MsgSeek (request_seek r))] |} in
        let (ret, src) := seek_cb (priv_data r1) (request_seek r) in
        let r2 := Reader.log (with_priv_data r1 src) (EvSeekCb (request_seek r)) in
        if ret <? 0 then Ret (Break ret) r2
        else pull_phase pull_packet_cb r2 (pkt_alloc_ok e))
    /\ exists pkts,
         MQ.fifo (pkt_queue r') = MsgSeek (request_seek r) :: pkts
         /\ Forall is_packet pkts.
Proof.
  intros Hseek Hlatch Hr Htr Hin.
  assert (Hnone : rtrace r' = rtrace r -> False).
  { intros E. rewrite E in Htr.
    rewrite <- (app_nil_r (rtrace r)) in Htr at 1.
    apply app_inv_head in Htr. subst new. destruct Hin. }
  unfold reader_iteration in *.
  destruct (AVERROR (lock_ret e) <? 0).
  { exfalso. injection Hr as <-. apply Hnone. reflexivity. }
  destruct (AVERROR (unlock_ret e) <? 0).
  { exfalso. injection Hr as <-. apply Hnone. reflexivity. }
  replace (0 <=? request_seek r) with true in *
    by (symmetry; apply Z.leb_le; exact Hseek).
  unfold seek_phase in *.
  destruct (forward_seek_cases (with_request_seek r (-1)) (request_seek r)
              (seek_alloc_ok e) Hlatch)
    as [(r2 & Hf & _) | [(ret & r2 & Hf & Hneg & Htr2 & _) | (r2 & Hf & Htr2 & _)]].
  - destruct (forward_seek_takes (with_request_seek r (-1)) _ _ _ Hlatch Hf)
      as (q1 & Hp & Hq1 & ->).
    cbn [pkt_queue with_request_seek] in Hp.
    exists q1. split; [exact Hp|]. split; [exact Hq1|].
    rewrite Hf in *. cbn [bind] in *. change (0 <? 0) with false in *.
    cbv iota in *.
    cbn [priv_data with_request_seek request_seek rtrace pkt_queue] in *.
    destruct (seek_cb (priv_data r) (request_seek r)) as [ret src].
    split.
    { destruct (ret <? 0); reflexivity. }
    destruct (ret <? 0); cbn [bind] in Hr.
    + injection Hr as <-. exists []. cbn. rewrite Hq1. auto.
    + apply pull_phase_fifo in Hr.
      cbn [pkt_queue Reader.log with_priv_data] in Hr. rewrite Hq1 in Hr.
      destruct Hr as [-> | (pkt & ->)].
      * exists []. auto.
      * exists [MsgPacket pkt]. split; [reflexivity|].
        constructor; [exact I | constructor].
  - exfalso. rewrite Hf in Hr. cbn [bind] in Hr.
    replace (ret <? 0) with true in Hr by (symmetry; apply Z.ltb_lt; exact Hneg).
    cbn [bind] in Hr. injection Hr as <-. apply Hnone. exact Htr2.
  - exfalso. rewrite Hf in Hr. cbn [bind] in Hr.
    injection Hr as <-. apply Hnone. exact Htr2.
Qed.

(** C6. In an iteration of the reader loop that finds a seek pending, the
    events are, in this order: the Seek message entering the packet
    queue, the source's seek callback, the pull of the next packet, each
    present only if the one before happened and succeeded. So whenever
    the seek callback is invoked the Seek message was queued before it,
    and whenever a packet is pulled both happened before, in that order;
    and when nothing fails all three take place. The Seek recorded is in
    the queue: whenever the seek callback is invoked,
    [push_seek_message] has returned 0 leaving the packet queue with the
    Seek message and nothing else, it is with the queue in that state
    that the callback runs and the iteration goes on, and the iteration
    leaves the Seek at the head of the queue, followed by packets
    only. *)
Theorem seek_message_precedes_source_seek (r : async_reader Src) e :
  0 <= request_seek r ->
  MQ.err_send (pkt_queue r) <= 0 ->
  exists r' new,
    reached (iteration r e) = Some r'
    /\ rtrace r' = rtrace r ++ new
    /\ (new = []
        \/ new = [EvSent (MsgSeek (request_seek r)); EvSeekCb (request_seek r)]
        \/ exists tail,
             new = EvSent (MsgSeek (request_seek r))
                   :: EvSeekCb (request_seek r) :: EvPull :: tail
             /\ forallb (fun e => negb (seek_or_pull e)) tail = true)
    /\ (In (EvSeekCb (request_seek r)) new ->
        occurs_before (EvSent (MsgSeek (request_seek r)))
                      (EvSeekCb (request_seek r)) new)
    /\ (In EvPull new ->
        occurs_before (EvSent (MsgSeek (request_seek r)))
                      (EvSeekCb (request_seek r)) new
        /\ occurs_before (EvSeekCb (request_seek r)) EvPull new)
    /\ (lock_ret e <= 0 -> unlock_ret e <= 0 -> seek_alloc_ok e = true ->
        MQ.err_send (pkt_queue r) = 0 ->
        (0 < MQ.nb_elems (pkt_queue r))%nat ->
        0 <= fst (seek_cb (priv_data r) (request_seek r)) ->
        exists tail,
          new = EvSent (MsgSeek (request_seek r))
                :: EvSeekCb (request_seek r) :: EvPull :: tail)
    /\ (In (EvSeekCb (request_seek r)) new ->
        exists q1,
          push_seek_message (pkt_queue r) (request_seek r) (seek_alloc_ok e)
          = Ret 0 q1
          /\ MQ.fifo q1 = [MsgSeek (request_seek r)]
          /\ iteration r e =
             (let r1 :=
                {| request_seek := -1;
                   pkt_queue := q1;
                   priv_data := priv_data r;
                   rtrace := rtrace r ++ [EvSent (MsgSeek (request_seek r))] |} in
              let (ret, src) := seek_cb (priv_data r1) (request_seek r) in
              let r2 := Reader.log (with_priv_data r1 src)
                          (EvSeekCb (request_seek r)) in
              if ret <? 0 then Ret (Break ret) r2
              else pull_phase pull_packet_cb r2 (pkt_alloc_ok e))
          /\ exists pkts,
               MQ.fifo (pkt_queue r') = MsgSeek (request_seek r) :: pkts
               /\ Forall is_packet pkts).
Proof.
  intros Hseek Hlatch.
  destruct (iteration_trace r e Hseek Hlatch)
    as (r' & new & Hr & Htr & Hshape).
  exists r', new. split; [exact Hr|]. split; [exact Htr|].
  assert (Hqueued := seek_cb_finds_seek_queued r e r' new Hseek Hlatch Hr Htr).
  destruct Hshape as [[-> Hwhy] | [[-> Hcb] | (tail & -> & Htail)]].
  - split; [left; reflexivity|]. split; [intros []|]. split; [intros []|].
    split; [|intros []].
    intros H1 H2 H3 H4 H5 _. exfalso.
    destruct Hwhy as [H|[H|[H|[H|H]]]]; try lia; try congruence.
  - split; [right; left; reflexivity|].
    split.
    { intros _. exists [], [], []. reflexivity. }
    split.
    { intros [H|[H|[]]]; discriminate. }
    split; [|exact Hqueued].
    intros _ _ _ _ _ H. lia.
  - split; [right; right; exists tail; split; [reflexivity | exact Htail]|].
    split.
    { intros _. exists [], [], (EvPull :: tail). reflexivity. }
    split.
    { intros _. split.
      - exists [], [], (EvPull :: tail). reflexivity.
      - exists [EvSent (MsgSeek (request_seek r))], [], tail. reflexivity. }
    split; [|exact Hqueued].
    intros _ _ _ _ _ _. exists tail. reflexivity.
Qed.

End ReaderFacts.

(** C6 at work: one iteration with a seek to 5.0 s pending. The Seek is
    then at the head of the packet queue, followed by the packet
    pulled. *)
Lemma seek_message_precedes_source_seek_witness :
  exists r' new,
    reached (reader_iteration seek_to_target ReaderRuns.pull_next seek_pending calm)
    = Some r'
    /\ rtrace r' = rtrace seek_pending ++ new
    /\ new = [EvSent (MsgSeek 5000000); EvSeekCb 5000000; EvPull;
              EvSent (MsgPacket {| data := 0; size := 1024; pkt_pts := 5000000 |})]
    /\ MQ.fifo (pkt_queue r')
       = [MsgSeek 5000000;
          MsgPacket {| data := 0; size := 1024; pkt_pts := 5000000 |}]
    /\ push_seek_message (pkt_queue seek_pending) 5000000 true
       = Ret 0 (MQ.mk [MsgSeek 5000000] 5 0 0).
Proof.
  destruct (seek_message_precedes_source_seek Z seek_to_target ReaderRuns.pull_next
              seek_pending calm)
    as (r' & new & Hr & Htr & _);
    [simpl; lia | simpl; lia |].
  exists r', new. split; [exact Hr|]. split; [exact Htr|].
  vm_compute in Hr. injection Hr as <-.
  vm_compute in Htr. subst new.
  repeat split.
Defined.

(** ** The controller *)

Section ControllerFacts.

Import Controller.







Section GetFrameFacts.

Import Client.

Variable output : Z -> list AVFrame.
Variable dist_time_seek_trigger : Z.





End GetFrameFacts.



Lemma apply_qop_keeps_send_latch q op :
  MQ.err_send (apply_qop q op) = MQ.err_send q.
Proof.
  destruct op as [f| | |e]; simpl; try reflexivity.
  - unfold MQ.send.
    destruct (negb (MQ.err_send q =? 0)); [reflexivity|].
    destruct (length (MQ.fifo q) <? MQ.nb_elems q)%nat; reflexivity.
  - unfold MQ.recv. destruct (MQ.fifo q); [|reflexivity].
    destruct (negb (MQ.err_recv q =? 0)); reflexivity.
Qed.

Lemma apply_qops_keeps_send_latch ops : forall q,
  MQ.err_send (apply_qops q ops) = MQ.err_send q.
Proof.
  unfold apply_qops.
  induction ops as [|op ops IH]; intros q; [reflexivity|].
  simpl. rewrite IH. apply apply_qop_keeps_send_latch.
Qed.

(** C10. When the blocking receive of [async_pop_frame] fails with an
    error (EOF included), the call returns no frame and installs the same
    error as the send latch of the sink queue. From then on, whatever is
    sent to, received from or flushed out of that queue, and whatever
    receive latch is set, every send to it fails with that error. *)
Theorem failed_pop_stops_the_producer a q e :
  sink_queue a = Some q ->
  MQ.recv q = MQ.RecvErr e ->
  e < 0 ->
  async_pop_frame a =
    Ret None (with_sink_queue a (Some (MQ.set_err_send q e)))
  /\ MQ.err_send (MQ.set_err_send q e) = e
  /\ forall ops f,
       MQ.send (apply_qops (MQ.set_err_send q e) ops) f = MQ.SendErr e.
Proof.
  intros Hq Hrecv He.
  split.
  { unfold async_pop_frame. rewrite Hq, Hrecv.
    holds (e <? 0).
    reflexivity. }
  split; [reflexivity|].
  intros ops f. unfold MQ.send.
  rewrite apply_qops_keeps_send_latch. cbn [MQ.set_err_send MQ.err_send].
  fails (e =? 0).
  reflexivity.
Qed.

End ControllerFacts.

Import Controller ControllerExamples.

(** C10 at work: a pop from a sink that is empty and closed at EOF. *)
Lemma failed_pop_stops_the_producer_witness :
  async_pop_frame drained =
    Ret None (with_sink_queue drained
                (Some (MQ.set_err_send (MQ.mk [] 3 0 AVERROR_EOF) AVERROR_EOF)))
  /\ MQ.err_send (MQ.set_err_send (MQ.mk (A:=AVFrame) [] 3 0 AVERROR_EOF) AVERROR_EOF)
     = AVERROR_EOF
  /\ forall ops f,
       MQ.send (apply_qops (MQ.set_err_send (MQ.mk [] 3 0 AVERROR_EOF) AVERROR_EOF)
                           ops) f
       = MQ.SendErr AVERROR_EOF.
Proof.
  apply (failed_pop_stops_the_producer drained
           (MQ.mk [] 3 0 AVERROR_EOF) AVERROR_EOF).
  - reflexivity.
  - reflexivity.
  - vm_compute. reflexivity.
Defined.

(** * Further properties of the VideoToolbox decoder *)

Import VTMore.

Section ReorderMore.

Variable ans : nat -> push_env.

Lemma flush_events_cons f fl i :
  flush_events (f :: fl) ans i =
  push_events f (ans i) ++ EvUpdateMax (-1) :: flush_events fl ans (S i).
Proof. reflexivity. Qed.

(** What one walk does, whatever the order of the buffer. *)
Lemma walk_accounts next : forall vt new walker i vt',
  walk vt new walker next ans i = Ret tt vt' ->
  exists fl,
    events vt' = events vt ++ flush_events fl ans i ++ [EvUpdateMax 1]
    /\ Permutation (fl ++ queue vt') (walker :: next ++ [new])
    /\ nb_frames vt' = nb_frames vt + 1 - Z.of_nat (length fl)
    /\ refmax (bufcount vt') = refmax (bufcount vt) + 1 - Z.of_nat (length fl)
    /\ refcount (bufcount vt')
       = refcount (bufcount vt) - refusals (length fl) ans i
    /\ nb_queued vt' = nb_queued vt.
Proof.
  induction next as [|nf rest IH]; intros vt new walker i vt'.
  - simpl. intros [= <-]. exists []. simpl. repeat split; try lia.
    apply Permutation_refl.
  - cbn [walk]. destruct (pts new <? pts nf).
    + intros [= <-]. exists []. simpl. repeat split; try lia.
      apply perm_skip. change (nf :: rest ++ [new]) with ((nf :: rest) ++ [new]).
      apply Permutation_cons_append.
    + destruct (push_async_frame vt walker (ans i)) as [r v|v|] eqn:Hpush;
        cbn [bind]; try discriminate.
      apply push_async_frame_ret in Hpush. destruct Hpush as [-> _].
      intros Hw. apply IH in Hw.
      destruct Hw as (fl & He & Hp & Hn & Hm & Hc & Hq).
      exists (walker :: fl). rewrite He, Hn, Hm, Hc, Hq.
      unfold update_max, with_queue, bufcount_update_max.
      unfold emit.
      cbn [queue nb_frames nb_queued bufcount events refcount refmax
           length refusals].
      rewrite flush_events_cons, Nat2Z.inj_succ. repeat split; try lia.
      * rewrite <- !app_assoc. reflexivity.
      * cbn [app]. apply perm_skip. exact Hp.
Qed.

(** The walk returns when the governor holds more references than the
    buffer has frames to push. *)
Lemma walk_returns_any next : forall vt new walker i,
  Z.of_nat (length next) < refcount (bufcount vt) ->
  exists vt', walk vt new walker next ans i = Ret tt vt'.
Proof.
  induction next as [|nf rest IH]; intros vt new walker i Hb.
  - simpl. eauto.
  - cbn [walk]. destruct (pts new <? pts nf); [eauto|].
    cbn [length] in Hb. rewrite Nat2Z.inj_succ in Hb.
    destruct (push_async_frame_returns vt walker (ans i)) as (r & v & Hpush);
      [intros _; lia|].
    rewrite Hpush. cbn [bind].
    apply push_async_frame_ret in Hpush. destruct Hpush as [-> _].
    apply IH.
    cbn [bufcount update_max with_queue emit bufcount_update_max refcount].
    destruct (refused (ans i)); lia.
Qed.

(** X5. One insertion into the reorder buffer, whatever its order, loses
    and duplicates nothing. It returns whenever the governor holds more
    references than the buffer has frames, and never parks. When it
    returns, the frames it handed to [push_async_frame] together with
    the buffer it leaves are the former buffer plus the new frame; the
    frame count and the governor's bound both move by one minus the
    number of frames handed over, the reference count drops by the
    number of them the decoding queue refused, and the in-flight count
    is left alone. *)
Theorem reorder_insert_accounts vt new :
  (Z.of_nat (length (queue vt)) < refcount (bufcount vt) ->
   exists vt', reorder_insert vt new ans = Ret tt vt')
  /\ forall vt',
       reached (reorder_insert vt new ans) = Some vt' ->
       reorder_insert vt new ans = Ret tt vt'
       /\ exists fl,
            events vt' = events vt ++ flush_events fl ans 0 ++ [EvUpdateMax 1]
            /\ submitted (flush_events fl ans 0 ++ [EvUpdateMax 1]) = fl
            /\ Permutation (fl ++ queue vt') (queue vt ++ [new])
            /\ nb_frames vt' = nb_frames vt + 1 - Z.of_nat (length fl)
            /\ refmax (bufcount vt')
               = refmax (bufcount vt) + 1 - Z.of_nat (length fl)
            /\ refcount (bufcount vt')
               = refcount (bufcount vt) - refusals (length fl) ans 0
            /\ nb_queued vt' = nb_queued vt.
Proof.
  unfold reorder_insert. destruct (queue vt) as [|hd tl] eqn:Hq.
  - split; [eauto|]. intros vt' [= <-]. split; [reflexivity|].
    exists []. simpl. repeat split; try lia. apply Permutation_refl.
  - destruct (pts new <? pts hd).
    + split; [eauto|]. intros vt' [= <-]. split; [reflexivity|].
      exists []. simpl. repeat split; try lia.
      change (hd :: tl ++ [new]) with ((hd :: tl) ++ [new]).
      apply Permutation_cons_append.
    + split.
      { intros Hb. apply walk_returns_any.
        cbn [length] in Hb. rewrite Nat2Z.inj_succ in Hb. lia. }
      intros vt' Hr. apply walk_reached in Hr. split; [exact Hr|].
      destruct (walk_accounts tl vt new hd 0%nat vt' Hr) as (fl & He & Hp & Hrest).
      exists fl. split; [exact He|].
      split.
      { rewrite submitted_app. unfold flush_events.
        rewrite submitted_pushes by reflexivity. apply app_nil_r. }
      split; [exact Hp | exact Hrest].
Qed.

End ReorderMore.

Section DrainFacts.

Variable ans : nat -> push_env.

Lemma drain_ret push q : forall vt i vt',
  drain vt q push ans i = Ret tt vt' ->
  vt' =
  {| queue := match q with [] => queue vt | _ :: _ => [] end;
     nb_frames := nb_frames vt;
     nb_queued := nb_queued vt;
     bufcount :=
       {| refcount := refcount (bufcount vt)
                      - (if push then refusals (length q) ans i else 0);
          refmax := refmax (bufcount vt) |};
     events := events vt ++ (if push then pushes [] q ans i else []) |}.
Proof.
  induction q as [|f q IH]; intros vt i vt'.
  - simpl. intros [= <-].
    destruct push; rewrite app_nil_r; destruct vt as [qq nf nq [rc rm] es];
      simpl; f_equal; f_equal; lia.
  - cbn [drain]. destruct push.
    + destruct (push_async_frame (with_queue vt q (nb_frames vt)) f (ans i))
        as [r v|v|] eqn:Hpush; cbn [bind]; try discriminate.
      apply push_async_frame_ret in Hpush. destruct Hpush as [-> _].
      intros Hd. apply IH in Hd. rewrite Hd.
      cbn [queue nb_frames nb_queued bufcount events refcount refmax
           with_queue length refusals pushes app].
      rewrite <- app_assoc.
      f_equal; [destruct q; reflexivity | f_equal; lia].
    + intros Hd. apply IH in Hd. rewrite Hd.
      cbn [queue nb_frames nb_queued bufcount events refcount refmax with_queue].
      f_equal. destruct q; reflexivity.
Qed.


Lemma drain_no_park push q : forall vt i vt',
  drain vt q push ans i <> Park vt'.
Proof.
  induction q as [|f q IH]; intros vt i vt'; cbn [drain]; [discriminate|].
  destruct push; [|apply IH].
  destruct (push_async_frame (with_queue vt q (nb_frames vt)) f (ans i))
    as [r v|v|] eqn:Hpush; cbn [bind]; [apply IH | | discriminate].
  exfalso. exact (push_async_frame_no_park _ _ _ _ Hpush).
Qed.

Lemma process_queued_frames_ret vt push vt' :
  process_queued_frames vt push ans = Ret tt vt' ->
  vt' =
  {| queue := [];
     nb_frames := 0;
     nb_queued := nb_queued vt;
     bufcount :=
       {| refcount :=
            refcount (bufcount vt)
            - (if push then refusals (length (queue vt)) ans 0 else 0);
          refmax := refmax (bufcount vt) - nb_frames vt |};
     events := events vt
               ++ (if push then pushes [] (queue vt) ans 0 else [])
               ++ [EvUpdateMax (- nb_frames vt)] |}.
Proof.
  unfold process_queued_frames.
  destruct (drain vt (queue vt) push ans 0) as [[] v|v|] eqn:Hd;
    cbn [bind]; try discriminate.
  apply drain_ret in Hd. subst v. intros [= <-].
  unfold update_max, with_queue, emit, bufcount_update_max. simpl.
  rewrite <- app_assoc.
  replace (refmax (bufcount vt) + - nb_frames vt)
    with (refmax (bufcount vt) - nb_frames vt) by lia.
  destruct (queue vt); reflexivity.
Qed.

Lemma process_queued_frames_reached vt push vt' :
  reached (process_queued_frames vt push ans) = Some vt' ->
  process_queued_frames vt push ans = Ret tt vt'.
Proof.
  unfold process_queued_frames.
  destruct (drain vt (queue vt) push ans 0) as [[] v|v|] eqn:Hd; cbn [bind].
  - intros [= <-]. reflexivity.
  - exfalso. exact (drain_no_park _ _ _ _ _ Hd).
  - discriminate.
Qed.


End DrainFacts.

Section SessionFacts.

Lemma decode_callback_reached vt image ts ans vt' :
  reached (decode_callback vt image ts ans) = Some vt' ->
  match image with
  | None =>
      queue vt' = queue vt /\ nb_frames vt' = nb_frames vt
      /\ refmax (bufcount vt') = refmax (bufcount vt)
      /\ events vt' = events vt ++ [EvLock; EvSetQueued (nb_queued vt - 1);
                                    EvSignal; EvUnlock]
  | Some buffer =>
      exists v,
        reorder_insert vt {| pts := ts; cv_buffer := buffer |} ans = Ret tt v
        /\ queue vt' = queue v
        /\ nb_frames vt' = nb_frames v
        /\ refmax (bufcount vt') = refmax (bufcount v)
        /\ events vt' = events v
                        ++ [EvLock; EvSetQueued (nb_queued vt - 1);
                            EvSignal; EvUnlock; EvUpdateRef 1]
  end
  /\ nb_queued vt' = nb_queued vt - 1.
Proof.
  unfold decode_callback. destruct image as [buffer|].
  - set (new := {| pts := ts; cv_buffer := buffer |}).
    destruct (reorder_insert vt new ans) as [[] v|v|] eqn:Hins; cbn [bind].
    + destruct (proj2 (reorder_insert_accounts ans vt new) v)
        as (_ & fl & _ & _ & _ & _ & _ & _ & Hq);
        [rewrite Hins; reflexivity|].
      unfold bufcount_update_ref, bufcount_settle.
      cbn [bufcount emit update_nb_queue refcount refmax].
      match goal with |- context [if ?c then Park _ else _] => destruct c end.
      * intros [= <-]. cbn. rewrite Hq, <- app_assoc.
        split; [exists v; repeat split; reflexivity | lia].
      * match goal with |- context [if ?c then Ret tt None else _] => destruct c end;
          [discriminate|].
        intros [= <-]. cbn. rewrite Hq, <- app_assoc.
        split; [exists v; repeat split; reflexivity | lia].
    + intros [= <-]. exfalso.
      destruct (proj2 (reorder_insert_accounts ans vt new) v) as [Hret _];
        [rewrite Hins; reflexivity|].
      rewrite Hins in Hret. discriminate.
    + discriminate.
  - intros [= <-]. cbn. repeat split; reflexivity || lia.
Qed.

Lemma deliver_step vt image ts ans rest vt' :
  reached (deliver vt ((image, ts, ans) :: rest)) = Some vt' ->
  exists vt1,
    reached (decode_callback vt image ts ans) = Some vt1
    /\ (decode_callback vt image ts ans = Park vt1 /\ vt' = vt1
        \/ (decode_callback vt image ts ans = Ret tt vt1
            /\ reached (deliver vt1 rest) = Some vt')).
Proof.
  cbn [deliver].
  destruct (decode_callback vt image ts ans) as [[] vt1|vt1|]; cbn [bind].
  - intros H. exists vt1. split; [reflexivity|]. right. auto.
  - intros [= <-]. exists vt1. split; [reflexivity|]. left. auto.
  - discriminate.
Qed.

(** X7. Whatever images the decode callbacks are given, in whatever
    order, and whether the last callback returned or is parked in the
    governor: a sorted reorder buffer stays sorted, and counters that
    follow the buffer (frame count equal to its length, governor bound
    standing a fixed base above it) keep following it. *)
Theorem callbacks_keep_buffer_sorted_and_counted imgs : forall vt base vt',
  StronglySorted le_pts (queue vt) ->
  counters_in_step base vt ->
  reached (deliver vt imgs) = Some vt' ->
  StronglySorted le_pts (queue vt') /\ counters_in_step base vt'.
Proof.
  induction imgs as [|[[image ts] ans] rest IH]; intros vt base vt' Hs Hc Hr.
  - injection Hr as <-. auto.
  - apply deliver_step in Hr. destruct Hr as (vt1 & Hr1 & Hcase).
    assert (H1 : StronglySorted le_pts (queue vt1) /\ counters_in_step base vt1).
    { apply decode_callback_reached in Hr1. destruct Hr1 as [Hr1 _].
      destruct image as [buffer|].
      - destruct Hr1 as (v & Hins & Eq & En & Em & _).
        set (new := {| pts := ts; cv_buffer := buffer |}) in *.
        assert (Hrv : reached (reorder_insert vt new ans) = Some v)
          by (rewrite Hins; reflexivity).
        split.
        + rewrite Eq. apply (reorder_insert_keeps_sorted ans vt new v Hs Hrv).
        + destruct Hc as [Hn Hm].
          destruct (proj2 (reorder_insert_accounts ans vt new) v Hrv)
            as (_ & fl & _ & _ & Hp & Hn' & Hm' & _ & _).
          unfold counters_in_step. rewrite Eq, En, Em, Hn', Hm'.
          apply Permutation_length in Hp. rewrite !length_app in Hp.
          simpl in Hp. split; lia.
      - destruct Hr1 as (Eq & En & Em & _).
        unfold counters_in_step. rewrite Eq, En, Em. auto. }
    destruct Hcase as [[_ ->] | [_ Hrest]]; [exact H1|].
    destruct H1 as [Hs1 Hc1]. apply (IH vt1 base vt' Hs1 Hc1 Hrest).
Qed.

Lemma deliver_conserves imgs : forall vt vt',
  deliver vt imgs = Ret tt vt' ->
  Permutation (submitted (events vt') ++ queue vt')
              (submitted (events vt) ++ queue vt ++ frames_of imgs).
Proof.
  induction imgs as [|[[image ts] ans] rest IH]; intros vt vt' Hd.
  - injection Hd as <-. simpl. rewrite app_nil_r. apply Permutation_refl.
  - assert (Hr : reached (deliver vt ((image, ts, ans) :: rest)) = Some vt')
      by (rewrite Hd; reflexivity).
    apply deliver_step in Hr. destruct Hr as (vt1 & Hr1 & Hcase).
    destruct Hcase as [[Hp _] | [Hret Hrest]].
    { cbn [deliver] in Hd. rewrite Hp in Hd. discriminate. }
    cbn [deliver] in Hd. rewrite Hret in Hd. cbn [bind] in Hd.
    apply IH in Hd. eapply Permutation_trans; [exact Hd|].
    apply decode_callback_reached in Hr1. destruct Hr1 as [Hr1 _].
    destruct image as [buffer|].
    + destruct Hr1 as (v & Hins & Eq & _ & _ & Ee).
      set (new := {| pts := ts; cv_buffer := buffer |}) in *.
      assert (Hrv : reached (reorder_insert vt new ans) = Some v)
        by (rewrite Hins; reflexivity).
      destruct (proj2 (reorder_insert_accounts ans vt new) v Hrv)
        as (_ & fl & He & Hsub & Hp & _).
      rewrite Ee, Eq, He. rewrite !submitted_app.
      cbn [frames_of]. fold new.
      replace (submitted [EvLock; EvSetQueued (nb_queued vt - 1); EvSignal;
                          EvUnlock; EvUpdateRef 1]) with (@nil async_frame)
        by reflexivity.
      rewrite submitted_app in Hsub. rewrite Hsub.
      rewrite !app_nil_r, <- !app_assoc.
      apply Permutation_app_head.
      change (new :: frames_of rest) with ([new] ++ frames_of rest).
      rewrite !app_assoc. apply Permutation_app_tail.
      exact Hp.
    + destruct Hr1 as (Eq & _ & _ & Ee). rewrite Ee, Eq, submitted_app.
      simpl. rewrite app_nil_r. apply Permutation_refl.
Qed.

Lemma fates_partition es :
  length (submitted es) = (length (pushed es) + push_failures es)%nat.
Proof.
  induction es as [|e es IH]; [reflexivity|].
  destruct e; simpl; rewrite ?IH; lia.
Qed.

(** X8. Every image decoded is handed to [push_async_frame] exactly once
    by the time a flush returns: after any callbacks followed by
    [vtdec_flush], the frames handed over are those handed over before,
    the frames the buffer held and one frame per non-NULL image; the
    buffer is empty, the frame count is zero, and the flush ends by
    pushing the NULL frame. The frames that went downstream are those
    handed over less the ones that were refused or found no memory. *)
Theorem flush_delivers_every_decoded_frame vt imgs ans vt1 vt2 :
  deliver vt imgs = Ret tt vt1 ->
  vtdec_flush vt1 ans = Ret tt vt2 ->
  Permutation (submitted (events vt2))
              (submitted (events vt) ++ queue vt ++ frames_of imgs)
  /\ length (submitted (events vt2))
     = (length (pushed (events vt2)) + push_failures (events vt2))%nat
  /\ queue vt2 = []
  /\ nb_frames vt2 = 0
  /\ exists es, events vt2 = es ++ [EvPushNull].
Proof.
  intros Hd Hf. apply deliver_conserves in Hd.
  split; [|split; [apply fates_partition|]].
  - unfold vtdec_flush in Hf. cbn [emit nb_queued] in Hf.
    destruct (0 <? nb_queued vt1); [discriminate|].
    match type of Hf with context [process_queued_frames ?v true ans] =>
      destruct (process_queued_frames v true ans) as [[] w|w|] eqn:Hp;
      cbn [bind] in Hf; try discriminate;
      apply process_queued_frames_ret in Hp end.
    injection Hf as <-. subst w.
    cbn [emit events queue nb_frames].
    rewrite !submitted_app.
    rewrite submitted_pushes by reflexivity. simpl. rewrite !app_nil_r. exact Hd.
  - unfold vtdec_flush in Hf. cbn [emit nb_queued] in Hf.
    destruct (0 <? nb_queued vt1); [discriminate|].
    match type of Hf with context [process_queued_frames ?v true ans] =>
      destruct (process_queued_frames v true ans) as [[] w|w|] eqn:Hp;
      cbn [bind] in Hf; try discriminate;
      apply process_queued_frames_ret in Hp end.
    injection Hf as <-. subst w.
    cbn [emit events queue nb_frames].
    split; [reflexivity|]. split; [reflexivity|].
    eexists. reflexivity.
Qed.

End SessionFacts.

Import VTCount.


(** X7 at work: images stamped 3, 1, 2 decoded into an empty session. *)
Lemma callbacks_keep_buffer_sorted_and_counted_witness :
  StronglySorted le_pts (queue delivered_312)
  /\ counters_in_step 4 delivered_312.
Proof.
  apply (callbacks_keep_buffer_sorted_and_counted
           [(Some 3%nat, 3, all_taken); (Some 1%nat, 1, all_taken);
            (Some 2%nat, 2, all_taken)]
           (session []) 4 delivered_312).
  - constructor.
  - split; reflexivity.
  - vm_compute. reflexivity.
Defined.

(** X8 at work: images stamped 3, 1, 2, 4 decoded into an empty
    session, the second push of the last callback being refused, then a
    flush whose second push is refused. *)
Lemma flush_delivers_every_decoded_frame_witness :
  Permutation (submitted (events flushed_3124))
              (submitted (events (session [])) ++ queue (session [])
               ++ frames_of images_3124)
  /\ length (submitted (events flushed_3124))
     = (length (pushed (events flushed_3124))
        + push_failures (events flushed_3124))%nat
  /\ queue flushed_3124 = []
  /\ nb_frames flushed_3124 = 0
  /\ exists es, events flushed_3124 = es ++ [EvPushNull].
Proof.
  apply (flush_delivers_every_decoded_frame (session []) images_3124
           second_refused delivered_3124 flushed_3124).
  - vm_compute. reflexivity.
  - vm_compute. reflexivity.
Defined.

Section InFlightFacts.

Lemma push_packet_reached vt pkt sample_ok status vt' :
  reached (vtdec_push_packet vt pkt sample_ok status) = Some vt' ->
  queue vt' = queue vt /\ nb_frames vt' = nb_frames vt
  /\ bufcount vt' = bufcount vt
  /\ (nb_queued vt <= 3 -> nb_queued vt' <= 3).
Proof.
  unfold vtdec_push_packet.
  destruct (Z.leb_spec 3 (nb_queued vt)) as [Hfull|Hroom].
  - intros [= <-]. cbn. auto.
  - cbn [emit nb_queued]. destruct (size pkt =? 0).
    + intros [= <-]. cbn. repeat split; lia.
    + destruct sample_ok; cbn [negb].
      * destruct (status =? 0); cbn [negb]; intros [= <-]; cbn;
          repeat split; lia.
      * intros [= <-]. cbn. repeat split; lia.
Qed.

Lemma vtdec_flush_reached vt ans vt' :
  reached (vtdec_flush vt ans) = Some vt' ->
  (vtdec_flush vt ans = Park vt' /\ nb_queued vt' = nb_queued vt)
  \/ (vtdec_flush vt ans = Ret tt vt'
      /\ nb_queued vt' = nb_queued vt
      /\ events vt' =
         events vt ++ [EvFinishDelayedFrames; EvWaitForAsynchronousFrames;
                       EvLock; EvUnlock]
         ++ pushes [] (queue vt) ans 0
         ++ [EvUpdateMax (- nb_frames vt); EvPushNull]).
Proof.
  unfold vtdec_flush. cbn [emit nb_queued].
  destruct (0 <? nb_queued vt).
  - intros [= <-]. left. split; reflexivity.
  - match goal with |- context [process_queued_frames ?v true ans] =>
      destruct (process_queued_frames v true ans) as [[] w|w|] eqn:Hp;
      cbn [bind] end.
    + intros [= <-]. right. split; [reflexivity|].
      apply process_queued_frames_ret in Hp. subst w.
      cbn [emit nb_queued events queue nb_frames].
      split; [reflexivity|]. rewrite <- !app_assoc. reflexivity.
    + intros _. exfalso.
      assert (Hr : reached (process_queued_frames
                     (emit (emit vt [EvFinishDelayedFrames;
                                     EvWaitForAsynchronousFrames])
                           [EvLock; EvUnlock]) true ans) = Some w)
        by (unfold emit in *; cbn in *; rewrite Hp; reflexivity).
      apply process_queued_frames_reached in Hr.
      unfold emit in *. cbn in *. rewrite Hp in Hr. discriminate.
    + discriminate.
Qed.

Lemma vt_exec_bound vt op vt' :
  nb_queued vt <= 3 ->
  reached (vt_exec vt op) = Some vt' -> nb_queued vt' <= 3.
Proof.
  intros Hb. destruct op as [pkt ok st|image ts ans|ans]; cbn [vt_exec].
  - destruct (vtdec_push_packet vt pkt ok st) as [r v|v|] eqn:Hp;
      cbn [bind]; [| |discriminate]; intros [= <-];
      (apply (push_packet_reached vt pkt ok st);
       [rewrite Hp; reflexivity | exact Hb]).
  - intros H. apply decode_callback_reached in H. lia.
  - intros H. apply vtdec_flush_reached in H.
    destruct H as [[_ E] | (_ & E & _)]; lia.
Qed.

(** X9. Whatever packets are pushed (accepted or refused by the
    platform), whatever callbacks fire and whenever the session is
    flushed, the in-flight counter never exceeds 3 at any point where a
    call has returned or is parked. *)
Theorem in_flight_never_exceeds_three ops : forall vt vt',
  nb_queued vt <= 3 ->
  reached (vt_run vt ops) = Some vt' ->
  nb_queued vt' <= 3.
Proof.
  induction ops as [|op ops IH]; intros vt vt' Hb.
  - intros [= <-]. exact Hb.
  - cbn [vt_run].
    destruct (vt_exec vt op) as [[] v|v|] eqn:He; cbn [bind]; [| |discriminate].
    + apply IH. apply (vt_exec_bound vt op); [exact Hb | rewrite He; reflexivity].
    + intros [= <-].
      apply (vt_exec_bound vt op); [exact Hb | rewrite He; reflexivity].
Qed.

Lemma count_decode_app es1 es2 :
  count_decode (es1 ++ es2) = (count_decode es1 + count_decode es2)%nat.
Proof.
  induction es1 as [|e es1 IH]; [reflexivity|].
  destruct e; simpl; rewrite IH; reflexivity.
Qed.

Lemma count_decode_pushes each fl : forall a i,
  count_decode each = 0%nat -> count_decode (pushes each fl a i) = 0%nat.
Proof.
  induction fl as [|f fl IH]; intros a i Hn; [reflexivity|].
  cbn [pushes]. rewrite !count_decode_app, Hn, IH by exact Hn.
  unfold push_events. destruct (dropped (a i)); [reflexivity|].
  destruct (refused (a i)); reflexivity.
Qed.

Lemma vt_exec_counts vt op vt' :
  accepted op ->
  vt_exec vt op = Ret tt vt' ->
  nb_queued vt' = nb_queued vt
                  + (if submits op then 1 else 0)
                  - (if is_callback op then 1 else 0)
  /\ count_decode (events vt')
     = (count_decode (events vt) + (if submits op then 1 else 0))%nat.
Proof.
  intros Hacc. destruct op as [pkt ok st|image ts ans|ans];
    cbn [vt_exec submits is_callback].
  - simpl in Hacc. subst st. unfold vtdec_push_packet.
    destruct (3 <=? nb_queued vt); [discriminate|].
    cbn [emit nb_queued bind].
    destruct (size pkt =? 0); cbn [negb andb bind].
    + intros [= <-]. cbn. rewrite !count_decode_app. simpl. split; lia.
    + destruct ok; cbn [negb bind].
      * change (0 =? 0) with true. cbn [negb].
        intros [= <-]. cbn. rewrite !count_decode_app. simpl. split; lia.
      * intros [= <-]. cbn. rewrite !count_decode_app. simpl. split; lia.
  - intros H.
    assert (Hr : reached (decode_callback vt image ts ans) = Some vt')
      by (rewrite H; reflexivity).
    apply decode_callback_reached in Hr. destruct Hr as [Hev Hq].
    split; [lia|].
    destruct image as [buffer|].
    + destruct Hev as (v & Hins & _ & _ & _ & Ee).
      assert (Hrv : reached (reorder_insert vt
                       {| pts := ts; cv_buffer := buffer |} ans) = Some v)
        by (rewrite Hins; reflexivity).
      destruct (proj2 (reorder_insert_accounts ans vt _) v Hrv)
        as (_ & fl & He & _).
      rewrite Ee, He, !count_decode_app. unfold flush_events.
      rewrite count_decode_pushes by reflexivity.
      simpl. lia.
    + destruct Hev as (_ & _ & _ & Ee). rewrite Ee, count_decode_app. simpl. lia.
  - intros H.
    assert (Hr : reached (vtdec_flush vt ans) = Some vt')
      by (rewrite H; reflexivity).
    apply vtdec_flush_reached in Hr.
    destruct Hr as [[Hp _] | (_ & Eq & Ee)]; [rewrite Hp in H; discriminate|].
    split; [lia|].
    rewrite Ee, !count_decode_app, count_decode_pushes by reflexivity.
    simpl. lia.
Qed.

(** X10. As long as the platform refuses no submission, the in-flight
    counter is exact: after any operations that all returned, it has
    grown by the number of packets handed to the platform decoder minus
    the number of callbacks fired, and the platform decoder was called
    once per such packet. *)
Theorem in_flight_counts_submissions_minus_callbacks ops : forall vt vt',
  Forall accepted ops ->
  vt_run vt ops = Ret tt vt' ->
  nb_queued vt' = nb_queued vt + Z.of_nat (submissions ops)
                  - Z.of_nat (callbacks ops)
  /\ count_decode (events vt')
     = (count_decode (events vt) + submissions ops)%nat.
Proof.
  induction ops as [|op ops IH]; intros vt vt' Hacc.
  - intros [= <-]. unfold submissions, callbacks. simpl. split; lia.
  - inversion Hacc as [|? ? Hop Hrest]; subst.
    cbn [vt_run].
    destruct (vt_exec vt op) as [[] v|v|] eqn:He; cbn [bind]; try discriminate.
    intros Hrun. destruct (IH v vt' Hrest Hrun) as [Hq Hc].
    destruct (vt_exec_counts vt op v Hop He) as [Hq1 Hc1].
    unfold submissions, callbacks in *. cbn [filter].
    destruct (submits op); destruct (is_callback op); cbn [length];
      rewrite Hq, Hc, Hq1, Hc1; split; lia.
Qed.

End InFlightFacts.

(** X9 and X10 at work: two packets, one callback, a third packet. *)
Lemma in_flight_never_exceeds_three_witness :
  nb_queued busy_session_end <= 3.
Proof.
  apply (in_flight_never_exceeds_three busy_session (session [])
           busy_session_end).
  - simpl. lia.
  - vm_compute. reflexivity.
Defined.

Lemma in_flight_counts_submissions_minus_callbacks_witness :
  nb_queued busy_session_end
  = nb_queued (session []) + Z.of_nat (submissions busy_session)
    - Z.of_nat (callbacks busy_session)
  /\ count_decode (events busy_session_end)
     = (count_decode (events (session [])) + submissions busy_session)%nat.
Proof.
  apply (in_flight_counts_submissions_minus_callbacks busy_session
           (session []) busy_session_end).
  - repeat constructor.
  - vm_compute. reflexivity.
Defined.

Section GovernorLife.

Lemma release_step g :
  destroyed g = false ->
  gov_step g (UpdateRef (-1)) =
  if refcount (counters g) - 1 =? 0
  then {| counters := {| refcount := 0; refmax := refmax (counters g) |};
          parked := parked g; destroyed := true |}
  else {| counters := {| refcount := refcount (counters g) - 1;
                         refmax := refmax (counters g) |};
          parked := parked g; destroyed := false |}.
Proof.
  intros Hd. unfold gov_step. rewrite Hd.
  unfold bufcount_update_ref, bufcount_settle. cbn [refcount refmax andb Z.ltb Z.compare].
  replace (refcount (counters g) + -1) with (refcount (counters g) - 1) by lia.
  destruct (refcount (counters g) - 1 =? 0); reflexivity.
Qed.

Lemma releases_succ g j :
  gov_run g (releases (S j)) = gov_run (gov_step g (UpdateRef (-1))) (releases j).
Proof. reflexivity. Qed.

(** X11. The governor outlives the decoder's context exactly as long as
    pixel buffers are held outside: with [k] buffers outstanding besides
    the context's own reference, no release ever parks, the first [k]
    releases (by [buffer_release] or by [vtdec_uninit], in any order)
    only lower the count, and the release after them destroys the
    governor. *)
Theorem governor_dies_with_last_reference k : forall g j,
  destroyed g = false ->
  refcount (counters g) = 1 + Z.of_nat k ->
  (j <= k)%nat ->
  gov_run g (releases j) =
    {| counters := {| refcount := 1 + Z.of_nat k - Z.of_nat j;
                      refmax := refmax (counters g) |};
       parked := parked g; destroyed := false |}
  /\ destroyed (gov_run g (releases (S k))) = true.
Proof.
  induction k as [|k IH]; intros g j Hd Hc Hj.
  - assert (j = 0)%nat by lia. subst j. split.
    + simpl. destruct g as [[rc rm] p dd]. simpl in *. subst. reflexivity.
    + unfold gov_run, releases. simpl. rewrite release_step by exact Hd.
      rewrite Hc. reflexivity.
  - assert (Hstep : gov_step g (UpdateRef (-1)) =
              {| counters := {| refcount := 1 + Z.of_nat k;
                                refmax := refmax (counters g) |};
                 parked := parked g; destroyed := false |}).
    { rewrite release_step by exact Hd.
      fails (refcount (counters g) - 1 =? 0).
      f_equal. f_equal. lia. }
    set (g1 := {| counters := {| refcount := 1 + Z.of_nat k;
                                 refmax := refmax (counters g) |};
                  parked := parked g; destroyed := false |}) in *.
    split.
    + destruct j as [|j].
      * simpl. destruct g as [[rc rm] p dd]. simpl in *. subst.
        f_equal.
      * rewrite releases_succ, Hstep.
        destruct (IH g1 j eq_refl eq_refl ltac:(lia)) as [E _].
        rewrite E. unfold g1. cbn [counters refmax parked].
        f_equal. f_equal. lia.
    + rewrite releases_succ, Hstep.
      destruct (IH g1 0%nat eq_refl eq_refl ltac:(lia)) as [_ E].
      exact E.
Qed.


End GovernorLife.

(** X11 at work: two buffers outstanding, one release. *)
Lemma governor_dies_with_last_reference_witness :
  gov_run (holding 2) (releases 1) =
    {| counters := {| refcount := 1 + Z.of_nat 2 - Z.of_nat 1;
                      refmax := refmax (counters (holding 2)) |};
       parked := parked (holding 2); destroyed := false |}
  /\ destroyed (gov_run (holding 2) (releases 3)) = true.
Proof.
  apply (governor_dies_with_last_reference 2 (holding 2) 1).
  - reflexivity.
  - reflexivity.
  - lia.
Defined.

(** * Further properties of the reader worker *)

Import Reader ReaderExamples ReaderMore.

Section SeekMessageFacts.

(** X12. What [push_seek_message] leaves behind when it returns. When
    the allocation fails it returns AVERROR(ENOMEM) and the queue is
    untouched, pending packets included. Otherwise the pending messages
    are dropped, and either the call returns 0 and the queue holds the
    Seek alone, or the queue carries a send latch, the call returns it,
    no Seek is queued, and a negative latch is copied to the receive
    side. *)
Theorem push_seek_message_outcomes q ts alloc_ok r q' :
  push_seek_message q ts alloc_ok = Ret r q' ->
  (alloc_ok = false /\ r = AVERROR ENOMEM /\ q' = q)
  \/ (alloc_ok = true /\ r = 0 /\ MQ.err_send q = 0
      /\ q' = MQ.mk [MsgSeek ts] (MQ.nb_elems q) 0 (MQ.err_recv q))
  \/ (alloc_ok = true /\ r = MQ.err_send q /\ r <> 0
      /\ MQ.fifo q' = [] /\ MQ.err_send q' = r
      /\ MQ.err_recv q' = (if r <? 0 then r else MQ.err_recv q)).
Proof.
  unfold push_seek_message. destruct alloc_ok; cbn [negb].
  - unfold MQ.send. cbn [MQ.flush MQ.err_send MQ.fifo MQ.nb_elems MQ.err_recv].
    destruct (Z.eqb_spec (MQ.err_send q) 0) as [E|E]; cbn [negb].
    + destruct (length (@nil message) <? MQ.nb_elems q)%nat; [|discriminate].
      intros [= <- <-]. right. left. rewrite E. auto.
    + destruct (MQ.err_send q <? 0) eqn:Hneg; intros [= <- <-];
        right; right; cbn; rewrite ?Hneg; auto 10.
  - intros [= <- <-]. left. auto.
Qed.

End SeekMessageFacts.

(** X12 at work: a seek pushed onto a queue holding two packets, the
    allocation having failed. *)
Lemma push_seek_message_outcomes_witness :
  (false = false /\ AVERROR ENOMEM = AVERROR ENOMEM /\ two_packets = two_packets)
  \/ (false = true /\ AVERROR ENOMEM = 0 /\ MQ.err_send two_packets = 0
      /\ two_packets = MQ.mk [MsgSeek 7000000] (MQ.nb_elems two_packets) 0
                         (MQ.err_recv two_packets))
  \/ (false = true /\ AVERROR ENOMEM = MQ.err_send two_packets
      /\ AVERROR ENOMEM <> 0
      /\ MQ.fifo two_packets = [] /\ MQ.err_send two_packets = AVERROR ENOMEM
      /\ MQ.err_recv two_packets
         = (if AVERROR ENOMEM <? 0 then AVERROR ENOMEM
            else MQ.err_recv two_packets)).
Proof.
  apply (push_seek_message_outcomes two_packets 7000000 false
           (AVERROR ENOMEM) two_packets).
  reflexivity.
Defined.

Section ReaderMoreFacts.

Variable Src : Type.
Variable seek_cb : Src -> Z -> Z * Src.
Variable pull_packet_cb : Src -> Z * AVPacket * Src.

Local Notation "'iteration'" := (reader_iteration seek_cb pull_packet_cb).

Lemma forward_seek_keeps_request (r : async_reader Src) s ok r' :
  reached (forward_seek r s ok) = Some r' -> request_seek r' = request_seek r.
Proof.
  unfold forward_seek.
  destruct (push_seek_message (pkt_queue r) s ok) as [ret q'|q'|];
    [| |discriminate].
  - destruct (ret =? 0); intros [= <-]; reflexivity.
  - intros [= <-]. reflexivity.
Qed.

Lemma seek_phase_keeps_request (r : async_reader Src) s ok r' :
  reached (seek_phase seek_cb r s ok) = Some r' ->
  request_seek r' = request_seek r.
Proof.
  unfold seek_phase.
  destruct (forward_seek r s ok) as [ret r1|r1|] eqn:Hf; cbn [bind];
    [| |discriminate].
  - assert (E : request_seek r1 = request_seek r)
      by (apply (forward_seek_keeps_request r s ok); rewrite Hf; reflexivity).
    destruct (ret <? 0); [intros [= <-]; exact E|].
    destruct (seek_cb (priv_data r1) s) as [ret' s'].
    destruct (ret' <? 0); intros [= <-]; exact E.
  - intros [= <-].
    apply (forward_seek_keeps_request r s ok). rewrite Hf. reflexivity.
Qed.

Lemma pull_phase_keeps_request (r : async_reader Src) ok r' :
  reached (pull_phase pull_packet_cb r ok) = Some r' ->
  request_seek r' = request_seek r.
Proof.
  unfold pull_phase.
  destruct (pull_packet_cb (priv_data r)) as [[ret pkt] s].
  destruct (ret =? AVERROR EAGAIN); [intros [= <-]; reflexivity|].
  destruct (ret <? 0); [intros [= <-]; reflexivity|].
  destruct ok; cbn [negb]; [|intros [= <-]; reflexivity].
  destruct (MQ.send _ _) as [q'|e|].
  - intros [= <-]. reflexivity.
  - destruct (e <? 0); intros [= <-]; reflexivity.
  - intros [= <-]. reflexivity.
Qed.

Lemma iteration_clears_request (r : async_reader Src) e r' :
  lock_ret e <= 0 ->
  reached (iteration r e) = Some r' ->
  request_seek r' = -1.
Proof.
  intros Hlock. unfold reader_iteration, AVERROR.
  fails (- lock_ret e <? 0).
  destruct (- unlock_ret e <? 0); [intros [= <-]; reflexivity|].
  destruct (0 <=? request_seek r).
  - destruct (seek_phase seek_cb (with_request_seek r (-1)) (request_seek r)
                (seek_alloc_ok e)) as [c r1|r1|] eqn:Hs; cbn [bind];
      [| |discriminate].
    + assert (E : request_seek r1 = -1).
      { rewrite (seek_phase_keeps_request (with_request_seek r (-1))
                   (request_seek r) (seek_alloc_ok e) r1);
          [reflexivity | rewrite Hs; reflexivity]. }
      destruct c as [|ret]; [|intros [= <-]; exact E].
      intros H. apply pull_phase_keeps_request in H. lia.
    + intros [= <-].
      rewrite (seek_phase_keeps_request (with_request_seek r (-1))
                 (request_seek r) (seek_alloc_ok e) r1);
        [reflexivity | rewrite Hs; reflexivity].
  - cbn [bind]. intros H. apply pull_phase_keeps_request in H.
    rewrite H. reflexivity.
Qed.

Lemma no_pull_no_seek tail :
  forallb (fun e => negb (seek_or_pull e)) tail = true ->
  forallb (fun e => negb (about_seek e)) tail = true.
Proof.
  induction tail as [|e tail IH]; [reflexivity|].
  cbn [forallb]. rewrite !andb_true_iff. intros [He Ht].
  split; [|apply IH; exact Ht].
  destruct e as [[p|t]|t| |]; simpl in *; congruence.
Qed.

Lemma iteration_without_request (r : async_reader Src) e r' :
  request_seek r < 0 ->
  reached (iteration r e) = Some r' ->
  exists new, rtrace r' = rtrace r ++ new
              /\ forallb (fun ev => negb (about_seek ev)) new = true.
Proof.
  intros Hneg. unfold reader_iteration.
  destruct (AVERROR (lock_ret e) <? 0).
  { intros [= <-]. exists []. rewrite app_nil_r. auto. }
  destruct (AVERROR (unlock_ret e) <? 0).
  { intros [= <-]. exists []. simpl. rewrite app_nil_r. auto. }
  fails (0 <=? request_seek r). cbn [bind].
  destruct (pull_phase_trace Src pull_packet_cb (with_request_seek r (-1))
              (pkt_alloc_ok e)) as (r2 & tail & Hr & Htr & Htail).
  rewrite Hr. intros [= <-]. exists (EvPull :: tail).
  split; [exact Htr|]. cbn [forallb about_seek negb andb].
  apply no_pull_no_seek. exact Htail.
Qed.

(** X13. A seek request is forwarded at most once. An iteration that
    took the lock leaves [request_seek] at -1, and the iteration that
    follows it (no new request having been made) neither sends a Seek
    message nor invokes the source's seek callback. *)
Theorem seek_request_is_consumed_once (r : async_reader Src) e1 e2 r1 r2 :
  lock_ret e1 <= 0 ->
  reached (iteration r e1) = Some r1 ->
  reached (iteration r1 e2) = Some r2 ->
  request_seek r1 = -1
  /\ exists new, rtrace r2 = rtrace r1 ++ new
                 /\ forallb (fun ev => negb (about_seek ev)) new = true.
Proof.
  intros Hlock H1 H2.
  assert (E : request_seek r1 = -1)
    by (apply (iteration_clears_request r e1); assumption).
  split; [exact E|].
  apply (iteration_without_request r1 e2); [lia | exact H2].
Qed.

(** X14. Once the decoder has left its error on the send side of the
    packet queue, an iteration that finds a seek pending ends the loop
    with that error: the request is consumed, no Seek is queued, the
    source is neither sought nor pulled, and the error is copied to the
    receive side of the queue. *)
Theorem pending_seek_is_dropped_when_decoder_is_gone (r : async_reader Src) e :
  0 <= request_seek r ->
  MQ.err_send (pkt_queue r) < 0 ->
  lock_ret e <= 0 -> unlock_ret e <= 0 -> seek_alloc_ok e = true ->
  iteration r e =
    Ret (Break (MQ.err_send (pkt_queue r)))
      {| request_seek := -1;
         pkt_queue := MQ.mk [] (MQ.nb_elems (pkt_queue r))
                        (MQ.err_send (pkt_queue r))
                        (MQ.err_send (pkt_queue r));
         priv_data := priv_data r;
         rtrace := rtrace r |}.
Proof.
  intros Hseek Hlatch Hl Hu Ha. unfold reader_iteration, AVERROR.
  fails (- lock_ret e <? 0). fails (- unlock_ret e <? 0).
  holds (0 <=? request_seek r).
  unfold seek_phase, forward_seek, push_seek_message. rewrite Ha. cbn [negb].
  unfold MQ.send.
  cbn [pkt_queue with_request_seek MQ.flush MQ.err_send MQ.fifo MQ.nb_elems].
  fails (MQ.err_send (pkt_queue r) =? 0). cbn [negb].
  holds (MQ.err_send (pkt_queue r) <? 0). cbn [bind].
  fails (MQ.err_send (pkt_queue r) =? 0).
  holds (MQ.err_send (pkt_queue r) <? 0). cbn [bind].
  reflexivity.
Qed.

(** X15. However the reader loop ends, the packet queue is left with a
    negative receive latch (the error that ended the loop, EOF when
    there was none) and with its pending messages: the decoder's receive
    never waits on it, it is served the pending messages first and then
    fails with the latch. *)
Theorem reader_end_never_leaves_decoder_waiting (r : async_reader Src) ret :
  MQ.fifo (pkt_queue (reader_end r ret)) = MQ.fifo (pkt_queue r)
  /\ MQ.err_recv (pkt_queue (reader_end r ret))
     = (if ret <? 0 then ret else AVERROR_EOF)
  /\ MQ.err_recv (pkt_queue (reader_end r ret)) < 0
  /\ MQ.recv (pkt_queue (reader_end r ret)) <> MQ.RecvWait
  /\ (forall m rest,
        MQ.fifo (pkt_queue r) = m :: rest ->
        exists q', MQ.recv (pkt_queue (reader_end r ret)) = MQ.RecvOk m q'
                   /\ MQ.fifo q' = rest
                   /\ MQ.err_recv q' = MQ.err_recv (pkt_queue (reader_end r ret)))
  /\ (MQ.fifo (pkt_queue r) = [] ->
      MQ.recv (pkt_queue (reader_end r ret))
      = MQ.RecvErr (if ret <? 0 then ret else AVERROR_EOF)).
Proof.
  assert (Hneg : (if ret <? 0 then ret else AVERROR_EOF) < 0).
  { destruct (Z.ltb_spec ret 0); [lia | vm_compute; reflexivity]. }
  unfold reader_end, MQ.recv.
  cbn [pkt_queue with_pkt_queue MQ.set_err_recv MQ.fifo MQ.err_recv].
  split; [reflexivity|]. split; [reflexivity|]. split; [exact Hneg|].
  split.
  { destruct (MQ.fifo (pkt_queue r)); [|discriminate].
    fails ((if ret <? 0 then ret else AVERROR_EOF) =? 0). discriminate. }
  split.
  { intros m rest ->. eexists. split; [reflexivity|]. split; reflexivity. }
  intros ->. fails ((if ret <? 0 then ret else AVERROR_EOF) =? 0). reflexivity.
Qed.

(** X18. As long as the source answers EAGAIN and no seek is requested,
    the reader stays in its loop: each turn pulls, sleeps and goes on,
    without ever looking at the packet queue, whose latches are thus of
    no effect. The reader thread does not end, and a join on it does not
    return. *)
Theorem reader_polls_while_source_says_again n :
  forall (r : async_reader Src) e,
  lock_ret e = 0 -> unlock_ret e = 0 ->
  request_seek r < 0 ->
  (forall s, fst (fst (pull_packet_cb s)) = AVERROR EAGAIN) ->
  exists r',
    reader_turns seek_cb pull_packet_cb n r e = Ret None r'
    /\ pkt_queue r' = pkt_queue r
    /\ request_seek r' < 0
    /\ rtrace r' = rtrace r ++ concat (repeat [EvPull; EvSleep] n).
Proof.
  induction n as [|n IH]; intros r e Hl Hu Hreq Hsrc.
  - exists r. cbn. rewrite app_nil_r. repeat split; auto.
  - cbn [reader_turns]. unfold reader_iteration. rewrite Hl, Hu.
    change (AVERROR 0 <? 0) with false. cbv iota.
    fails (0 <=? request_seek r). cbn [bind].
    unfold pull_phase.
    cbn [priv_data with_request_seek].
    specialize (Hsrc (priv_data r)) as Hnow.
    destruct (pull_packet_cb (priv_data r)) as [[ret pkt] s].
    cbn [fst] in Hnow. subst ret. rewrite Z.eqb_refl. cbn [bind].
    destruct (IH (log (log (with_priv_data (with_request_seek r (-1)) s)
                         EvPull) EvSleep) e Hl Hu) as (r' & -> & Hq & Hr & Ht).
    + cbn. lia.
    + exact Hsrc.
    + exists r'. split; [reflexivity|]. split; [exact Hq|].
      split; [exact Hr|]. rewrite Ht. cbn.
      rewrite <- !app_assoc. reflexivity.
Qed.

End ReaderMoreFacts.

Import ReaderRuns.

(** X13 at work: the example reader run for two iterations. *)
Lemma seek_request_is_consumed_once_witness :
  request_seek after_one = -1
  /\ exists new, rtrace after_two = rtrace after_one ++ new
                 /\ forallb (fun ev => negb (about_seek ev)) new = true.
Proof.
  apply (seek_request_is_consumed_once Z seek_to_target pull_next
           seek_pending calm calm after_one after_two).
  - simpl. lia.
  - vm_compute. reflexivity.
  - vm_compute. reflexivity.
Defined.

(** X14 at work: a seek to 5.0 s pending, the decoder gone with
    AVERROR_EXTERNAL. *)
Lemma pending_seek_is_dropped_when_decoder_is_gone_witness :
  reader_iteration seek_to_target pull_at seek_pending_decoder_gone calm =
    Ret (Break (MQ.err_send (pkt_queue seek_pending_decoder_gone)))
      {| request_seek := -1;
         pkt_queue := MQ.mk [] (MQ.nb_elems (pkt_queue seek_pending_decoder_gone))
                        (MQ.err_send (pkt_queue seek_pending_decoder_gone))
                        (MQ.err_send (pkt_queue seek_pending_decoder_gone));
         priv_data := priv_data seek_pending_decoder_gone;
         rtrace := rtrace seek_pending_decoder_gone |}.
Proof.
  apply (pending_seek_is_dropped_when_decoder_is_gone Z seek_to_target pull_at
           seek_pending_decoder_gone calm).
  - simpl. lia.
  - vm_compute. reflexivity.
  - simpl. lia.
  - simpl. lia.
  - reflexivity.
Defined.

(** X18 at work: three turns of a reader whose packet queue is closed
    both ways, on a source that has nothing to give. *)
Lemma reader_polls_while_source_says_again_witness :
  exists r',
    reader_turns seek_to_target pull_again 3 reader_cut_off calm = Ret None r'
    /\ pkt_queue r' = pkt_queue reader_cut_off
    /\ request_seek r' < 0
    /\ rtrace r'
       = rtrace reader_cut_off ++ concat (repeat [EvPull; EvSleep] 3).
Proof.
  apply (reader_polls_while_source_says_again Z seek_to_target pull_again 3
           reader_cut_off calm).
  - reflexivity.
  - reflexivity.
  - simpl. lia.
  - intros s. reflexivity.
Defined.

(** * Further properties of the controller *)

Import Controller ControllerExamples.

Section LifecycleFacts.

(** X16. A start that succeeds followed by a stop ends, once the reader
    thread has come to its end and is joined, in the same stopped
    context whatever was pending before: [started] is 0, the sink queue
    is released, and the seek request, be it one made before the start
    or the initial skip, is reset to -1. As long as the reader has not
    ended the stop stays in the join, the context still started and its
    sink closed to senders and emptied. *)
Theorem start_then_stop_resets_the_context a skip e :
  started a = 0 ->
  0 <= queue_alloc_ret e ->
  create_ret e = 0 ->
  exists a1,
    async_start a skip e = Ret 0 (Some a1)
    /\ started a1 = 1
    /\ reader_thread a1 = true
    /\ sink_queue a1 = Some (MQ.alloc 3)
    /\ (skip <> 0 -> lock_ret e <= 0 -> request_seek a1 = skip)
    /\ (skip = 0 -> request_seek a1 = request_seek a)
    /\ async_stop (Some a1) true =
       Ret 0 (Some {| started := 0; request_seek := -1;
                      reader_thread := false; sink_queue := None |})
    /\ async_stop (Some a1) false =
       Park (Some (with_sink_queue a1
                     (Some (MQ.flush
                              (MQ.set_err_send (MQ.alloc 3) AVERROR_EOF))))).
Proof.
  intros Hs Ha Hc. unfold async_start. rewrite Hs, Hc.
  cbn [Z.eqb negb]. fails (queue_alloc_ret e <? 0).
  eexists. split; [reflexivity|].
  cbn [started reader_thread sink_queue request_seek].
  split; [reflexivity|]. split; [reflexivity|].
  split.
  { destruct (skip =? 0); cbn [negb]; [reflexivity|].
    unfold async_reader_seek, AVERROR.
    destruct (- lock_ret e <? 0); [reflexivity|].
    destruct (- unlock_ret e <? 0); reflexivity. }
  split.
  { intros Hskip Hlock. fails (skip =? 0). cbn [negb].
    unfold async_reader_seek, AVERROR. fails (- lock_ret e <? 0).
    destruct (- unlock_ret e <? 0); reflexivity. }
  split.
  { intros ->. reflexivity. }
  unfold async_stop, async_wait. cbn [started Z.eqb sink_queue negb].
  assert (Hq : sink_queue
                 (if negb (skip =? 0)
                  then snd (async_reader_seek
                              (with_sink_queue a (Some (MQ.alloc 3))) skip e)
                  else with_sink_queue a (Some (MQ.alloc 3)))
               = Some (MQ.alloc 3)).
  { destruct (skip =? 0); cbn [negb]; [reflexivity|].
    unfold async_reader_seek, AVERROR.
    destruct (- lock_ret e <? 0); [reflexivity|].
    destruct (- unlock_ret e <? 0); reflexivity. }
  rewrite Hq. split; reflexivity.
Qed.

(** X17. What [async_start] returns tells whether the context is
    started: 0 exactly when it is. A failure to allocate the sink queue
    returns that error and releases the context itself; a failure to
    create the reader thread returns the negated error with the context
    not started, the sink queue allocated and the initial skip already
    recorded. *)
Theorem async_start_reports_started a skip e :
  match async_start a skip e with
  | Ret r (Some a') =>
      (r = 0 <-> started a' <> 0)
      /\ (r <> 0 ->
          started a = 0 /\ started a' = 0 /\ r = - create_ret e
          /\ sink_queue a' = Some (MQ.alloc 3)
          /\ (skip <> 0 -> lock_ret e <= 0 -> request_seek a' = skip))
  | Ret r None => r < 0 /\ r = queue_alloc_ret e /\ started a = 0
  | _ => False
  end.
Proof.
  unfold async_start.
  destruct (Z.eqb_spec (started a) 0) as [Hs|Hs]; cbn [negb].
  2:{ split; [tauto | intros H; contradiction]. }
  destruct (Z.ltb_spec (queue_alloc_ret e) 0) as [Ha|Ha]; [auto|].
  assert (Hfields : forall x,
            x = (if negb (skip =? 0)
                 then snd (async_reader_seek
                             (with_sink_queue a (Some (MQ.alloc 3))) skip e)
                 else with_sink_queue a (Some (MQ.alloc 3))) ->
            started x = 0 /\ sink_queue x = Some (MQ.alloc 3)
            /\ (skip <> 0 -> lock_ret e <= 0 -> request_seek x = skip)).
  { intros x ->. destruct (Z.eqb_spec skip 0) as [E|E]; cbn [negb].
    - repeat split; auto. intros H; contradiction.
    - unfold async_reader_seek, AVERROR.
      destruct (Z.ltb_spec (- lock_ret e) 0) as [Hl|Hl].
      + repeat split; auto. intros _ H. lia.
      + destruct (- unlock_ret e <? 0); repeat split; auto. }
  destruct (Z.eqb_spec (create_ret e) 0) as [Hc|Hc]; cbn [negb].
  - cbn [started]. split; [split; [discriminate | reflexivity]|].
    intros H; contradiction.
  - destruct (Hfields _ eq_refl) as (H1 & H2 & H3).
    unfold AVERROR. split.
    + rewrite H1. split; [lia | intros H; contradiction].
    + intros _. auto.
Qed.

End LifecycleFacts.

(** X16 at work: a fresh context started with a skip of 2.0 s, then
    stopped. *)
Lemma start_then_stop_resets_the_context_witness :
  exists a1,
    async_start fresh 2000000 fine = Ret 0 (Some a1)
    /\ started a1 = 1
    /\ reader_thread a1 = true
    /\ sink_queue a1 = Some (MQ.alloc 3)
    /\ (2000000 <> 0 -> lock_ret fine <= 0 -> request_seek a1 = 2000000)
    /\ (2000000 = 0 -> request_seek a1 = request_seek fresh)
    /\ async_stop (Some a1) true =
       Ret 0 (Some {| started := 0; request_seek := -1;
                      reader_thread := false; sink_queue := None |})
    /\ async_stop (Some a1) false =
       Park (Some (with_sink_queue a1
                     (Some (MQ.flush
                              (MQ.set_err_send (MQ.alloc 3) AVERROR_EOF))))).
Proof.
  apply (start_then_stop_resets_the_context fresh 2000000 fine).
  - reflexivity.
  - simpl. lia.
  - reflexivity.
Defined.
